(** * tailssh: policy evaluation, key cache and session fences

    A shallow embedding of [ssh/tailssh/tailssh.go].  Go strings and byte
    slices are [string]s (sequences of 8-bit characters), Go maps are
    [gmap]s, nilable pointers are [option]s, and every method that mutates
    its receiver returns the new receiver next to its result. *)

From Stdlib Require Import ZArith Ascii String List Bool Lia.
From stdpp Require Import gmap strings list fin_maps pretty.

Local Open Scope string_scope.

(** ** The parts of Go's [strings] package the server uses *)

Module GoStrings.

(** [strings.HasPrefix(s, p)]. *)
Fixpoint HasPrefix (s p : string) : bool :=
  match p, s with
  | EmptyString, _ => true
  | String _ _, EmptyString => false
  | String b p', String a s' => Ascii.eqb a b && HasPrefix s' p'
  end.

(** [strings.HasSuffix(s, p)]. *)
Definition HasSuffix (s p : string) : bool :=
  HasPrefix (String.rev s) (String.rev p).

(** [strings.TrimSuffix(s, p)]: [s] without the trailing [p], or [s]
    itself when it does not end in [p]. *)
Definition TrimSuffix (s p : string) : string :=
  if HasSuffix s p
  then String.substring 0 (String.length s - String.length p) s
  else s.

(** [strings.Cut(s, sep)] for a one-byte separator: the text before and
    after the first [sep], and whether [sep] was found. *)
Fixpoint Cut (s : string) (sep : ascii) : string * string * bool :=
  match s with
  | EmptyString => (EmptyString, EmptyString, false)
  | String a s' =>
      if Ascii.eqb a sep then (EmptyString, s', true)
      else let '(before, after, found) := Cut s' sep in
           (String a before, after, found)
  end.

(** [strings.Split(s, sep)] for a one-byte separator. *)
Fixpoint Split (s : string) (sep : ascii) : list string :=
  match s with
  | EmptyString => [EmptyString]
  | String a s' =>
      if Ascii.eqb a sep then EmptyString :: Split s' sep
      else match Split s' sep with
           | [] => [String a EmptyString]
           | w :: ws => String a w :: ws
           end
  end.

(** [strings.Contains(s, sep)] for a one-byte [sep]. *)
Fixpoint Contains (s : string) (sep : ascii) : bool :=
  match s with
  | EmptyString => false
  | String a s' => Ascii.eqb a sep || Contains s' sep
  end.

(** [strings.NewReplacer(old1, new1, ...).Replace(s)] for non-empty old
    strings: matches are tried in argument order at each position of
    the target and do not overlap. *)
Fixpoint firstMatch (pairs : list (string * string)) (s : string)
    : option (string * string) :=
  match pairs with
  | [] => None
  | (old, new) :: ps =>
      if HasPrefix s old then Some (old, new) else firstMatch ps s
  end.

Fixpoint replaceFrom (pairs : list (string * string)) (s : string)
    (skip : nat) : string :=
  match s with
  | EmptyString => EmptyString
  | String c s' =>
      match skip with
      | S k => replaceFrom pairs s' k
      | O =>
          match firstMatch pairs s with
          | Some (old, new) =>
              new ++ replaceFrom pairs s' (String.length old - 1)
          | None => String c (replaceFrom pairs s' 0)
          end
      end
  end.

Definition Replace (pairs : list (string * string)) (s : string) : string :=
  replaceFrom pairs s 0.

End GoStrings.

Import GoStrings.

(** ** User mapping *)

(** [mapLocalUser]: a lookup in a Go map yields the zero value [""] for a
    missing key, and the comma-ok form tells the two apart. *)
Definition mapLocalUser (ruleSSHUsers : gmap string string)
    (reqSSHUser : string) : string :=
  let v := match ruleSSHUsers !! reqSSHUser with
           | Some v => v
           | None => default "" (ruleSSHUsers !! "*")
           end in
  if String.eqb v "=" then reqSSHUser else v.

(** ** Errors

    Go errors that the handshake tells apart.  [errPubKeyRequired] and
    [ErrDenied] are package-level values compared by identity; [Wrap] is
    [fmt.Errorf] with a [%w] verb, [errorString] any other error value. *)

Inductive error : Type :=
| ErrDenied
| errPubKeyRequired
| Wrap (prefix : string) (inner : error) (suffix : string)
| errorString (msg : string).

(** [errors.Is(e, gossh.ErrDenied)]. *)
Fixpoint isDenied (e : error) : bool :=
  match e with
  | ErrDenied => true
  | Wrap _ inner _ => isDenied inner
  | _ => false
  end.

(** [err.Error()]. *)
Fixpoint errorText (e : error) : string :=
  match e with
  | ErrDenied => "ssh: access denied"
  | errPubKeyRequired => "ssh publickey required"
  | Wrap prefix inner suffix => prefix ++ errorText inner ++ suffix
  | errorString msg => msg
  end.

(** [err == errPubKeyRequired], the comparison of [nextAuthMethodCallback]. *)
Definition isPubKeyRequired (e : error) : bool :=
  match e with errPubKeyRequired => true | _ => false end.

(** A Go panic aborts the call; nothing of the state is handed back. *)
Inductive res (A : Type) : Type :=
| Ok (a : A)
| Panic (msg : string).
Arguments Ok {A} a.
Arguments Panic {A} msg.

(** ** Time

    A [time.Time] is its nanosecond count, a [time.Duration] an int64 of
    nanoseconds. *)

Definition Time := Z.
Definition Duration := Z.

Definition Second : Duration := 1000000000%Z.
Definition Minute : Duration := (60 * Second)%Z.
Definition maxDuration : Duration := (2 ^ 63 - 1)%Z.
Definition minDuration : Duration := (- 2 ^ 63)%Z.

Definition Time_Add (t : Time) (d : Duration) : Time := (t + d)%Z.
Definition Time_Before (t u : Time) : bool := (t <? u)%Z.

(** [t.Sub(u)] saturates at the ends of the int64 range. *)
Definition Time_Sub (t u : Time) : Duration :=
  Z.max minDuration (Z.min maxDuration (t - u)).

(** ** tailcfg and netip types used by the policy *)

Record SSHAction := {
  Message : string;
  Reject : bool;
  Accept : bool;
  SessionDuration : Duration;
  AllowAgentForwarding : bool;
  HoldAndDelegate : string;
  AllowLocalPortForwarding : bool
}.

Record SSHPrincipal := {
  Node : string;          (* StableNodeID; zero when empty *)
  NodeIP : string;
  UserLogin : string;
  Any : bool;
  PubKeys : list string
}.

(** Rules, principals and actions are held through pointers, which the
    code checks for nil in [matchRule] and [anyPrincipalMatches]. *)
Record SSHRule := {
  RuleExpires : option Time;
  Principals : list (option SSHPrincipal);
  SSHUsers : gmap string string;
  Action : option SSHAction
}.

Record SSHPolicy := { Rules : list (option SSHRule) }.

(** [netip.Addr]: the zero value, an IPv4 address (4 bytes) or an IPv6
    address (16 bytes, with a zone). *)
Inductive Addr : Type :=
| AddrZero
| Addr4 (b : string)
| Addr6 (b : string) (zone : string).

Global Instance Addr_eq_dec : EqDecision Addr.
Proof. solve_decision. Defined.

Record AddrPort := { ap_addr : Addr; ap_port : Z }.

Record TailcfgNode := { ID : Z; StableID : string }.
Record UserProfile := { LoginName : string }.
Record NetworkMap := { SelfNode_ID : option Z; nm_SSHPolicy : option SSHPolicy }.

(** [os/user.User]. *)
Record User := { Uid : string; Gid : string; Username : string }.

(** [ssh.PublicKey]: the two methods the server calls. *)
Record PublicKey := { Type_ : string; Marshal : string }.

Record sshConnInfo := {
  sshUser : string;
  src : AddrPort;
  dst : AddrPort;
  node : option TailcfgNode;
  uprof : UserProfile
}.

(** [pubKeyCacheEntry]. *)
Record pubKeyCacheEntry := {
  lines : list string;
  etag : string;
  at_ : Time
}.

Definition pubKeyCacheDuration : Duration := Minute.
Definition pubKeyCacheEmptyDuration : Duration := (15 * Second)%Z.

Definition forcePasswordSuffix : string := "+password".

(** ** [encoding/base64]: [StdEncoding.DecodeString]

    The decoder works quantum by quantum (four characters give three
    bytes), skips carriage returns and line feeds, and is not strict about
    the unused bits of a padded quantum.  On malformed input it hands back
    the bytes decoded so far together with an error. *)

Module Base64.

Definition decodeMap (c : ascii) : option N :=
  let n := N_of_ascii c in
  if (65 <=? n)%N && (n <=? 90)%N then Some (n - 65)%N
  else if (97 <=? n)%N && (n <=? 122)%N then Some (n - 71)%N
  else if (48 <=? n)%N && (n <=? 57)%N then Some (n + 4)%N
  else if (n =? 43)%N then Some 62%N
  else if (n =? 47)%N then Some 63%N
  else None.

Definition isNewline (c : ascii) : bool :=
  Ascii.eqb c "010"%char || Ascii.eqb c "013"%char.

Definition padChar : ascii := "="%char.

Fixpoint skipNewlines (s : string) : string :=
  match s with
  | String c s' => if isNewline c then skipNewlines s' else s
  | EmptyString => s
  end.

(** The first [n] bytes of the 24-bit group made of four sextets. *)
Definition quantumBytes (v0 v1 v2 v3 : N) (n : nat) : string :=
  let val := (v0 * 262144 + v1 * 4096 + v2 * 64 + v3)%N in
  let b0 := ascii_of_N ((val / 65536) mod 256) in
  let b1 := ascii_of_N ((val / 256) mod 256) in
  let b2 := ascii_of_N (val mod 256) in
  String.substring 0 n (String b0 (String b1 (String b2 EmptyString))).

(** After the padding of the last quantum only newlines may follow. *)
Definition afterPadding (out rest : string) : string * bool :=
  (out, match skipNewlines rest with EmptyString => true | _ => false end).

(** [buf] holds the sextets of the quantum being read, [out] the bytes
    written so far; the boolean is [err == nil]. *)
Fixpoint decodeLoop (src : string) (buf : list N) (out : string)
    : string * bool :=
  match src with
  | EmptyString => (out, match buf with [] => true | _ => false end)
  | String c rest =>
      match decodeMap c with
      | Some v =>
          match buf with
          | [v0; v1; v2] =>
              decodeLoop rest [] (out ++ quantumBytes v0 v1 v2 v 3)
          | _ => decodeLoop rest (buf ++ [v]) out
          end
      | None =>
          if isNewline c then decodeLoop rest buf out
          else if Ascii.eqb c padChar then
            match buf with
            | [v0; v1] =>
                match skipNewlines rest with
                | String c2 rest2 =>
                    if Ascii.eqb c2 padChar
                    then afterPadding (out ++ quantumBytes v0 v1 0 0 1) rest2
                    else (out, false)
                | EmptyString => (out, false)
                end
            | [v0; v1; v2] =>
                afterPadding (out ++ quantumBytes v0 v1 v2 0 2) rest
            | _ => (out, false)
            end
          else (out, false)
      end
  end.

Definition DecodeString (s : string) : string * bool :=
  decodeLoop s [] EmptyString.

End Base64.

(** ** Authorized-key entries *)

Definition pubKeyMatchesAuthorizedKey (pubKey : PublicKey) (wantKey : string)
    : bool :=
  let '(wantKeyType, rest, ok) := Cut wantKey " " in
  if negb ok then false
  else if negb (String.eqb (Type_ pubKey) wantKeyType) then false
  else
    let '(wantKeyB64, _, _) := Cut rest " " in
    let '(wantKeyData, _) := Base64.DecodeString wantKeyB64 in
    (0 <? String.length wantKeyData)%nat
    && String.eqb (Marshal pubKey) wantKeyData.

(** ** Connections and sessions *)

(** [net.Addr] as [toIPPort] sees it: a [*net.TCPAddr] or something else. *)
Inductive net_Addr : Type :=
| TCPAddr (IP : string) (Port : Z)
| OtherNetAddr.

(** [ssh.Context]: what the handshake asks of it. *)
Record sshContext := {
  ctx_User : string;
  RemoteAddr : net_Addr;
  LocalAddr : net_Addr;
  SessionID : string;
  SendAuthBanner : string -> option error
}.

(** An accepted session.  [ssPtr] stands for the address of the Go
    object, [connPtr] for its [conn] field. *)
Record sshSession := {
  ssPtr : nat;
  sharedID : string;
  connPtr : nat;
  Subsystem : string
}.

Record conn := {
  insecureSkipTailscaleAuth : bool;
  idH : string;
  connID : string;
  anyPasswordIsOkay : bool;
  action0 : option SSHAction;
  currentAction : option SSHAction;
  finalAction : option SSHAction;
  finalActionErr : option error;
  info : option sshConnInfo;
  localUser : option User;
  userGroupIDs : list string;
  pubKey : option PublicKey;
  sessions : list sshSession;
  closed : bool                       (* the embedded ssh.Server was closed *)
}.

Definition set_anyPasswordIsOkay (b : bool) (c : conn) : conn :=
  {| insecureSkipTailscaleAuth := insecureSkipTailscaleAuth c; idH := idH c;
     connID := connID c; anyPasswordIsOkay := b; action0 := action0 c;
     currentAction := currentAction c; finalAction := finalAction c;
     finalActionErr := finalActionErr c; info := info c;
     localUser := localUser c; userGroupIDs := userGroupIDs c;
     pubKey := pubKey c; sessions := sessions c; closed := closed c |}.

(** [c.action0 = a; c.currentAction = a; c.pubKey = pubKey]. *)
Definition set_matched (a : SSHAction) (k : option PublicKey) (c : conn)
    : conn :=
  {| insecureSkipTailscaleAuth := insecureSkipTailscaleAuth c; idH := idH c;
     connID := connID c; anyPasswordIsOkay := anyPasswordIsOkay c;
     action0 := Some a; currentAction := Some a;
     finalAction := finalAction c; finalActionErr := finalActionErr c;
     info := info c; localUser := localUser c;
     userGroupIDs := userGroupIDs c; pubKey := k;
     sessions := sessions c; closed := closed c |}.

Definition set_currentAction (a : option SSHAction) (c : conn) : conn :=
  {| insecureSkipTailscaleAuth := insecureSkipTailscaleAuth c; idH := idH c;
     connID := connID c; anyPasswordIsOkay := anyPasswordIsOkay c;
     action0 := action0 c; currentAction := a;
     finalAction := finalAction c; finalActionErr := finalActionErr c;
     info := info c; localUser := localUser c;
     userGroupIDs := userGroupIDs c; pubKey := pubKey c;
     sessions := sessions c; closed := closed c |}.

Definition set_finalAction (a : option SSHAction) (c : conn) : conn :=
  {| insecureSkipTailscaleAuth := insecureSkipTailscaleAuth c; idH := idH c;
     connID := connID c; anyPasswordIsOkay := anyPasswordIsOkay c;
     action0 := action0 c; currentAction := currentAction c;
     finalAction := a; finalActionErr := finalActionErr c;
     info := info c; localUser := localUser c;
     userGroupIDs := userGroupIDs c; pubKey := pubKey c;
     sessions := sessions c; closed := closed c |}.

Definition set_finalActionErr (e : option error) (c : conn) : conn :=
  {| insecureSkipTailscaleAuth := insecureSkipTailscaleAuth c; idH := idH c;
     connID := connID c; anyPasswordIsOkay := anyPasswordIsOkay c;
     action0 := action0 c; currentAction := currentAction c;
     finalAction := finalAction c; finalActionErr := e;
     info := info c; localUser := localUser c;
     userGroupIDs := userGroupIDs c; pubKey := pubKey c;
     sessions := sessions c; closed := closed c |}.

(** [c.idH = h; c.info = ci]. *)
Definition set_info (h : string) (ci : sshConnInfo) (c : conn) : conn :=
  {| insecureSkipTailscaleAuth := insecureSkipTailscaleAuth c; idH := h;
     connID := connID c; anyPasswordIsOkay := anyPasswordIsOkay c;
     action0 := action0 c; currentAction := currentAction c;
     finalAction := finalAction c; finalActionErr := finalActionErr c;
     info := Some ci; localUser := localUser c;
     userGroupIDs := userGroupIDs c; pubKey := pubKey c;
     sessions := sessions c; closed := closed c |}.

(** [c.userGroupIDs = gids; c.localUser = lu]. *)
Definition set_localUser (lu : User) (gids : list string) (c : conn) : conn :=
  {| insecureSkipTailscaleAuth := insecureSkipTailscaleAuth c; idH := idH c;
     connID := connID c; anyPasswordIsOkay := anyPasswordIsOkay c;
     action0 := action0 c; currentAction := currentAction c;
     finalAction := finalAction c; finalActionErr := finalActionErr c;
     info := info c; localUser := Some lu; userGroupIDs := gids;
     pubKey := pubKey c; sessions := sessions c; closed := closed c |}.

Definition set_sessions (l : list sshSession) (c : conn) : conn :=
  {| insecureSkipTailscaleAuth := insecureSkipTailscaleAuth c; idH := idH c;
     connID := connID c; anyPasswordIsOkay := anyPasswordIsOkay c;
     action0 := action0 c; currentAction := currentAction c;
     finalAction := finalAction c; finalActionErr := finalActionErr c;
     info := info c; localUser := localUser c;
     userGroupIDs := userGroupIDs c; pubKey := pubKey c;
     sessions := l; closed := closed c |}.

Definition set_closed (b : bool) (c : conn) : conn :=
  {| insecureSkipTailscaleAuth := insecureSkipTailscaleAuth c; idH := idH c;
     connID := connID c; anyPasswordIsOkay := anyPasswordIsOkay c;
     action0 := action0 c; currentAction := currentAction c;
     finalAction := finalAction c; finalActionErr := finalActionErr c;
     info := info c; localUser := localUser c;
     userGroupIDs := userGroupIDs c; pubKey := pubKey c;
     sessions := sessions c; closed := b |}.

(** ** The world outside the server

    Everything the server obtains from its collaborators: the local
    backend ([ipnLocalBackend]), the environment knobs, the clock hook,
    the HTTP client for public-key lists, the account database and the
    library functions on addresses and text.  A call that may answer
    differently each time takes the number of earlier calls. *)

Record Request := {
  req_url : string;
  IfNoneMatch : option string
}.

Record Response := {
  StatusCode : Z;
  Status : string;
  Body : string;               (* the bytes the body yields ...        *)
  BodyErr : option error;      (* ... and the error that ends it, if any *)
  Header_Etag : string
}.

Record environ := {
  (* ipnLocalBackend *)
  ShouldRunSSH : bool;
  NetMap : option NetworkMap;
  WhoIs : AddrPort -> option (option TailcfgNode * UserProfile);
  (* envknob *)
  SSHIgnoreTailnetPolicy : bool;
  SSHPolicyFile : string;
  readPolicyFile : string -> option SSHPolicy;   (* ReadFile, then Unmarshal *)
  (* hooks of the server struct *)
  timeNow : nat -> Time;
  pubKeyClient_Do : nat -> Request -> error + Response;
  NewRequest_err : string -> option error;
  (* os/user *)
  user_Lookup : string -> error + User;
  GroupIds : User -> error + list string;
  (* tsaddr, netip, strings, net/url *)
  IsTailscaleIP : Addr -> bool;
  ParseAddr : string -> Addr;                    (* the zero Addr on error *)
  Addr_String : Addr -> string;
  TrimSpace : string -> string;
  QueryEscape : string -> string
}.

(** One round of [fetchSSHAction]'s loop as the network decides it: the
    context is done, the request fails, the reply has another status, the
    body does not decode, or an action arrives.  When no round is left the
    30-minute deadline has passed. *)
Inductive noiseRound : Type :=
| CtxDone (err : error)
| NoiseErr (err : error)
| NoiseStatus (status : Z) (body : string)
| NoiseBadJSON (err : error)
| NoiseAction (a : SSHAction).

(** ** Server state

    The fields of the [server] struct that change, then what the server
    has consumed and produced so far: clock reads, public-key requests,
    the rounds the control plane will still answer and the delegation
    requests sent. *)
Record server := {
  sessionWaitGroup : Z;
  activeConns : gset nat;
  fetchPublicKeysCache : gmap string pubKeyCacheEntry;
  shutdownCalled : bool;
  clockReads : nat;
  pubKeyRequests : list Request;
  noiseRounds : list noiseRound;
  noiseRequests : list string
}.

Definition set_cache (m : gmap string pubKeyCacheEntry) (s : server) : server :=
  {| sessionWaitGroup := sessionWaitGroup s; activeConns := activeConns s;
     fetchPublicKeysCache := m; shutdownCalled := shutdownCalled s;
     clockReads := clockReads s; pubKeyRequests := pubKeyRequests s;
     noiseRounds := noiseRounds s; noiseRequests := noiseRequests s |}.

Definition set_clockReads (n : nat) (s : server) : server :=
  {| sessionWaitGroup := sessionWaitGroup s; activeConns := activeConns s;
     fetchPublicKeysCache := fetchPublicKeysCache s;
     shutdownCalled := shutdownCalled s;
     clockReads := n; pubKeyRequests := pubKeyRequests s;
     noiseRounds := noiseRounds s; noiseRequests := noiseRequests s |}.

Definition set_pubKeyRequests (l : list Request) (s : server) : server :=
  {| sessionWaitGroup := sessionWaitGroup s; activeConns := activeConns s;
     fetchPublicKeysCache := fetchPublicKeysCache s;
     shutdownCalled := shutdownCalled s;
     clockReads := clockReads s; pubKeyRequests := l;
     noiseRounds := noiseRounds s; noiseRequests := noiseRequests s |}.

Definition set_noise (rounds : list noiseRound) (reqs : list string)
    (s : server) : server :=
  {| sessionWaitGroup := sessionWaitGroup s; activeConns := activeConns s;
     fetchPublicKeysCache := fetchPublicKeysCache s;
     shutdownCalled := shutdownCalled s;
     clockReads := clockReads s; pubKeyRequests := pubKeyRequests s;
     noiseRounds := rounds; noiseRequests := reqs |}.

Definition set_shutdownCalled (b : bool) (s : server) : server :=
  {| sessionWaitGroup := sessionWaitGroup s; activeConns := activeConns s;
     fetchPublicKeysCache := fetchPublicKeysCache s;
     shutdownCalled := b;
     clockReads := clockReads s; pubKeyRequests := pubKeyRequests s;
     noiseRounds := noiseRounds s; noiseRequests := noiseRequests s |}.

Definition set_sessionWaitGroup (n : Z) (s : server) : server :=
  {| sessionWaitGroup := n; activeConns := activeConns s;
     fetchPublicKeysCache := fetchPublicKeysCache s;
     shutdownCalled := shutdownCalled s;
     clockReads := clockReads s; pubKeyRequests := pubKeyRequests s;
     noiseRounds := noiseRounds s; noiseRequests := noiseRequests s |}.

Definition set_activeConns (a : gset nat) (s : server) : server :=
  {| sessionWaitGroup := sessionWaitGroup s; activeConns := a;
     fetchPublicKeysCache := fetchPublicKeysCache s;
     shutdownCalled := shutdownCalled s;
     clockReads := clockReads s; pubKeyRequests := pubKeyRequests s;
     noiseRounds := noiseRounds s; noiseRequests := noiseRequests s |}.

(** ** A state monad with panics *)

Definition M (A : Type) : Type := server -> res (A * server).

Definition ret {A} (a : A) : M A := fun s => Ok (a, s).

Definition bind {A B} (m : M A) (f : A -> M B) : M B :=
  fun s => match m s with
           | Ok (a, s') => f a s'
           | Panic msg => Panic msg
           end.

Definition panic {A} (msg : string) : M A := fun _ => Panic msg.
Definition get : M server := fun s => Ok (s, s).
Definition modify (f : server -> server) : M unit := fun s => Ok (tt, f s).

Declare Scope go_scope.
Delimit Scope go_scope with go.
Notation "x <- m ;; k" := (bind m (fun x => k))
  (at level 100, m at next level, right associativity) : go_scope.
Notation "m ;;; k" := (bind m (fun _ => k))
  (at level 100, right associativity) : go_scope.

Local Open Scope go_scope.

Section Server.

Context (E : environ).

(** [srv.now()]: one more read of the clock. *)
Definition now : M Time :=
  fun s => Ok (timeNow E (clockReads s), set_clockReads (S (clockReads s)) s).

Definition zeroEntry : pubKeyCacheEntry :=
  {| lines := []; etag := ""; at_ := 0%Z |}.

(** The opportunistic clean-up at the head of [fetchPublicKeysURLCached].
    Deleting the current key while ranging over a Go map is allowed and
    every entry is visited once, so the loop is a filter. *)
Definition pruneCache : M unit :=
  s <- get ;;
  if (50 <? size (fetchPublicKeysCache s))%nat then
    t <- now ;;
    let tooOld := Time_Add t (pubKeyCacheDuration * 10)%Z in
    modify (fun s' =>
      set_cache
        (filter (fun kv => Time_Before (at_ kv.2) tooOld = false)
                (fetchPublicKeysCache s')) s')
  else ret tt.

Definition fetchPublicKeysURLCached (url : string)
    : M (pubKeyCacheEntry * bool) :=
  pruneCache ;;;
  s <- get ;;
  match fetchPublicKeysCache s !! url with
  | None => ret (zeroEntry, false)
  | Some ce =>
      let maxAge := match lines ce with
                    | [] => pubKeyCacheEmptyDuration
                    | _ => pubKeyCacheDuration
                    end in
      t <- now ;;
      ret (ce, (Time_Sub t (at_ ce) <? maxAge)%Z)
  end.

(** [io.ReadAll(io.LimitReader(res.Body, 4<<10))]: the limit turns into
    a clean end of input once 4096 bytes were read. *)
Definition readLimited (r : Response) : string * option error :=
  (String.substring 0 4096 (Body r),
   if (String.length (Body r) <? 4096)%nat then BodyErr r else None).

Definition StatusOK : Z := 200.
Definition StatusNotModified : Z := 304.

(** What a reply makes of the entry that was read: lines, etag, error. *)
Definition interpretResponse (ce : pubKeyCacheEntry) (r : Response)
    : list string * string * option error :=
  if (StatusCode r =? StatusNotModified)%Z then (lines ce, etag ce, None)
  else if (StatusCode r =? StatusOK)%Z then
    let '(all, err) := readLimited r in
    let s := TrimSpace E all in
    (if String.eqb s "" then [] else Split s "010"%char,
     Header_Etag r, err)
  else ([], "", Some (errorString ("unexpected status " ++ Status r))).

Definition fetchPublicKeysURL (url : string)
    : M (list string * option error) :=
  if negb (HasPrefix url "https://") then
    ret ([], Some (errorString "invalid URL scheme"))
  else
    cached <- fetchPublicKeysURLCached url ;;
    let '(ce, ok) := cached in
    if ok : bool then ret (lines ce, None)
    else
      match NewRequest_err E url with
      | Some err => ret ([], Some err)
      | None =>
          let req := {| req_url := url;
                        IfNoneMatch := if String.eqb (etag ce) "" then None
                                       else Some (etag ce) |} in
          s <- get ;;
          let answer := pubKeyClient_Do E (length (pubKeyRequests s)) req in
          modify (set_pubKeyRequests (pubKeyRequests s ++ [req])) ;;;
          match answer with
          | inl err => ret ([], Some err)
          | inr r =>
              let '(lines', etag', err) := interpretResponse ce r in
              t <- now ;;
              modify (fun s' =>
                set_cache (<[ url := {| lines := lines'; etag := etag';
                                        at_ := t |} ]>
                           (fetchPublicKeysCache s')) s') ;;;
              ret (lines', err)
          end
      end.

End Server.

(** ** Policy evaluation *)

Definition errNilRule : error := errorString "nil rule".
Definition errNilAction : error := errorString "nil action".
Definition errRuleExpired : error := errorString "rule expired".
Definition errPrincipalMatch : error := errorString "principal didn't match".
Definition errUserMatch : error := errorString "user didn't match".
Definition errInvalidConn : error := errorString "invalid connection state".

Definition nilDeref : string := "invalid memory address or nil pointer dereference".

(** [netip.AddrFromSlice] and [Addr.Unmap]. *)
Definition AddrFromSlice (ip : string) : option Addr :=
  match String.length ip with
  | 4%nat => Some (Addr4 ip)
  | 16%nat => Some (Addr6 ip "")
  | _ => None
  end.

Definition v4InV6Prefix : string :=
  String.concat "" (replicate 10 (String "000" "") ++ replicate 2 (String "255" "")).

Definition Unmap (a : Addr) : Addr :=
  match a with
  | Addr6 b _ => if HasPrefix b v4InV6Prefix
                 then Addr4 (String.substring 12 4 b) else a
  | _ => a
  end.

Definition zeroAddrPort : AddrPort := {| ap_addr := AddrZero; ap_port := 0 |}.

Definition toIPPort (a : net_Addr) : AddrPort :=
  match a with
  | OtherNetAddr => zeroAddrPort
  | TCPAddr ip port =>
      match AddrFromSlice ip with
      | None => zeroAddrPort
      | Some tanetaddr =>
          {| ap_addr := Unmap tanetaddr; ap_port := port mod 65536 |}
      end
  end.

Section Policy.

Context (E : environ).

(** [setInfo]: the identity is looked up once and then kept. *)
Definition setInfo (ctx : sshContext) (c : conn) : option error * conn :=
  match info c with
  | Some _ => (None, c)
  | None =>
      let user := TrimSuffix (ctx_User ctx) forcePasswordSuffix in
      let src' := toIPPort (RemoteAddr ctx) in
      let dst' := toIPPort (LocalAddr ctx) in
      if negb (IsTailscaleIP E (ap_addr dst')) then
        (Some (errorString "tailssh: rejecting non-Tailscale local address"), c)
      else if negb (IsTailscaleIP E (ap_addr src')) then
        (Some (errorString "tailssh: rejecting non-Tailscale remote address"), c)
      else
        match WhoIs E src' with
        | None => (Some (errorString "unknown Tailscale identity"), c)
        | Some (node', uprof') =>
            (None,
             set_info (SessionID ctx)
               {| sshUser := user; src := src'; dst := dst';
                  node := node'; uprof := uprof' |} c)
        end
  end.

(** [sshPolicy]: the network map's policy, or the debug policy file. *)
Definition sshPolicy : option SSHPolicy :=
  let debugPolicy :=
    if String.eqb (SSHPolicyFile E) "" then None
    else readPolicyFile E (SSHPolicyFile E) in
  if negb (ShouldRunSSH E) then None
  else match NetMap E with
       | None => None
       | Some nm =>
           match nm_SSHPolicy nm with
           | Some pol =>
               if negb (SSHIgnoreTailnetPolicy E) then Some pol
               else debugPolicy
           | None => debugPolicy
           end
       end.

Definition ruleExpired (r : SSHRule) : M bool :=
  match RuleExpires r with
  | None => ret false
  | Some expires => t <- now E ;; ret (Time_Before expires t)
  end.

Definition nonEmpty (s : string) : bool := negb (String.eqb s "").

(** [principalMatchesTailscaleIdentity]: the four identity fields, not
    the keys.  With [c.info] nil, the first field that has to look at it
    panics. *)
Definition principalMatchesTailscaleIdentity (c : conn) (p : SSHPrincipal)
    : M bool :=
  if Any p then ret true
  else match info c with
       | Some ci =>
           if nonEmpty (Node p)
              && match node ci with
                 | Some n => String.eqb (Node p) (StableID n)
                 | None => false
                 end
           then ret true
           else if nonEmpty (NodeIP p)
                   && bool_decide (ParseAddr E (NodeIP p) = ap_addr (src ci))
           then ret true
           else ret (nonEmpty (UserLogin p)
                     && String.eqb (LoginName (uprof ci)) (UserLogin p))
       | None =>
           if nonEmpty (Node p) || nonEmpty (NodeIP p)
              || nonEmpty (UserLogin p)
           then panic nilDeref
           else ret false
       end.

Definition expandPublicKeyURL (c : conn) (pubKeyURL : string) : M string :=
  if negb (Contains pubKeyURL "$") then ret pubKeyURL
  else match info c with
       | None => panic nilDeref
       | Some ci =>
           let loginName := LoginName (uprof ci) in
           let '(localPart, _, _) := Cut loginName "@" in
           ret (Replace [("$LOGINNAME_EMAIL", loginName);
                         ("$LOGINNAME_LOCALPART", localPart)] pubKeyURL)
       end.

Definition principalMatchesPubKey (c : conn) (p : SSHPrincipal)
    (clientPubKey : option PublicKey) : M (bool * option error) :=
  match PubKeys p, clientPubKey with
  | [], _ => ret (true, None)
  | _ :: _, None => ret (false, None)
  | k0 :: more, Some key =>
      fetched <-
        (match more with
         | [] =>
             if HasPrefix k0 "https://" then
               url <- expandPublicKeyURL c k0 ;;
               fetchPublicKeysURL E url
             else ret (PubKeys p, None)
         | _ => ret (PubKeys p, None)
         end) ;;
      match fetched with
      | (_, Some err) => ret (false, Some err)
      | (knownKeys, None) =>
          ret (existsb (pubKeyMatchesAuthorizedKey key) knownKeys, None)
      end
  end.

Definition principalMatches (c : conn) (p : SSHPrincipal)
    (pubKey : option PublicKey) : M (bool * option error) :=
  ok <- principalMatchesTailscaleIdentity c p ;;
  if ok : bool then principalMatchesPubKey c p pubKey
  else ret (false, None).

Fixpoint anyPrincipalMatches (c : conn) (ps : list (option SSHPrincipal))
    (pubKey : option PublicKey) : M (bool * option error) :=
  match ps with
  | [] => ret (false, None)
  | None :: ps' => anyPrincipalMatches c ps' pubKey
  | Some p :: ps' =>
      r <- principalMatches c p pubKey ;;
      match r with
      | (_, Some err) => ret (false, Some err)
      | (true, None) => ret (true, None)
      | (false, None) => anyPrincipalMatches c ps' pubKey
      end
  end.

Definition matchRule (c : conn) (r : option SSHRule)
    (pubKey : option PublicKey) : M (error + SSHAction * string) :=
  match info c, r with
  | None, _ => ret (inl errInvalidConn)
  | Some _, None => ret (inl errNilRule)
  | Some ci, Some r =>
      match Action r with
      | None => ret (inl errNilAction)
      | Some a =>
          expired <- ruleExpired r ;;
          if expired : bool then ret (inl errRuleExpired)
          else
            let localUser :=
              if negb (Reject a) then mapLocalUser (SSHUsers r) (sshUser ci)
              else "" in
            if negb (Reject a) && String.eqb localUser ""
            then ret (inl errUserMatch)
            else
              m <- anyPrincipalMatches c (Principals r) pubKey ;;
              match m with
              | (_, Some err) => ret (inl err)
              | (false, None) => ret (inl errPrincipalMatch)
              | (true, None) => ret (inr (a, localUser))
              end
      end
  end.

Fixpoint evalSSHPolicy_rules (c : conn) (rules : list (option SSHRule))
    (pubKey : option PublicKey) : M (option (SSHAction * string)) :=
  match rules with
  | [] => ret None
  | r :: rules' =>
      m <- matchRule c r pubKey ;;
      match m with
      | inr found => ret (Some found)
      | inl _ => evalSSHPolicy_rules c rules' pubKey
      end
  end.

Definition evalSSHPolicy (c : conn) (pol : SSHPolicy)
    (pubKey : option PublicKey) : M (option (SSHAction * string)) :=
  evalSSHPolicy_rules c (Rules pol) pubKey.

Definition evaluatePolicy (c : conn) (pubKey : option PublicKey)
    : M (error + SSHAction * string) :=
  match sshPolicy with
  | None =>
      ret (inl (errorString "tailssh: rejecting connection; no SSH policy"))
  | Some pol =>
      m <- evalSSHPolicy c pol pubKey ;;
      match m with
      | None =>
          ret (inl (errorString
                      "tailssh: rejecting connection; no matching policy"))
      | Some found => ret (inr found)
      end
  end.

(** The inner loop of [havePubKeyPolicy]; a nil principal is
    dereferenced. *)
Fixpoint anyPubKeyPrincipal (c : conn) (ps : list (option SSHPrincipal))
    : M bool :=
  match ps with
  | [] => ret false
  | None :: _ => panic nilDeref
  | Some p :: ps' =>
      match PubKeys p with
      | [] => anyPubKeyPrincipal c ps'
      | _ :: _ =>
          ok <- principalMatchesTailscaleIdentity c p ;;
          if ok : bool then ret true else anyPubKeyPrincipal c ps'
      end
  end.

(** The outer loop of [havePubKeyPolicy]; a nil rule is dereferenced by
    [ruleExpired]. *)
Fixpoint havePubKeyPolicy_rules (c : conn) (ci : sshConnInfo)
    (rules : list (option SSHRule)) : M bool :=
  match rules with
  | [] => ret false
  | None :: _ => panic nilDeref
  | Some r :: rules' =>
      expired <- ruleExpired r ;;
      if expired : bool then havePubKeyPolicy_rules c ci rules'
      else if String.eqb (mapLocalUser (SSHUsers r) (sshUser ci)) ""
      then havePubKeyPolicy_rules c ci rules'
      else
        found <- anyPubKeyPrincipal c (Principals r) ;;
        if found : bool then ret true
        else havePubKeyPolicy_rules c ci rules'
  end.

Definition havePubKeyPolicy (c : conn) : M bool :=
  match info c with
  | None => panic "havePubKeyPolicy called before setInfo"
  | Some ci =>
      match sshPolicy with
      | None => ret false
      | Some pol => havePubKeyPolicy_rules c ci (Rules pol)
      end
  end.

(** [doPolicyAuth]: the error it returns, and the connection after it. *)
Definition doPolicyAuth (ctx : sshContext) (pubKey : option PublicKey)
    (c : conn) : M (option error * conn) :=
  match setInfo ctx c with
  | (Some _, c) => ret (Some ErrDenied, c)
  | (None, c) =>
      m <- evaluatePolicy c pubKey ;;
      match m with
      | inl err =>
          need <- (match pubKey with
                   | None => havePubKeyPolicy c
                   | Some _ => ret false
                   end) ;;
          if need : bool then ret (Some errPubKeyRequired, c)
          else
            ret (Some (Wrap "" ErrDenied (": " ++ errorText err)), c)
      | inr (a, localUser) =>
          let c := set_matched a pubKey c in
          match (if nonEmpty (Message a) then SendAuthBanner ctx (Message a)
                 else None) with
          | Some err => ret (Some (Wrap "SendBanner: " err ""), c)
          | None =>
              if Accept a || nonEmpty (HoldAndDelegate a) then
                let c := if Accept a then set_finalAction (Some a) c else c in
                match user_Lookup E localUser with
                | inl err => ret (Some err, c)
                | inr lu =>
                    match GroupIds E lu with
                    | inl err => ret (Some err, c)
                    | inr gids => ret (None, set_localUser lu gids c)
                    end
                end
              else if Reject a then
                ret (Some ErrDenied, set_finalAction (Some a) c)
              else ret (Some ErrDenied, c)
          end
      end
  end.

End Policy.

(** ** Action resolution and the handshake callbacks *)

Section Handshake.

Context (E : environ).

Definition DeadlineExceeded : error := errorString "context deadline exceeded".

(** The loop of [fetchSSHAction] over the rounds still to come: the
    context is checked, the request is built, then sent; [reqs] collects
    the URLs requested. *)
Fixpoint fetchSSHAction_loop (url : string) (rounds : list noiseRound)
    (reqs : list string)
    : (error + SSHAction) * list noiseRound * list string :=
  match rounds with
  | [] => (inl DeadlineExceeded, [], reqs)
  | CtxDone err :: rounds' => (inl err, rounds', reqs)
  | round :: rounds' =>
      match NewRequest_err E url with
      | Some err => (inl err, rounds, reqs)
      | None =>
          match round with
          | NoiseAction a => (inr a, rounds', (reqs ++ [url])%list)
          | _ => fetchSSHAction_loop url rounds' (reqs ++ [url])%list
          end
      end
  end.

Definition fetchSSHAction (url : string) : M (error + SSHAction) :=
  s <- get ;;
  let '(r, rounds', reqs') :=
    fetchSSHAction_loop url (noiseRounds s) (noiseRequests s) in
  modify (set_noise rounds' reqs') ;;; ret r.

Definition expandDelegateURLLocked (c : conn) (actionURL : string)
    : M string :=
  match NetMap E with
  | Some {| SelfNode_ID := None |} => panic nilDeref
  | nm =>
      let dstNodeID := match nm with
                       | Some {| SelfNode_ID := Some id |} => pretty id
                       | _ => ""
                       end in
      match info c with
      | None => panic nilDeref
      | Some ci =>
          match node ci, localUser c with
          | Some n, Some lu =>
              ret (Replace
                [("$SRC_NODE_IP", QueryEscape E (Addr_String E (ap_addr (src ci))));
                 ("$SRC_NODE_ID", pretty (ID n));
                 ("$DST_NODE_IP", QueryEscape E (Addr_String E (ap_addr (dst ci))));
                 ("$DST_NODE_ID", dstNodeID);
                 ("$SSH_USER", QueryEscape E (sshUser ci));
                 ("$LOCAL_USER", QueryEscape E (Username lu))]
                actionURL)
          | _, _ => panic nilDeref
          end
      end
  end.

(** The deferred function of [resolveNextAction]. *)
Definition recordResolution (action : option SSHAction) (err : option error)
    (c : conn) : conn :=
  let c :=
    match action with
    | Some a =>
        let c := set_currentAction (Some a) c in
        if Accept a || Reject a then set_finalAction (Some a) c else c
    | None => c
    end in
  match err with
  | Some _ => set_finalActionErr err c
  | None => c
  end.

Definition resolveNextAction (c : conn)
    : M (option SSHAction * option error * conn) :=
  match finalAction c, finalActionErr c with
  | None, None =>
      match currentAction c with
      | None => panic nilDeref
      | Some action =>
          if Accept action || Reject action then
            ret (Some action, None, recordResolution (Some action) None c)
          else if String.eqb (HoldAndDelegate action) "" then
            let err := errorString
              "reached Action that lacked Accept, Reject, and HoldAndDelegate" in
            ret (None, Some err, recordResolution None (Some err) c)
          else
            url <- expandDelegateURLLocked c (HoldAndDelegate action) ;;
            r <- fetchSSHAction url ;;
            match r with
            | inl err =>
                let err := Wrap ("fetching SSHAction from " ++ url ++ ": ")
                                err "" in
                ret (None, Some err, recordResolution None (Some err) c)
            | inr nextAction =>
                ret (Some nextAction, None,
                     recordResolution (Some nextAction) None c)
            end
      end
  | fa, fe => ret (fa, fe, c)
  end.

(** The loop of [isAuthorized]; [None] when [fuel] iterations did not
    reach a return. *)
Fixpoint isAuthorized_loop (fuel : nat) (ctx : sshContext)
    (action : SSHAction) (c : conn) : M (option (option error * conn)) :=
  match fuel with
  | O => ret None
  | S fuel' =>
      if Accept action then ret (Some (None, c))
      else if Reject action || String.eqb (HoldAndDelegate action) "" then
        ret (Some (Some ErrDenied, c))
      else
        r <- resolveNextAction c ;;
        match r with
        | (_, Some err, c') => ret (Some (Some err, c'))
        | (None, None, _) => panic nilDeref
        | (Some action', None, c') =>
            match (if nonEmpty (Message action')
                   then SendAuthBanner ctx (Message action') else None) with
            | Some err => ret (Some (Some err, c'))
            | None => isAuthorized_loop fuel' ctx action' c'
            end
        end
  end.

Definition isAuthorized (fuel : nat) (ctx : sshContext) (c : conn)
    : M (option (option error * conn)) :=
  match currentAction c with
  | None => panic nilDeref
  | Some action => isAuthorized_loop fuel ctx action c
  end.

Definition NoClientAuthCallback (fuel : nat) (ctx : sshContext) (c : conn)
    : M (option (option error * conn)) :=
  if insecureSkipTailscaleAuth c then ret (Some (None, c))
  else
    r <- doPolicyAuth E ctx None c ;;
    match r with
    | (Some err, c) => ret (Some (Some err, c))
    | (None, c) =>
        r <- isAuthorized fuel ctx c ;;
        match r with
        | None => ret None
        | Some (Some err, c) => ret (Some (Some err, c))
        | Some (None, c) =>
            if HasSuffix (ctx_User ctx) forcePasswordSuffix then
              ret (Some (Some (errorString "any password please"),
                         set_anyPasswordIsOkay true c))
            else ret (Some (None, c))
        end
    end.

Definition PublicKeyHandler (fuel : nat) (ctx : sshContext)
    (key : PublicKey) (c : conn) : M (option (option error * conn)) :=
  r <- doPolicyAuth E ctx (Some key) c ;;
  match r with
  | (Some err, c) => ret (Some (Some err, c))
  | (None, c) => isAuthorized fuel ctx c
  end.

End Handshake.

Definition nextAuthMethodCallback (c : conn) (prevErrors : list error)
    : list string :=
  (if anyPasswordIsOkay c then ["password"]
   else match last prevErrors with
        | Some e => if isPubKeyRequired e then ["publickey"] else []
        | None => []
        end) ++ ["tailscale"].

Definition fakePasswordHandler (c : conn) (ctx : sshContext)
    (password : string) : bool :=
  anyPasswordIsOkay c.

Definition mayForwardLocalPortTo (c : conn) : bool :=
  match finalAction c with
  | Some a => AllowLocalPortForwarding a
  | None => false
  end.

(** ** Sessions and the shutdown fence *)

(** [attachSession]: the wait group is incremented before the check of
    the identifier. *)
Definition attachSession (ss : sshSession) (c : conn) : M conn :=
  s <- get ;;
  modify (set_sessionWaitGroup (sessionWaitGroup s + 1)) ;;;
  if String.eqb (sharedID ss) "" then panic "empty sharedID"
  else ret (set_sessions (sessions c ++ [ss])%list c).

(** [attachSessionToConnIfNotShutdown], with [c] the connection [ss.conn]
    points to. *)
Definition attachSessionToConnIfNotShutdown (ss : sshSession) (c : conn)
    : M (bool * conn) :=
  s <- get ;;
  if shutdownCalled s then ret (false, c)
  else c' <- attachSession ss c ;; ret (true, c').

(** Removal of the first occurrence of the session (compared by address). *)
Fixpoint removeSession (ss : sshSession) (l : list sshSession)
    : list sshSession :=
  match l with
  | [] => []
  | s :: l' => if Nat.eqb (ssPtr s) (ssPtr ss) then l'
               else s :: removeSession ss l'
  end.

(** [detachSession]: the session is removed and the deferred
    [sessionWaitGroup.Done()] runs; [Done] panics when the counter would
    fall below zero. *)
Definition detachSession (ss : sshSession) (c : conn) : M conn :=
  s <- get ;;
  if (sessionWaitGroup s - 1 <? 0)%Z
  then panic "sync: negative WaitGroup counter"
  else
    modify (set_sessionWaitGroup (sessionWaitGroup s - 1)) ;;;
    ret (set_sessions (removeSession ss (sessions c)) c).

(** [newSSHSession]: [stamp] is the formatted clock read and [rnd] the
    five random bytes in hexadecimal. *)
Definition newSSHSession (ptr cptr : nat) (subsystem stamp rnd : string)
    : sshSession :=
  {| ssPtr := ptr;
     sharedID := "sess-" ++ stamp ++ "-" ++ rnd;
     connPtr := cptr;
     Subsystem := subsystem |}.

(** What the operating system and the child process decide for one run of
    a session that was attached. *)
Inductive waitOutcome : Type :=
| WaitOk
| WaitExitError (code : Z)
| WaitOtherError (err : error).

Record sessionOS := {
  Geteuid : Z;
  shouldRecord : bool;             (* recordSSH() and a pty was requested *)
  recordingErr : option error;     (* of startNewRecording, when it is called *)
  launchErr : option error;        (* of launchProcess *)
  waitResult : waitOutcome         (* of cmd.Wait *)
}.

(** What the client sees of a session: the text written to it and the
    exit status sent. *)
Record sessionReport := {
  written : list string;
  exitStatus : Z
}.

Definition report (out : list string) (code : Z) : sessionReport :=
  {| written := out; exitStatus := code |}.

Definition CRLF : string := String "013" (String "010" "").

(** The part of [run] from the recording to the exit status.  A
    recording is started only for a session that is not sftp and should be
    recorded; a failed agent forwarding is only logged. *)
Definition runChild (os : sessionOS) (ss : sshSession) : sessionReport :=
  match (if negb (String.eqb (Subsystem ss) "sftp") && shouldRecord os
         then recordingErr os else None) with
  | Some _ => report ["can't start new recording" ++ CRLF] 1
  | None =>
      match launchErr os with
      | Some _ => report [] 1
      | None =>
          match waitResult os with
          | WaitOk => report [] 0
          | WaitExitError code => report [] code
          | WaitOtherError _ => report [] 1
          end
      end
  end.

(** [sshSession.run], the streams between client and child left out; [c]
    is the connection [ss.conn] points to. *)
Definition run (os : sessionOS) (ss : sshSession) (c : conn)
    : M (sessionReport * conn) :=
  r <- attachSessionToConnIfNotShutdown ss c ;;
  let '(attached, c) := r in
  if negb attached then
    ret (report ["Tailscale SSH is shutting down" ++ CRLF] 1, c)
  else
    rep <- (match finalAction c with
            | None => panic nilDeref
            | Some _ =>
                if (Geteuid os =? 0)%Z then ret (runChild os ss)
                else match localUser c with
                     | None => panic nilDeref
                     | Some lu =>
                         if String.eqb (Uid lu) (pretty (Geteuid os))
                         then ret (runChild os ss)
                         else ret (report ["can't switch user" ++ CRLF] 1)
                     end
            end) ;;
    c' <- detachSession ss c ;;
    ret (rep, c').

(** ** The process: the server and the connections it points to *)

Record process := {
  srv : server;
  conns : gmap nat conn
}.

(** [Shutdown]: the fence is set and every active connection closed (the
    wait for the sessions changes nothing). *)
Definition Shutdown (p : process) : process :=
  {| srv := set_shutdownCalled true (srv p);
     conns := map_imap (fun k c =>
                Some (if bool_decide (k ∈ activeConns (srv p))
                      then set_closed true c else c)) (conns p) |}.

Definition trackActiveConn (cptr : nat) (add : bool) (s : server) : server :=
  if add then set_activeConns ({[ cptr ]} ∪ activeConns s) s
  else set_activeConns (activeConns s ∖ {[ cptr ]}) s.

Definition emptyConn (id : string) : conn :=
  {| insecureSkipTailscaleAuth := false; idH := ""; connID := id;
     anyPasswordIsOkay := false; action0 := None; currentAction := None;
     finalAction := None; finalActionErr := None; info := None;
     localUser := None; userGroupIDs := []; pubKey := None;
     sessions := []; closed := false |}.

(** [newConn]: refused once the fence is set; [hostKeys] is the error of
    [GetSSH_HostKeys], if any. *)
Definition newConn (id : string) (hostKeys : option error) (s : server)
    : error + conn :=
  if shutdownCalled s then inl ErrDenied
  else match hostKeys with
       | Some err => inl err
       | None => inr (emptyConn id)
       end.

(** What can happen to a process, one atomic step each: the server lock
    is held while each of them touches the state. *)
Inductive event : Type :=
| EvShutdown
| EvNewConn (cptr : nat) (id : string) (hostKeys : option error)
| EvTrack (cptr : nat) (add : bool)
| EvAttach (ss : sshSession)
| EvDetach (ss : sshSession)
| EvFetchKeys (url : string).

Definition onConn (ss : sshSession) (f : conn -> M conn) (p : process)
    : res process :=
  match conns p !! connPtr ss with
  | None => Panic nilDeref
  | Some c =>
      match f c (srv p) with
      | Panic msg => Panic msg
      | Ok (c', s') => Ok {| srv := s'; conns := <[ connPtr ss := c' ]> (conns p) |}
      end
  end.

Definition step (E : environ) (ev : event) (p : process) : res process :=
  match ev with
  | EvShutdown => Ok (Shutdown p)
  | EvNewConn cptr id hostKeys =>
      match newConn id hostKeys (srv p) with
      | inl _ => Ok p
      | inr c => Ok {| srv := srv p; conns := <[ cptr := c ]> (conns p) |}
      end
  | EvTrack cptr add =>
      Ok {| srv := trackActiveConn cptr add (srv p); conns := conns p |}
  | EvAttach ss =>
      onConn ss (fun c => r <- attachSessionToConnIfNotShutdown ss c ;;
                          ret (snd r)) p
  | EvDetach ss => onConn ss (detachSession ss) p
  | EvFetchKeys url =>
      match fetchPublicKeysURL E url (srv p) with
      | Panic msg => Panic msg
      | Ok (_, s') => Ok {| srv := s'; conns := conns p |}
      end
  end.

(** A run of events; a panic ends the process where it stands. *)
Fixpoint exec (E : environ) (evs : list event) (p : process) : process :=
  match evs with
  | [] => p
  | ev :: evs' =>
      match step E ev p with
      | Panic _ => p
      | Ok p' => exec E evs' p'
      end
  end.

(** ** The exit gate of a session *)

(** What the two racers share: the [sync.Once], the number of calls to
    [cmd.Process.Kill] and the text written to the session's stderr. *)
Record sessionProc := {
  exitOnce : bool;
  killCalls : nat;
  stderrText : list string
}.

(** [exitOnce.Do(f)]: [f] runs on the first call only.  The Once holds
    its mutex while [f] runs, so a call is one atomic step. *)
Definition exitOnce_Do (f : sessionProc -> sessionProc) (p : sessionProc)
    : sessionProc :=
  if exitOnce p then p
  else let p' := f p in
       {| exitOnce := true; killCalls := killCalls p';
          stderrText := stderrText p' |}.

(** [killProcessOnContextDone] once the context is done; [msg] is the
    termination message of the context's error, if it carries one. *)
Definition killProcessOnContextDone (msg : option string) (p : sessionProc)
    : sessionProc :=
  exitOnce_Do (fun p =>
    let out := match msg with
               | Some m => if String.eqb m "" then stderrText p
                           else (stderrText p
                                 ++ [(CRLF ++ CRLF ++ m ++ CRLF ++ CRLF)%string])%list
               | None => stderrText p
               end in
    {| exitOnce := exitOnce p; killCalls := S (killCalls p);
       stderrText := out |}) p.

(** The [exitOnce.Do(func() {})] of [run] after [cmd.Wait] returned. *)
Definition afterWait (p : sessionProc) : sessionProc :=
  exitOnce_Do (fun p => p) p.

Inductive racer : Type :=
| ChildExited
| ContextDone (msg : option string).

Definition raceStep (r : racer) (p : sessionProc) : sessionProc :=
  match r with
  | ChildExited => afterWait p
  | ContextDone msg => killProcessOnContextDone msg p
  end.

Definition race (schedule : list racer) (p : sessionProc) : sessionProc :=
  fold_left (fun p r => raceStep r p) schedule p.

Definition freshSession : sessionProc :=
  {| exitOnce := false; killCalls := 0; stderrText := [] |}.

(** ** Fixtures: concrete keys, rules and worlds *)

(** The rule [{"*": "="}]: every requested name maps to itself. *)
Definition sameUserForAll : gmap string string := {[ "*" := "=" ]}.

(** Scenario 1 of the specification: [{"alice": "=", "*": ""}]. *)
Definition aliceOnly : gmap string string :=
  <[ "alice" := "=" ]> {[ "*" := "" ]}.

(** A rule that maps [bob] to nobody next to a wildcard for [root]. *)
Definition bobBlocked : gmap string string :=
  <[ "bob" := "" ]> {[ "*" := "root" ]}.

(** A key whose wire form is the three bytes [abc], which is [YWJj] in
    base64, and a key whose wire form has no bytes at all. *)
Definition abcKey : PublicKey := {| Type_ := "ssh-test"; Marshal := "abc" |}.
Definition noBytesKey : PublicKey := {| Type_ := "ssh-test"; Marshal := "" |}.

(** An authorized-key entry: type, base64 field and an optional comment. *)
Definition authorizedKeyLine (ty b64 : string) (comment : option string)
    : string :=
  ty ++ " " ++ b64 ++ match comment with
                      | Some cm => " " ++ cm
                      | None => ""
                      end.

(** A world with a given policy, clock and key server; accounts exist
    for every name and every address is a Tailscale address. *)
Definition world (pol : option SSHPolicy) (clock : nat -> Time)
    (keyServer : nat -> Request -> error + Response) : environ :=
  {| ShouldRunSSH := true;
     NetMap := Some {| SelfNode_ID := Some 7%Z; nm_SSHPolicy := pol |};
     WhoIs := fun _ => None;
     SSHIgnoreTailnetPolicy := false;
     SSHPolicyFile := "";
     readPolicyFile := fun _ => None;
     timeNow := clock;
     pubKeyClient_Do := keyServer;
     NewRequest_err := fun _ => None;
     user_Lookup := fun name =>
       inr {| Uid := "1000"; Gid := "1000"; Username := name |};
     GroupIds := fun _ => inr ["1000"];
     IsTailscaleIP := fun _ => true;
     ParseAddr := fun _ => AddrZero;
     Addr_String := fun _ => "100.64.0.2";
     TrimSpace := fun s => s;
     QueryEscape := fun s => s |}.

Definition refusing : nat -> Request -> error + Response :=
  fun _ _ => inl (errorString "connection refused").

Definition answering (status : Z) (body tag : string)
    : nat -> Request -> error + Response :=
  fun _ _ => inr {| StatusCode := status; Status := pretty status;
                    Body := body; BodyErr := None; Header_Etag := tag |}.

Definition idleServer (cache : gmap string pubKeyCacheEntry) : server :=
  {| sessionWaitGroup := 0%Z; activeConns := ∅; fetchPublicKeysCache := cache;
     shutdownCalled := false; clockReads := 0; pubKeyRequests := [];
     noiseRounds := []; noiseRequests := [] |}.

(** An instant a thousand seconds after the zero time. *)
Definition noon : Time := (1000 * Second)%Z.

(** Fifty-one key lists, all fetched at the same instant [t]. *)
Definition keyURL (i : nat) : string := "https://keys.example/" ++ pretty i.

Definition crowdedCache (t : Time) : gmap string pubKeyCacheEntry :=
  list_to_map
    ((fun i => (keyURL i, {| lines := ["ssh-ed25519 AAAA"]; etag := "";
                             at_ := t |})) <$> seq 0 51).

(** One key list, fetched at instant 0 with etag [v1]. *)
Definition oldEntry : pubKeyCacheEntry :=
  {| lines := ["ssh-ed25519 AAAA"]; etag := "v1"; at_ := 0%Z |}.

Definition oneEntryCache : gmap string pubKeyCacheEntry :=
  {[ keyURL 0 := oldEntry ]}.

(** ** The reading of "a rule that may give access by a public key"

    For an identity [ci] and a clock read [t]: the rule has not expired,
    it maps the requested user to somebody, and one of its principals
    carries keys and is satisfied by the identity. *)

Definition expiredAt (t : Time) (r : SSHRule) : bool :=
  match RuleExpires r with
  | None => false
  | Some expires => Time_Before expires t
  end.

Definition identityMatches (E : environ) (ci : sshConnInfo)
    (p : SSHPrincipal) : bool :=
  Any p
  || (nonEmpty (Node p)
      && match node ci with
         | Some n => String.eqb (Node p) (StableID n)
         | None => false
         end)
  || (nonEmpty (NodeIP p)
      && bool_decide (ParseAddr E (NodeIP p) = ap_addr (src ci)))
  || (nonEmpty (UserLogin p)
      && String.eqb (LoginName (uprof ci)) (UserLogin p)).

Definition pubKeyPrincipal (E : environ) (ci : sshConnInfo)
    (p : option SSHPrincipal) : bool :=
  match p with
  | Some p => match PubKeys p with
              | [] => false
              | _ :: _ => identityMatches E ci p
              end
  | None => false
  end.

Definition pubKeyRule (E : environ) (ci : sshConnInfo) (t : Time)
    (r : option SSHRule) : bool :=
  match r with
  | Some r =>
      negb (expiredAt t r)
      && nonEmpty (mapLocalUser (SSHUsers r) (sshUser ci))
      && existsb (pubKeyPrincipal E ci) (Principals r)
  | None => false
  end.

(** No nil rule and no nil principal in the policy. *)
Definition noNilPointers (pol : SSHPolicy) : Prop :=
  Forall (fun r => match r with
                   | Some r => Forall (fun p => p <> None) (Principals r)
                   | None => False
                   end) (Rules pol).

(** Alice's connection from 100.64.0.2 to 100.64.0.1, identity set. *)
Definition ip_100_64_0 (last : ascii) : string :=
  String "100" (String "064" (String "000" (String last ""))).

Definition aliceInfo : sshConnInfo :=
  {| sshUser := "alice";
     src := {| ap_addr := Addr4 (ip_100_64_0 "002"); ap_port := 40000 |};
     dst := {| ap_addr := Addr4 (ip_100_64_0 "001"); ap_port := 22 |};
     node := Some {| ID := 42%Z; StableID := "nAlice" |};
     uprof := {| LoginName := "alice@ex.com" |} |}.

Definition aliceConn : conn := set_info "H" aliceInfo (emptyConn "ssh-conn-1").

Definition ctxFor (user : string) : sshContext :=
  {| ctx_User := user;
     RemoteAddr := TCPAddr (ip_100_64_0 "002") 40000;
     LocalAddr := TCPAddr (ip_100_64_0 "001") 22;
     SessionID := "H";
     SendAuthBanner := fun _ => None |}.

Definition acceptAction : SSHAction :=
  {| Message := ""; Reject := false; Accept := true; SessionDuration := 0%Z;
     AllowAgentForwarding := false; HoldAndDelegate := "";
     AllowLocalPortForwarding := false |}.

Definition anyoneWithKey : SSHPrincipal :=
  {| Node := ""; NodeIP := ""; UserLogin := ""; Any := true;
     PubKeys := ["ssh-test YWJj"] |}.

Definition anyone : SSHPrincipal :=
  {| Node := ""; NodeIP := ""; UserLogin := ""; Any := true; PubKeys := [] |}.

Definition policyOf (users : gmap string string) (p : SSHPrincipal)
    : SSHPolicy :=
  {| Rules := [Some {| RuleExpires := None; Principals := [Some p];
                       SSHUsers := users; Action := Some acceptAction |}] |}.

(** A key-bearing rule for everybody that maps no user at all, and one
    that maps every user to itself. *)
Definition keyRuleWithoutUsers : SSHPolicy := policyOf ∅ anyoneWithKey.
Definition keyRuleForAll : SSHPolicy := policyOf sameUserForAll anyoneWithKey.

(** [n] calls of [resolveNextAction] in a row, with their results. *)
Fixpoint resolveRepeatedly (E : environ) (n : nat) (c : conn)
    : M (list (option SSHAction * option error) * conn) :=
  match n with
  | O => ret ([], c)
  | S n' =>
      r <- resolveNextAction E c ;;
      rest <- resolveRepeatedly E n' (snd r) ;;
      ret (fst r :: fst rest, snd rest)
  end.

Definition rejectAction : SSHAction :=
  {| Message := "nope"; Reject := true; Accept := false;
     SessionDuration := 0%Z; AllowAgentForwarding := false;
     HoldAndDelegate := ""; AllowLocalPortForwarding := false |}.

Definition holdAction (url : string) : SSHAction :=
  {| Message := ""; Reject := false; Accept := false; SessionDuration := 0%Z;
     AllowAgentForwarding := false; HoldAndDelegate := url;
     AllowLocalPortForwarding := false |}.

(** A server whose control plane would still answer with an action. *)
Definition serverWithRounds (rounds : list noiseRound) : server :=
  set_noise rounds [] (idleServer ∅).

(** Scenario: everybody may log in as the user they ask for. *)
Definition openPolicy : SSHPolicy := policyOf sameUserForAll anyone.

Definition openWorld : environ :=
  world (Some openPolicy) (fun _ => noon) refusing.

(** A process with Alice's accepted connection at address 1, and a
    session for it. *)
Definition aliceAccepted : conn :=
  set_localUser {| Uid := "1000"; Gid := "1000"; Username := "alice" |}
    ["1000"] (set_finalAction (Some acceptAction)
                (set_matched acceptAction None aliceConn)).

Definition oneConnProcess : process :=
  {| srv := set_activeConns {[ 1%nat ]} (idleServer ∅);
     conns := {[ 1%nat := aliceAccepted ]} |}.

Definition shellSession : sshSession :=
  newSSHSession 10 1 "" "20221030T120000" "0a0b0c0d0e".

Definition quietOS : sessionOS :=
  {| Geteuid := 0%Z; shouldRecord := false; recordingErr := None;
     launchErr := None; waitResult := WaitOk |}.

(** An operating system on which every recording fails to start. *)
Definition brokenRecorder : sessionOS :=
  {| Geteuid := 0%Z; shouldRecord := true;
     recordingErr := Some (errorString "mkdir: permission denied");
     launchErr := None; waitResult := WaitOk |}.

Definition sftpSession : sshSession :=
  newSSHSession 11 1 "sftp" "20221030T120000" "0a0b0c0d0e".

(** The worlds of the end-to-end scenarios: a reject rule with a banner,
    a key-bearing rule, and a rule that delegates to the control plane. *)
Definition rejectWorld : environ :=
  world (Some {| Rules := [Some {| RuleExpires := None;
                                   Principals := [Some anyone];
                                   SSHUsers := ∅;
                                   Action := Some rejectAction |}] |})
        (fun _ => noon) refusing.

Definition keyWorld : environ :=
  world (Some keyRuleForAll) (fun _ => noon) refusing.

Definition delegateWorld : environ :=
  world (Some {| Rules :=
                   [Some {| RuleExpires := None;
                            Principals := [Some anyone];
                            SSHUsers := sameUserForAll;
                            Action := Some (holdAction
                                        "https://ctrl/next?u=$SSH_USER") |}] |})
        (fun _ => noon) refusing.

(** The error and the final action of a callback's result. *)
Definition verdict (r : res (option (option error * conn) * server))
    : option (option error * option SSHAction) :=
  match r with
  | Ok (Some (e, c), _) => Some (e, finalAction c)
  | _ => None
  end.

(** ** Further functions of the server *)

(** [envEq]: the file builds for linux, darwin and freebsd only, so the
    comparison is never the case-folding one of windows. *)
Definition envEq (a b : string) : bool := String.eqb a b.

(** [envValFromList]: the value of the first [key=value] entry whose key
    is [wantKey]; entries without [=] are passed over. *)
Fixpoint envValFromList (env : list string) (wantKey : string) : string :=
  match env with
  | [] => ""
  | kv :: env' =>
      let '(thisKey, v, ok) := Cut kv "=" in
      if ok && envEq thisKey wantKey then v
      else envValFromList env' wantKey
  end.

(** [isStillValid]: the policy is evaluated again with the key the
    connection was authorized with. *)
Definition isStillValid (E : environ) (c : conn) : M bool :=
  m <- evaluatePolicy E c (pubKey c) ;;
  match m with
  | inl _ => ret false
  | inr (a, localUser') =>
      if negb (Accept a) && String.eqb (HoldAndDelegate a) "" then ret false
      else match localUser c with
           | None => panic nilDeref
           | Some lu => ret (String.eqb (Username lu) localUser')
           end
  end.

Definition accessRevoked : string := "Access revoked." ++ CRLF.

(** [checkStillValid]: the sessions whose context is closed, each with
    the message shown to the user. *)
Definition checkStillValid (E : environ) (c : conn)
    : M (list (sshSession * string)) :=
  ok <- isStillValid E c ;;
  if ok : bool then ret []
  else ret (map (fun ss => (ss, accessRevoked)) (sessions c)).

(** [handleSessionPostSSHAuth]: the text written to the session's stderr,
    the report of the session and the connection.  [format] renders the
    clock read of [newSSHSession], [quote] is the [%q] verb, [rnd] the
    random part of the session identifier. *)
Definition handleSessionPostSSHAuth (E : environ) (format : Time -> string)
    (quote : string -> string) (os : sessionOS) (ptr cptr : nat)
    (subsystem rnd : string) (c : conn)
    : M (list string * sessionReport * conn) :=
  if String.eqb subsystem "sftp" || String.eqb subsystem "" then
    t <- now E ;;
    match info c, localUser c with
    | Some _, Some _ =>
        r <- run os (newSSHSession ptr cptr subsystem (format t) rnd) c ;;
        ret ([], fst r, snd r)
    | _, _ => panic nilDeref
    end
  else
    ret (["Unsupported subsystem " ++ quote subsystem ++ CRLF],
         report [] 1, c).

(** [E] with another answer of [WhoIs]. *)
Definition withWhoIs
    (f : AddrPort -> option (option TailcfgNode * UserProfile))
    (E : environ) : environ :=
  {| ShouldRunSSH := ShouldRunSSH E; NetMap := NetMap E; WhoIs := f;
     SSHIgnoreTailnetPolicy := SSHIgnoreTailnetPolicy E;
     SSHPolicyFile := SSHPolicyFile E; readPolicyFile := readPolicyFile E;
     timeNow := timeNow E; pubKeyClient_Do := pubKeyClient_Do E;
     NewRequest_err := NewRequest_err E; user_Lookup := user_Lookup E;
     GroupIds := GroupIds E; IsTailscaleIP := IsTailscaleIP E;
     ParseAddr := ParseAddr E; Addr_String := Addr_String E;
     TrimSpace := TrimSpace E; QueryEscape := QueryEscape E |}.

(** The open world in which every address is Alice's node. *)
Definition aliceEverywhere : environ :=
  withWhoIs (fun _ => Some (node aliceInfo, uprof aliceInfo)) openWorld.

(** ** Invariants of the action chain *)

(** The state [isAuthorized] walks in: [action] is the current action,
    no resolution error is stored, and the final action is [action] when
    it accepts and absent when it neither accepts nor rejects. *)
Definition chainState (action : SSHAction) (c : conn) : Prop :=
  currentAction c = Some action
  /\ finalActionErr c = None
  /\ (Accept action = true -> finalAction c = Some action)
  /\ (Accept action = false -> Reject action = false ->
      finalAction c = None).

(** A stored final action accepts or rejects. *)
Definition finalIsTerminal (c : conn) : Prop :=
  forall a, finalAction c = Some a -> Accept a || Reject a = true.

(** The rounds after which [fetchSSHAction] tries again. *)
Definition retryable (r : noiseRound) : bool :=
  match r with
  | NoiseErr _ | NoiseStatus _ _ | NoiseBadJSON _ => true
  | CtxDone _ | NoiseAction _ => false
  end.

(** Alice's connection held by the delegating rule, the server that
    answers 500 and then accepts, and both after the walk. *)
Definition aliceHeld : conn :=
  set_localUser {| Uid := "1000"; Gid := "1000"; Username := "alice" |}
    ["1000"]
    (set_matched (holdAction "https://ctrl/next?u=$SSH_USER") None aliceConn).

Definition slowControl : server :=
  serverWithRounds [NoiseStatus 500 ""; NoiseAction acceptAction].

Definition aliceResolved : conn :=
  recordResolution (Some acceptAction) None aliceHeld.

Definition slowControlDone : server :=
  set_noise [] (replicate 2 "https://ctrl/next?u=alice") slowControl.

(** [s'] is [s] after some more reads of the clock and nothing else. *)
Definition onlyClock (s s' : server) : Prop :=
  exists n, (clockReads s <= n)%nat /\ s' = set_clockReads n s.

(** ** Evaluation without a key, read at one instant

    With no key presented, a principal matches when the identity
    satisfies it and it lists no keys; a rule gives its action and the
    mapped user when it has an action, has not expired at [t], maps the
    requested user (unless it rejects) and has such a principal; the
    policy gives what its first such rule gives. *)

Definition keylessPrincipal (E : environ) (ci : sshConnInfo)
    (p : option SSHPrincipal) : bool :=
  match p with
  | Some p => identityMatches E ci p
              && match PubKeys p with [] => true | _ :: _ => false end
  | None => false
  end.

Definition ruleOutcome (E : environ) (ci : sshConnInfo) (t : Time)
    (r : option SSHRule) : error + SSHAction * string :=
  match r with
  | None => inl errNilRule
  | Some r =>
      match Action r with
      | None => inl errNilAction
      | Some a =>
          if expiredAt t r then inl errRuleExpired
          else
            let lu := if negb (Reject a)
                      then mapLocalUser (SSHUsers r) (sshUser ci) else "" in
            if negb (Reject a) && String.eqb lu "" then inl errUserMatch
            else if existsb (keylessPrincipal E ci) (Principals r)
                 then inr (a, lu)
                 else inl errPrincipalMatch
      end
  end.

Fixpoint firstOutcome (E : environ) (ci : sshConnInfo) (t : Time)
    (rules : list (option SSHRule)) : option (SSHAction * string) :=
  match rules with
  | [] => None
  | r :: rules' =>
      match ruleOutcome E ci t r with
      | inr found => Some found
      | inl _ => firstOutcome E ci t rules'
      end
  end.

(** A world whose only rule accepts everybody until just after [noon]. *)
Definition expiringWorld : environ :=
  world (Some {| Rules := [Some {| RuleExpires := Some (noon + 1)%Z;
                                   Principals := [Some anyone];
                                   SSHUsers := sameUserForAll;
                                   Action := Some acceptAction |}] |})
        (fun _ => noon) refusing.

(** A policy of three rules: one that wants a key, one that accepts
    everybody, one that rejects everybody. *)
Definition layeredPolicy : SSHPolicy :=
  {| Rules := (Rules keyRuleForAll ++ Rules openPolicy
               ++ [Some {| RuleExpires := None;
                           Principals := [Some anyone];
                           SSHUsers := ∅;
                           Action := Some rejectAction |}])%list |}.

Definition layeredWorld : environ :=
  world (Some layeredPolicy) (fun _ => noon) refusing.

(** Alice's accepted connection with her shell session running. *)
Definition aliceWithShell : conn := set_sessions [shellSession] aliceAccepted.

(** The clock reads [ruleExpired] makes when it is asked about each of
    [rules] in turn: one for every rule that carries an expiry. *)
Definition readsClock (r : option SSHRule) : nat :=
  match r with
  | Some r => match RuleExpires r with Some _ => 1 | None => 0 end
  | None => 0
  end.

Fixpoint expiryReads (rules : list (option SSHRule)) : nat :=
  match rules with
  | [] => 0
  | r :: rules' => readsClock r + expiryReads rules'
  end.

(** A clock that is ten seconds further at every read, from [noon] on. *)
Definition ticking : nat -> Time :=
  fun n => (noon + Z.of_nat n * (10 * Second))%Z.

(** A key-bearing rule for every user that expires [d] after [noon]. *)
Definition keyRuleUntil (d : Duration) : SSHPolicy :=
  {| Rules := [Some {| RuleExpires := Some (noon + d)%Z;
                       Principals := [Some anyoneWithKey];
                       SSHUsers := sameUserForAll;
                       Action := Some acceptAction |}] |}.

(** The context of [ctxFor] on a connection that cannot deliver
    banners. *)
Definition bannerBroken (user : string) : sshContext :=
  {| ctx_User := ctx_User (ctxFor user);
     SessionID := SessionID (ctxFor user);
     LocalAddr := LocalAddr (ctxFor user);
     RemoteAddr := RemoteAddr (ctxFor user);
     SendAuthBanner := fun _ => Some (errorString "connection lost") |}.

(** * Properties *)

(** ** The scenarios of the specification, run on the embedding *)

Example scenario_reject :
  verdict (NoClientAuthCallback rejectWorld 3 (ctxFor "alice") aliceConn
             (idleServer ∅))
  = Some (Some ErrDenied, Some rejectAction).
Proof. vm_compute. reflexivity. Qed.

Example scenario_public_key_required :
  verdict (NoClientAuthCallback keyWorld 3 (ctxFor "alice") aliceConn
             (idleServer ∅))
  = Some (Some errPubKeyRequired, None)
  /\ nextAuthMethodCallback aliceConn [errPubKeyRequired]
     = ["publickey"; "tailscale"]
  /\ verdict (PublicKeyHandler keyWorld 3 (ctxFor "alice") abcKey aliceConn
                (idleServer ∅))
     = Some (None, Some acceptAction).
Proof. repeat split; vm_compute; reflexivity. Qed.

Example scenario_hold_and_delegate :
  match NoClientAuthCallback delegateWorld 5 (ctxFor "alice") aliceConn
          (serverWithRounds [NoiseStatus 500 ""; NoiseStatus 500 "";
                             NoiseAction acceptAction]) with
  | Ok (Some (e, c), s) =>
      e = None /\ finalAction c = Some acceptAction
      /\ noiseRequests s = replicate 3 "https://ctrl/next?u=alice"
  | _ => False
  end.
Proof. vm_compute. repeat split. Qed.

(** ** Text helpers *)

Lemma Cut_found (a b : string) (sep : ascii) :
  Contains a sep = false -> Cut (a ++ String sep b) sep = (a, b, true).
Proof.
  induction a as [|x a IH]; simpl; intros H.
  - now rewrite Ascii.eqb_refl.
  - apply orb_false_iff in H as [Hx Ha]. rewrite Hx, (IH Ha). reflexivity.
Qed.

Lemma Cut_not_found (a : string) (sep : ascii) :
  Contains a sep = false -> Cut a sep = (a, "", false).
Proof.
  induction a as [|x a IH]; simpl; intros H; [reflexivity|].
  apply orb_false_iff in H as [Hx Ha]. rewrite Hx, (IH Ha). reflexivity.
Qed.

Lemma string_eqb_false (a b : string) : a <> b -> String.eqb a b = false.
Proof. intros H. now apply String.eqb_neq. Qed.

(** ** [mapLocalUser] *)

(** C2: [mapLocalUser] looks the requested name up and falls back to
    the ["*"] key when it is missing; the value found, from either key,
    stands for the requested name when it is ["="] and for itself
    otherwise, so that an empty value gives no user; with the name
    missing the result is what the ["*"] entry gives, and with both keys
    missing it is empty.  The result is a function of the name and of
    these two entries alone: it is the same for any map that agrees on
    them, and so the same at every call on the same inputs. *)
Theorem mapLocalUser_cases (m : gmap string string) (r : string) :
  (forall v, m !! r = Some v -> v = "=" -> mapLocalUser m r = r)
  /\ (forall v, m !! r = Some v -> v <> "=" -> mapLocalUser m r = v)
  /\ (forall w, m !! r = None -> m !! "*" = Some w -> w = "=" ->
        mapLocalUser m r = r)
  /\ (forall w, m !! r = None -> m !! "*" = Some w -> w <> "=" ->
        mapLocalUser m r = w)
  /\ (m !! r = None -> m !! "*" = None -> mapLocalUser m r = "")
  /\ (forall m' : gmap string string,
        m' !! r = m !! r -> m' !! "*" = m !! "*" ->
        mapLocalUser m' r = mapLocalUser m r).
Proof.
  unfold mapLocalUser. repeat split.
  - intros v -> ->. reflexivity.
  - intros v -> Hv. now rewrite string_eqb_false.
  - intros w -> -> ->. reflexivity.
  - intros w -> -> Hw. simpl. now rewrite string_eqb_false.
  - intros -> ->. reflexivity.
  - intros m' -> ->. reflexivity.
Qed.

Lemma mapLocalUser_cases_witness :
  mapLocalUser aliceOnly "alice" = "alice"
  /\ mapLocalUser bobBlocked "bob" = ""
  /\ mapLocalUser sameUserForAll "alice" = "alice"
  /\ mapLocalUser bobBlocked "carol" = "root"
  /\ mapLocalUser (∅ : gmap string string) "carol" = ""
  /\ mapLocalUser (<[ "dave" := "games" ]> bobBlocked) "carol"
     = mapLocalUser bobBlocked "carol".
Proof.
  split; [|split; [|split; [|split; [|split]]]].
  - apply (proj1 (mapLocalUser_cases aliceOnly "alice") "=");
      vm_compute; reflexivity.
  - apply (proj1 (proj2 (mapLocalUser_cases bobBlocked "bob")) "");
      vm_compute; congruence.
  - apply (proj1 (proj2 (proj2 (mapLocalUser_cases sameUserForAll "alice"))) "=");
      vm_compute; reflexivity.
  - apply (proj1 (proj2 (proj2 (proj2 (mapLocalUser_cases bobBlocked "carol")))) "root");
      vm_compute; congruence.
  - apply (proj1 (proj2 (proj2 (proj2 (proj2 (mapLocalUser_cases ∅ "carol"))))));
      vm_compute; reflexivity.
  - apply (proj2 (proj2 (proj2 (proj2 (proj2
             (mapLocalUser_cases bobBlocked "carol"))))));
      vm_compute; reflexivity.
Defined.

(** C10: a requested name that is present with an empty value maps to
    nobody; whatever the value of a present key, the ["*"] entry plays no
    part in the result. *)
Theorem mapLocalUser_present_key_shadows_wildcard
    (m : gmap string string) (r v : string) :
  m !! r = Some v ->
  mapLocalUser m r = (if String.eqb v "=" then r else v)
  /\ (v = "" -> mapLocalUser m r = "")
  /\ (forall w, r <> "*" ->
        mapLocalUser (<[ "*" := w ]> m) r = mapLocalUser m r)
  /\ (r <> "*" -> mapLocalUser (delete "*" m) r = mapLocalUser m r).
Proof.
  intros H. unfold mapLocalUser. repeat split.
  - now rewrite H.
  - intros ->. now rewrite H.
  - intros w Hr. rewrite lookup_insert_ne by congruence. now rewrite H.
  - intros Hr. rewrite lookup_delete_ne by congruence. now rewrite H.
Qed.

Lemma mapLocalUser_present_key_shadows_wildcard_witness :
  mapLocalUser bobBlocked "bob" = "".
Proof.
  refine (proj1 (proj2
    (mapLocalUser_present_key_shadows_wildcard bobBlocked "bob" "" _)) _);
    vm_compute; reflexivity.
Defined.

(** ** [pubKeyMatchesAuthorizedKey] *)

Lemma string_app_empty (s : string) : s ++ "" = s.
Proof.
  induction s as [|c s IH]; [reflexivity|].
  change (String c (s ++ "") = String c s). now rewrite IH.
Qed.

Lemma string_length_pos (s : string) :
  (0 <? String.length s)%nat = true <-> s <> "".
Proof.
  destruct s; simpl; split; intros H; try congruence; try reflexivity.
  discriminate.
Qed.

Lemma Cut_second_field (b64 : string) (comment : option string) :
  Contains b64 " " = false ->
  fst (fst (Cut (b64 ++ match comment with
                        | Some cm => " " ++ cm
                        | None => ""
                        end) " ")) = b64.
Proof.
  intros H. destruct comment as [cm|].
  - change (b64 ++ " " ++ cm) with (b64 ++ String " " cm).
    now rewrite Cut_found.
  - now rewrite string_app_empty, Cut_not_found.
Qed.

(** What the code makes of any second field: the bytes the decoder
    yields for it (all of them for valid base64, those before the first
    error otherwise, since the decoding error is discarded) have to be
    there and to be the key's wire form. *)
Lemma pubKeyMatchesAuthorizedKey_decoded
    (key : PublicKey) (ty b64 : string) (comment : option string) :
  Contains ty " " = false ->
  Contains b64 " " = false ->
  pubKeyMatchesAuthorizedKey key (authorizedKeyLine ty b64 comment) = true
  <-> Type_ key = ty
      /\ fst (Base64.DecodeString b64) = Marshal key
      /\ Marshal key <> "".
Proof.
  intros Hty Hb64. unfold pubKeyMatchesAuthorizedKey, authorizedKeyLine.
  change (ty ++ " " ++ ?r) with (ty ++ String " " r).
  rewrite Cut_found by assumption. simpl negb.
  pose proof (Cut_second_field b64 comment Hb64) as Hcut.
  destruct (Cut _ " ") as [[field after] found]. simpl in Hcut. subst field.
  destruct (Base64.DecodeString b64) as [data ok]. simpl fst.
  destruct (String.eqb_spec (Type_ key) ty) as [Heq|Hne]; simpl.
  - rewrite andb_true_iff, string_length_pos, String.eqb_eq.
    split.
    + intros [Hd Hm]. subst data. auto.
    + intros (_ & Hd & Hm). subst data. auto.
  - split; [discriminate | intros [H _]; contradiction].
Qed.

(** Outside the entries of that form: a second field that is not base64
    ([YWJj!]) matches the key with wire form [abc], by the bytes decoded
    before the error; an empty second field matches nothing, not even a
    key without bytes. *)
Example pubKeyMatchesAuthorizedKey_malformed_field :
  (Base64.DecodeString "YWJj!" = ("abc", false)
   /\ pubKeyMatchesAuthorizedKey abcKey
        (authorizedKeyLine "ssh-test" "YWJj!" None) = true)
  /\ (Type_ noBytesKey = "ssh-test"
      /\ Base64.DecodeString "" = (Marshal noBytesKey, true)
      /\ pubKeyMatchesAuthorizedKey noBytesKey
           (authorizedKeyLine "ssh-test" "" None) = false).
Proof. repeat split; vm_compute; reflexivity. Qed.

(** C3: for an entry [<type> <base64> [comment]], whose second field is
    base64 (it decodes to [data] without error), and a key with a wire
    form (that of an SSH key is never empty: it starts with the name of
    its algorithm), the key matches exactly when its type is the entry's
    type token and the decoding of the second field is its wire form;
    whatever follows the second field plays no part. *)
Theorem pubKeyMatchesAuthorizedKey_iff
    (key : PublicKey) (ty b64 data : string) (comment : option string) :
  Contains ty " " = false ->
  Contains b64 " " = false ->
  Base64.DecodeString b64 = (data, true) ->
  Marshal key <> "" ->
  (pubKeyMatchesAuthorizedKey key (authorizedKeyLine ty b64 comment) = true
   <-> Type_ key = ty /\ data = Marshal key)
  /\ pubKeyMatchesAuthorizedKey key (authorizedKeyLine ty b64 comment)
     = pubKeyMatchesAuthorizedKey key (authorizedKeyLine ty b64 None).
Proof.
  intros Hty Hb64 Hdec Hkey. split.
  - rewrite (pubKeyMatchesAuthorizedKey_decoded key ty b64 comment Hty Hb64).
    rewrite Hdec. simpl. tauto.
  - pose proof (pubKeyMatchesAuthorizedKey_decoded key ty b64 comment Hty Hb64)
      as H1.
    pose proof (pubKeyMatchesAuthorizedKey_decoded key ty b64 None Hty Hb64)
      as H2.
    destruct (pubKeyMatchesAuthorizedKey key (authorizedKeyLine ty b64 comment)),
      (pubKeyMatchesAuthorizedKey key (authorizedKeyLine ty b64 None));
      try reflexivity.
    + symmetry. apply H2, H1. reflexivity.
    + apply H1, H2. reflexivity.
Qed.

Lemma pubKeyMatchesAuthorizedKey_iff_witness :
  pubKeyMatchesAuthorizedKey abcKey
    (authorizedKeyLine "ssh-test" "YWJj" (Some "alice@laptop")) = true.
Proof.
  apply (proj1 (pubKeyMatchesAuthorizedKey_iff abcKey "ssh-test" "YWJj" "abc"
                  (Some "alice@laptop") eq_refl eq_refl eq_refl
                  ltac:(discriminate))).
  split; reflexivity.
Defined.

(** ** The public-key cache *)

Ltac unfold_monad := unfold bind, ret, get, modify, panic.

Lemma pruneCache_small (E : environ) (s : server) :
  (size (fetchPublicKeysCache s) <= 50)%nat -> pruneCache E s = Ok (tt, s).
Proof.
  intros H. unfold pruneCache. unfold_monad.
  destruct (Nat.ltb_spec 50 (size (fetchPublicKeysCache s))); [lia|reflexivity].
Qed.

(** What the clean-up keeps when it runs: the entries stamped no earlier
    than ten minutes after the clock read. *)
Lemma pruneCache_crowded (E : environ) (s : server) :
  (50 < size (fetchPublicKeysCache s))%nat ->
  exists s', pruneCache E s = Ok (tt, s')
    /\ forall k ce,
         fetchPublicKeysCache s' !! k = Some ce
         <-> fetchPublicKeysCache s !! k = Some ce
             /\ (timeNow E (clockReads s) + 10 * Minute <= at_ ce)%Z.
Proof.
  intros H. unfold pruneCache. unfold_monad.
  destruct (Nat.ltb_spec 50 (size (fetchPublicKeysCache s))); [|lia].
  eexists. split; [reflexivity|]. intros k ce. simpl.
  rewrite map_lookup_filter_Some. simpl.
  unfold Time_Before, Time_Add, pubKeyCacheDuration.
  rewrite Z.ltb_ge. split; intros [? ?]; split; auto; lia.
Qed.

Lemma fetchPublicKeysURLCached_small (E : environ) (url : string)
    (s : server) (ce : pubKeyCacheEntry) :
  (size (fetchPublicKeysCache s) <= 50)%nat ->
  fetchPublicKeysCache s !! url = Some ce ->
  fetchPublicKeysURLCached E url s =
    Ok ((ce, (Time_Sub (timeNow E (clockReads s)) (at_ ce)
              <? match lines ce with
                 | [] => pubKeyCacheEmptyDuration
                 | _ => pubKeyCacheDuration
                 end)%Z),
        set_clockReads (S (clockReads s)) s).
Proof.
  intros Hsize Hce. unfold fetchPublicKeysURLCached.
  unfold bind at 1. rewrite pruneCache_small by assumption.
  unfold_monad. rewrite Hce. reflexivity.
Qed.

(** C5 fails on the code: with 51 key lists in the cache, all of them
    fetched at the very instant of the read, the clean-up empties the
    cache and the list asked for is reported missing.  The bound is
    computed as the clock read plus ten minutes, not minus. *)
Theorem pruneCache_drops_fresh_entries :
  size (crowdedCache noon) = 51%nat
  /\ crowdedCache noon !! keyURL 0
     = Some {| lines := ["ssh-ed25519 AAAA"]; etag := ""; at_ := noon |}
  /\ match fetchPublicKeysURLCached (world None (fun _ => noon) refusing)
             (keyURL 0) (idleServer (crowdedCache noon)) with
     | Ok ((ce, ok), s') =>
         ce = zeroEntry /\ ok = false /\ size (fetchPublicKeysCache s') = 0%nat
     | Panic _ => False
     end.
Proof.
  split; [vm_compute; reflexivity|].
  split; [vm_compute; reflexivity|].
  vm_compute. repeat split.
Qed.

(** C4, as the specification words it, fails: the list cached for a URL
    is stale, the server answers 500, and the fetch returns an error but
    also replaces the entry by an empty one stamped with the clock read. *)
Lemma fetchPublicKeysURL_status_counterexample :
  fetchPublicKeysCache (idleServer oneEntryCache) !! keyURL 0 = Some oldEntry
  /\ match fetchPublicKeysURL
             (world None (fun _ => noon) (answering 500 "" ""))
             (keyURL 0) (idleServer oneEntryCache) with
     | Ok ((_, err), s') =>
         err = Some (errorString "unexpected status 500")
         /\ fetchPublicKeysCache s' !! keyURL 0
            = Some {| lines := []; etag := ""; at_ := noon |}
         /\ fetchPublicKeysCache s' !! keyURL 0 <> Some oldEntry
     | Panic _ => False
     end.
Proof.
  split; [vm_compute; reflexivity|].
  vm_compute. repeat split. discriminate.
Qed.

(** C4 (amended): for a URL whose cached list is stale, in a cache of at
    most 50 entries, one request is sent, with the cached etag if there
    is one.  A transport error returns the error and leaves the cache as
    it was.  A 304 returns the cached lines, keeps lines and etag and
    stamps the entry with the clock read.  A 200 replaces lines, etag and
    stamp: the lines are those of the first 4096 bytes of the body,
    trimmed and split at line feeds (none when that text is empty), the
    etag is the reply's, and an error met while reading the body is
    returned together with the lines read, which are stored all the
    same.  Any other status returns an error naming the status and
    replaces the entry by one without lines and etag, stamped with the
    clock read. *)
Theorem fetchPublicKeysURL_outcomes (E : environ) (url : string)
    (s s1 : server) (ce : pubKeyCacheEntry) :
  HasPrefix url "https://" = true ->
  (size (fetchPublicKeysCache s) <= 50)%nat ->
  fetchPublicKeysCache s !! url = Some ce ->
  fetchPublicKeysURLCached E url s = Ok ((ce, false), s1) ->
  NewRequest_err E url = None ->
  let req := {| req_url := url;
                IfNoneMatch := if String.eqb (etag ce) "" then None
                               else Some (etag ce) |} in
  exists (result : list string * option error) (s' : server),
    fetchPublicKeysURL E url s = Ok (result, s')
    /\ pubKeyRequests s' = (pubKeyRequests s ++ [req])%list
    /\ match pubKeyClient_Do E (length (pubKeyRequests s)) req with
       | inl err =>
           result = ([], Some err)
           /\ fetchPublicKeysCache s' = fetchPublicKeysCache s
       | inr r =>
           let stored (l : list string) (tag : string) :=
             <[ url := {| lines := l; etag := tag;
                          at_ := timeNow E (S (clockReads s)) |} ]>
               (fetchPublicKeysCache s) in
           if (StatusCode r =? 304)%Z then
             result = (lines ce, None)
             /\ fetchPublicKeysCache s' = stored (lines ce) (etag ce)
           else if (StatusCode r =? 200)%Z then
             let text := TrimSpace E (String.substring 0 4096 (Body r)) in
             let fresh := if String.eqb text "" then []
                          else Split text "010"%char in
             result = (fresh,
                       if (String.length (Body r) <? 4096)%nat
                       then BodyErr r else None)
             /\ fetchPublicKeysCache s' = stored fresh (Header_Etag r)
           else
             result = ([], Some (errorString
                                   ("unexpected status " ++ Status r)))
             /\ fetchPublicKeysCache s' = stored [] ""
       end.
Proof.
  intros Hpre Hsize Hce Hread Hreq req.
  rewrite (fetchPublicKeysURLCached_small E url s ce Hsize Hce) in Hread.
  injection Hread as Hstale Hs1.
  unfold fetchPublicKeysURL. rewrite Hpre. cbn [negb].
  unfold bind at 1.
  rewrite (fetchPublicKeysURLCached_small E url s ce Hsize Hce), Hstale.
  rewrite Hreq. unfold_monad. simpl. fold req.
  destruct (pubKeyClient_Do E _ req) as [err|r].
  - eexists _, _. split; [reflexivity|]. repeat split.
  - unfold interpretResponse, readLimited, StatusNotModified, StatusOK.
    destruct (StatusCode r =? 304)%Z.
    + eexists _, _. split; [reflexivity|]. repeat split.
    + destruct (StatusCode r =? 200)%Z.
      * eexists _, _. split; [reflexivity|]. repeat split.
      * eexists _, _. split; [reflexivity|]. repeat split.
Qed.

Lemma fetchPublicKeysURL_outcomes_witness :
  exists (result : list string * option error) (s' : server),
    fetchPublicKeysURL
      (world None (fun _ => noon) (answering 200 "ssh-test YWJj" "v2"))
      (keyURL 0) (idleServer oneEntryCache) = Ok (result, s')
    /\ result = (["ssh-test YWJj"], None)
    /\ fetchPublicKeysCache s'
       = <[ keyURL 0 := {| lines := ["ssh-test YWJj"]; etag := "v2";
                           at_ := noon |} ]> oneEntryCache.
Proof.
  destruct (fetchPublicKeysURL_outcomes
              (world None (fun _ => noon) (answering 200 "ssh-test YWJj" "v2"))
              (keyURL 0) (idleServer oneEntryCache)
              (set_clockReads 1 (idleServer oneEntryCache)) oldEntry)
    as (result & s' & Hrun & _ & Hres);
    [reflexivity | vm_compute; lia | vm_compute; reflexivity
    | vm_compute; reflexivity | reflexivity |].
  exists result, s'. split; [exact Hrun|]. exact Hres.
Defined.

(** ** [doPolicyAuth] without a key and without a match *)

Lemma principalMatchesTailscaleIdentity_info (E : environ) (c : conn)
    (ci : sshConnInfo) (p : SSHPrincipal) (s : server) :
  info c = Some ci ->
  principalMatchesTailscaleIdentity E c p s = Ok (identityMatches E ci p, s).
Proof.
  intros Hci. unfold principalMatchesTailscaleIdentity, identityMatches.
  rewrite Hci. unfold_monad.
  destruct (Any p); [reflexivity|]. simpl.
  destruct (nonEmpty (Node p) && _); [reflexivity|]. simpl.
  destruct (nonEmpty (NodeIP p) && _); reflexivity.
Qed.

Lemma ruleExpired_steady (E : environ) (t : Time) (r : SSHRule) (s : server) :
  (forall n, timeNow E n = t) ->
  exists s', ruleExpired E r s = Ok (expiredAt t r, s').
Proof.
  intros Hclock. unfold ruleExpired, expiredAt.
  destruct (RuleExpires r) as [expires|]; unfold_monad; unfold now.
  - rewrite Hclock. eauto.
  - eauto.
Qed.

Lemma anyPubKeyPrincipal_spec (E : environ) (c : conn) (ci : sshConnInfo)
    (ps : list (option SSHPrincipal)) (s : server) :
  info c = Some ci ->
  Forall (fun p => p <> None) ps ->
  anyPubKeyPrincipal E c ps s = Ok (existsb (pubKeyPrincipal E ci) ps, s).
Proof.
  intros Hci Hps. induction Hps as [|p ps Hp _ IH]; [reflexivity|].
  destruct p as [p|]; [clear Hp | congruence]. simpl.
  destruct (PubKeys p) as [|k ks]; [exact IH|].
  unfold bind. rewrite (principalMatchesTailscaleIdentity_info E c ci p s Hci).
  destruct (identityMatches E ci p); [reflexivity | exact IH].
Qed.

(** C1, as the specification words it, fails: the policy holds a rule
    whose principal is satisfied by the identity and carries keys, no rule
    matches without a key, and yet the answer is a denial, because the
    rule maps the requested user to nobody. *)
Lemma doPolicyAuth_pubkey_counterexample :
  In (Some anyoneWithKey)
     match Rules keyRuleWithoutUsers with
     | [Some r] => Principals r
     | _ => []
     end
  /\ PubKeys anyoneWithKey <> []
  /\ principalMatchesTailscaleIdentity
       (world (Some keyRuleWithoutUsers) (fun _ => noon) refusing)
       aliceConn anyoneWithKey (idleServer ∅)
     = Ok (true, idleServer ∅)
  /\ match evaluatePolicy
             (world (Some keyRuleWithoutUsers) (fun _ => noon) refusing)
             aliceConn None (idleServer ∅) with
     | Ok (inl _, _) => True
     | _ => False
     end
  /\ match doPolicyAuth
             (world (Some keyRuleWithoutUsers) (fun _ => noon) refusing)
             (ctxFor "alice") None aliceConn (idleServer ∅) with
     | Ok ((Some e, _), _) => e <> errPubKeyRequired /\ isDenied e = true
     | _ => False
     end.
Proof.
  split; [vm_compute; auto|].
  split; [discriminate|].
  split; [vm_compute; reflexivity|].
  split; [vm_compute; exact I|].
  vm_compute. split; [discriminate | reflexivity].
Qed.

Lemma ruleExpired_run (E : environ) (r : SSHRule) (s : server) :
  exists s',
    ruleExpired E r s = Ok (expiredAt (timeNow E (clockReads s)) r, s')
    /\ clockReads s' = (clockReads s + readsClock (Some r))%nat.
Proof.
  unfold ruleExpired, expiredAt, readsClock.
  destruct (RuleExpires r) as [expires|]; unfold_monad; unfold now.
  - eexists. split; [reflexivity|]. simpl. lia.
  - eexists. split; [reflexivity|]. lia.
Qed.

(** One turn of the loop of [havePubKeyPolicy]: the rule is judged at
    the clock read made for it. *)
Lemma havePubKeyPolicy_rules_step (E : environ) (c : conn) (ci : sshConnInfo)
    (r : SSHRule) (rules : list (option SSHRule)) (s : server) :
  info c = Some ci ->
  Forall (fun p => p <> None) (Principals r) ->
  exists s1,
    clockReads s1 = (clockReads s + readsClock (Some r))%nat
    /\ havePubKeyPolicy_rules E c ci (Some r :: rules) s
       = if pubKeyRule E ci (timeNow E (clockReads s)) (Some r)
         then Ok (true, s1)
         else havePubKeyPolicy_rules E c ci rules s1.
Proof.
  intros Hci Hps. destruct (ruleExpired_run E r s) as (s1 & Hexp & Hreads).
  exists s1. split; [exact Hreads|].
  cbn [havePubKeyPolicy_rules pubKeyRule]. unfold bind at 1. rewrite Hexp.
  destruct (expiredAt (timeNow E (clockReads s)) r); simpl; [reflexivity|].
  unfold nonEmpty.
  destruct (String.eqb (mapLocalUser (SSHUsers r) (sshUser ci)) "");
    simpl; [reflexivity|].
  unfold bind. rewrite (anyPubKeyPrincipal_spec E c ci _ s1 Hci Hps).
  destruct (existsb (pubKeyPrincipal E ci) (Principals r)); reflexivity.
Qed.

(** The loop of [havePubKeyPolicy] from a state [s]: it answers true
    exactly when some rule qualifies at the read made for it, which is
    the read number [clockReads s] plus one for each earlier rule that
    carries an expiry. *)
Lemma havePubKeyPolicy_rules_run (E : environ) (c : conn) (ci : sshConnInfo)
    (rules : list (option SSHRule)) :
  info c = Some ci ->
  Forall (fun r => match r with
                   | Some r => Forall (fun p => p <> None) (Principals r)
                   | None => False
                   end) rules ->
  forall s, exists (b : bool) (s' : server),
    havePubKeyPolicy_rules E c ci rules s = Ok (b, s')
    /\ (b = true
        <-> exists pre r post,
              rules = (pre ++ r :: post)%list
              /\ pubKeyRule E ci
                   (timeNow E (clockReads s + expiryReads pre)) r = true).
Proof.
  intros Hci Hrules.
  induction Hrules as [|r0 rules Hr0 _ IH]; intros s.
  - exists false, s. split; [reflexivity|]. split; [discriminate|].
    intros (pre & r & post & Hsplit & _).
    destruct pre; discriminate.
  - destruct r0 as [r0|]; [|contradiction].
    destruct (havePubKeyPolicy_rules_step E c ci r0 rules s Hci Hr0)
      as (s1 & Hreads & Hstep).
    rewrite Hstep.
    destruct (pubKeyRule E ci (timeNow E (clockReads s)) (Some r0)) eqn:Hq.
    + exists true, s1. split; [reflexivity|]. split; [|reflexivity].
      intros _. exists [], (Some r0), rules. split; [reflexivity|].
      simpl expiryReads. now rewrite Nat.add_0_r.
    + destruct (IH s1) as (b & s' & Hrun & Hiff).
      exists b, s'. split; [exact Hrun|]. rewrite Hiff. split.
      * intros (pre & r & post & -> & Hr).
        exists (Some r0 :: pre), r, post. split; [reflexivity|].
        cbn [expiryReads]. rewrite Nat.add_assoc, <- Hreads. exact Hr.
      * intros (pre & r & post & Hsplit & Hr).
        destruct pre as [|x pre].
        -- simpl in Hsplit. injection Hsplit as <- _.
           simpl expiryReads in Hr. rewrite Nat.add_0_r in Hr. congruence.
        -- simpl in Hsplit. injection Hsplit as <- ->.
           exists pre, r, post. split; [reflexivity|].
           cbn [expiryReads] in Hr. rewrite Nat.add_assoc, <- Hreads in Hr.
           exact Hr.
Qed.

Lemma pubKeyRule_spec (E : environ) (ci : sshConnInfo) (t : Time)
    (r : option SSHRule) :
  pubKeyRule E ci t r = true
  <-> exists r0 p,
        r = Some r0 /\ In (Some p) (Principals r0)
        /\ expiredAt t r0 = false
        /\ mapLocalUser (SSHUsers r0) (sshUser ci) <> ""
        /\ PubKeys p <> []
        /\ identityMatches E ci p = true.
Proof.
  split.
  - destruct r as [r|]; [|discriminate]. simpl. intros Hr.
    apply andb_true_iff in Hr as [Hr Hps].
    apply andb_true_iff in Hr as [Hexp Huser].
    apply existsb_exists in Hps as ([p|] & Hp & Hkey); [|discriminate].
    simpl in Hkey. exists r, p. repeat split; auto.
    + now apply negb_true_iff.
    + unfold nonEmpty in Huser. apply negb_true_iff in Huser.
      now apply String.eqb_neq.
    + destruct (PubKeys p); [discriminate | congruence].
    + destruct (PubKeys p); [discriminate | assumption].
  - intros (r0 & p & -> & Hp & Hexp & Huser & Hkeys & Hid). simpl.
    rewrite Hexp. unfold nonEmpty. rewrite string_eqb_false by assumption.
    simpl. apply existsb_exists. exists (Some p). split; [assumption|].
    simpl. destruct (PubKeys p); [congruence | assumption].
Qed.

(** C1 (amended): with the identity set, a policy without nil rules and
    principals, and no rule matching without a key, [doPolicyAuth] returns
    the "public-key required" sentinel exactly when some rule maps the
    requested user to somebody, has a principal that carries keys and is
    satisfied by the identity, and has not expired at the clock read
    [havePubKeyPolicy] makes for it; otherwise it returns a denial.  The
    clock is any clock: [s1] is the server after [evaluatePolicy], and
    the read for a rule comes after one read for each earlier rule that
    carries an expiry.  The connection is left as it was. *)
Theorem doPolicyAuth_pubkey_required (E : environ) (ctx : sshContext)
    (c : conn) (ci : sshConnInfo) (pol : SSHPolicy)
    (s s1 : server) (err : error) :
  info c = Some ci ->
  sshPolicy E = Some pol ->
  noNilPointers pol ->
  evaluatePolicy E c None s = Ok (inl err, s1) ->
  exists (e : error) (s' : server),
    doPolicyAuth E ctx None c s = Ok ((Some e, c), s')
    /\ (e = errPubKeyRequired
        <-> exists pre r post p,
              Rules pol = (pre ++ Some r :: post)%list
              /\ In (Some p) (Principals r)
              /\ expiredAt (timeNow E (clockReads s1 + expiryReads pre)) r
                 = false
              /\ mapLocalUser (SSHUsers r) (sshUser ci) <> ""
              /\ PubKeys p <> []
              /\ identityMatches E ci p = true)
    /\ (e <> errPubKeyRequired -> isDenied e = true).
Proof.
  intros Hci Hpol Hnil Heval.
  destruct (havePubKeyPolicy_rules_run E c ci (Rules pol) Hci Hnil s1)
    as (b & s2 & Hhave & Hiff).
  assert (Hspec : b = true
                  <-> exists pre r post p,
                        Rules pol = (pre ++ Some r :: post)%list
                        /\ In (Some p) (Principals r)
                        /\ expiredAt
                             (timeNow E (clockReads s1 + expiryReads pre)) r
                           = false
                        /\ mapLocalUser (SSHUsers r) (sshUser ci) <> ""
                        /\ PubKeys p <> []
                        /\ identityMatches E ci p = true).
  { rewrite Hiff. split.
    - intros (pre & r & post & Hsplit & Hr).
      apply pubKeyRule_spec in Hr as (r0 & p & -> & Hr).
      exists pre, r0, post, p. split; assumption.
    - intros (pre & r & post & p & Hsplit & Hr).
      exists pre, (Some r), post. split; [assumption|].
      apply pubKeyRule_spec. exists r, p. split; [reflexivity | assumption]. }
  unfold doPolicyAuth, setInfo. rewrite Hci.
  unfold bind at 1. rewrite Heval.
  unfold bind at 1. unfold havePubKeyPolicy. rewrite Hci, Hpol, Hhave.
  destruct b; unfold ret.
  - exists errPubKeyRequired, s2. split; [reflexivity|].
    split; [|congruence]. split; [intros _; now apply Hspec | reflexivity].
  - eexists _, s2. split; [reflexivity|]. split; [|reflexivity].
    split; [discriminate|]. intros H. apply Hspec in H. discriminate.
Qed.

Lemma doPolicyAuth_pubkey_required_witness :
  exists s' : server,
    doPolicyAuth (world (Some (keyRuleUntil (15 * Second)%Z)) ticking refusing)
      (ctxFor "alice") None aliceConn (idleServer ∅)
    = Ok ((Some errPubKeyRequired, aliceConn), s').
Proof.
  destruct (doPolicyAuth_pubkey_required
              (world (Some (keyRuleUntil (15 * Second)%Z)) ticking refusing)
              (ctxFor "alice") aliceConn aliceInfo
              (keyRuleUntil (15 * Second)%Z)
              (idleServer ∅) (set_clockReads 1 (idleServer ∅))
              (errorString "tailssh: rejecting connection; no matching policy"))
    as (e & s' & Hrun & Hiff & _).
  - reflexivity.
  - reflexivity.
  - repeat constructor; discriminate.
  - vm_compute. reflexivity.
  - assert (He : e = errPubKeyRequired).
    { apply Hiff. eexists [], _, [], anyoneWithKey.
      split; [reflexivity|]. split; [left; reflexivity|].
      repeat split; vm_compute; congruence. }
    exists s'. rewrite Hrun, He. reflexivity.
Defined.

(** The same rule expiring five seconds after [noon]: it is in force at
    the read of [evaluatePolicy] and has expired at the read of
    [havePubKeyPolicy] ten seconds later, so the answer is a denial. *)
Example doPolicyAuth_rule_expires_between_reads :
  match doPolicyAuth
          (world (Some (keyRuleUntil (5 * Second)%Z)) ticking refusing)
          (ctxFor "alice") None aliceConn (idleServer ∅) with
  | Ok ((Some e, _), s') =>
      e <> errPubKeyRequired /\ isDenied e = true /\ clockReads s' = 2%nat
  | _ => False
  end.
Proof. vm_compute. repeat split. discriminate. Qed.

(** ** [resolveNextAction] after the end of the chain *)

Lemma resolveNextAction_settled (E : environ) (c : conn) (s : server) :
  finalAction c <> None \/ finalActionErr c <> None ->
  resolveNextAction E c s = Ok ((finalAction c, finalActionErr c, c), s).
Proof.
  intros H. unfold resolveNextAction.
  destruct (finalAction c) as [a|], (finalActionErr c) as [e|];
    try reflexivity.
  destruct H; congruence.
Qed.

(** A terminal action returned by a call that had nothing stored is
    stored by that call, without an error. *)
Lemma resolveNextAction_stores_terminal (E : environ) (c c' : conn)
    (s s' : server) (a : SSHAction) (err : option error) :
  finalAction c = None ->
  finalActionErr c = None ->
  resolveNextAction E c s = Ok ((Some a, err, c'), s') ->
  Accept a || Reject a = true ->
  err = None /\ finalAction c' = Some a /\ finalActionErr c' = None.
Proof.
  intros Hfa Hfe Hrun Hterm. unfold resolveNextAction in Hrun.
  rewrite Hfa, Hfe in Hrun.
  destruct (currentAction c) as [action|]; [|discriminate].
  destruct (Accept action || Reject action) eqn:Haction.
  - unfold ret in Hrun. injection Hrun as -> <- <- _.
    unfold recordResolution. rewrite Haction. auto.
  - destruct (String.eqb (HoldAndDelegate action) ""); [discriminate|].
    unfold bind in Hrun.
    destruct (expandDelegateURLLocked E c _ s) as [[url s1]|]; [|discriminate].
    destruct (fetchSSHAction E url s1) as [[[e|next] s2]|]; try discriminate.
    unfold ret in Hrun. injection Hrun as -> <- <- _.
    unfold recordResolution. rewrite Hterm. auto.
Qed.

Lemma resolveRepeatedly_settled (E : environ) (c : conn) (s : server)
    (n : nat) :
  finalAction c <> None \/ finalActionErr c <> None ->
  resolveRepeatedly E n c s
  = Ok ((replicate n (finalAction c, finalActionErr c), c), s).
Proof.
  intros H. induction n as [|n IH]; [reflexivity|].
  simpl. unfold bind at 1. rewrite (resolveNextAction_settled E c s H).
  simpl. unfold bind at 1. rewrite IH. reflexivity.
Qed.

(** C6: once a final action (or a resolution error) is stored, whoever
    stored it, every further call of [resolveNextAction] returns that
    action and that error, and leaves the connection and the server as
    they were: no delegation request is sent and no answer of the control
    plane is consumed.  A call that reaches a terminal action stores it,
    so the calls after it return it in the same way. *)
Theorem resolveNextAction_idempotent (E : environ) (c : conn) (s : server)
    (n : nat) :
  (finalAction c <> None \/ finalActionErr c <> None ->
   resolveRepeatedly E n c s
   = Ok ((replicate n (finalAction c, finalActionErr c), c), s))
  /\ (forall a err c' s',
        finalAction c = None ->
        finalActionErr c = None ->
        resolveNextAction E c s = Ok ((Some a, err, c'), s') ->
        Accept a || Reject a = true ->
        resolveRepeatedly E n c' s'
        = Ok ((replicate n (Some a, None), c'), s')).
Proof.
  split; [apply resolveRepeatedly_settled|].
  intros a err c' s' Hfa Hfe Hrun Hterm.
  destruct (resolveNextAction_stores_terminal E c c' s s' a err
              Hfa Hfe Hrun Hterm) as (_ & Hfa' & Hfe').
  rewrite resolveRepeatedly_settled by (left; congruence).
  now rewrite Hfa', Hfe'.
Qed.

Lemma resolveNextAction_idempotent_witness :
  resolveRepeatedly (world None (fun _ => noon) refusing) 3
    (set_finalAction (Some rejectAction) aliceConn)
    (serverWithRounds [NoiseAction acceptAction])
  = Ok (([(Some rejectAction, None); (Some rejectAction, None);
          (Some rejectAction, None)],
         set_finalAction (Some rejectAction) aliceConn),
        serverWithRounds [NoiseAction acceptAction])
  /\ resolveRepeatedly openWorld 2
       (set_finalAction (Some rejectAction)
          (set_matched rejectAction None aliceConn))
       (serverWithRounds [NoiseAction acceptAction])
     = Ok (([(Some rejectAction, None); (Some rejectAction, None)],
            set_finalAction (Some rejectAction)
              (set_matched rejectAction None aliceConn)),
           serverWithRounds [NoiseAction acceptAction]).
Proof.
  split.
  - apply (proj1 (resolveNextAction_idempotent
                    (world None (fun _ => noon) refusing)
                    (set_finalAction (Some rejectAction) aliceConn)
                    (serverWithRounds [NoiseAction acceptAction]) 3)).
    left. discriminate.
  - apply (proj2 (resolveNextAction_idempotent openWorld
                    (set_matched rejectAction None aliceConn)
                    (serverWithRounds [NoiseAction acceptAction]) 2)
             rejectAction None); reflexivity.
Defined.

(** ** The [+password] detour *)

(** C7: when the requested user ends in [+password] and the policy
    authorizes the connection, the none-auth callback returns an error
    and sets [anyPasswordIsOkay]; from then on the next method offered is
    [password] and every password is accepted.  Without the flag every
    password is refused. *)
Theorem password_detour (E : environ) (fuel : nat) (ctx : sshContext)
    (c c1 c2 : conn) (s s1 s2 : server) :
  insecureSkipTailscaleAuth c = false ->
  HasSuffix (ctx_User ctx) forcePasswordSuffix = true ->
  doPolicyAuth E ctx None c s = Ok ((None, c1), s1) ->
  isAuthorized E fuel ctx c1 s1 = Ok (Some (None, c2), s2) ->
  (exists err : error,
     NoClientAuthCallback E fuel ctx c s
     = Ok (Some (Some err, set_anyPasswordIsOkay true c2), s2))
  /\ anyPasswordIsOkay (set_anyPasswordIsOkay true c2) = true
  /\ (forall prevErrors,
        nextAuthMethodCallback (set_anyPasswordIsOkay true c2) prevErrors
        = ["password"; "tailscale"])
  /\ (forall ctx' password,
        fakePasswordHandler (set_anyPasswordIsOkay true c2) ctx' password
        = true)
  /\ (forall c' ctx' password,
        anyPasswordIsOkay c' = false ->
        fakePasswordHandler c' ctx' password = false).
Proof.
  intros Hskip Hsuffix Hauth Hok. repeat split.
  - unfold NoClientAuthCallback. rewrite Hskip.
    unfold bind at 1. rewrite Hauth.
    unfold bind at 1. rewrite Hok. rewrite Hsuffix. eexists. reflexivity.
  - intros c' ctx' password H. exact H.
Qed.

Lemma password_detour_witness :
  exists (err : error) (c3 : conn) (s3 : server),
    NoClientAuthCallback openWorld 3 (ctxFor "alice+password") aliceConn
      (idleServer ∅) = Ok (Some (Some err, c3), s3)
    /\ nextAuthMethodCallback c3 [err] = ["password"; "tailscale"]
    /\ fakePasswordHandler c3 (ctxFor "alice+password") "hunter2" = true.
Proof.
  edestruct (password_detour openWorld 3 (ctxFor "alice+password") aliceConn)
    as ([err Hrun] & _ & Hnext & Hpass & _).
  - reflexivity.
  - vm_compute. reflexivity.
  - vm_compute. reflexivity.
  - vm_compute. reflexivity.
  - exists err. eexists _, _. split; [exact Hrun|].
    split; [apply Hnext | apply Hpass].
Defined.

(** ** The shutdown fence *)

Lemma now_fence (E : environ) (s s' : server) (t : Time) :
  now E s = Ok (t, s') -> shutdownCalled s' = shutdownCalled s.
Proof. unfold now. intros H. injection H as _ <-. reflexivity. Qed.

Lemma pruneCache_fence (E : environ) (s s' : server) (u : unit) :
  pruneCache E s = Ok (u, s') -> shutdownCalled s' = shutdownCalled s.
Proof.
  unfold pruneCache. unfold_monad. unfold now.
  destruct (50 <? size (fetchPublicKeysCache s))%nat;
    intros H; injection H as _ <-; reflexivity.
Qed.

Lemma fetchPublicKeysURLCached_fence (E : environ) (url : string)
    (s s' : server) (r : pubKeyCacheEntry * bool) :
  fetchPublicKeysURLCached E url s = Ok (r, s') ->
  shutdownCalled s' = shutdownCalled s.
Proof.
  unfold fetchPublicKeysURLCached. unfold bind at 1.
  destruct (pruneCache E s) as [[u s1]|] eqn:Hprune; [|discriminate].
  apply pruneCache_fence in Hprune. unfold_monad. unfold now.
  destruct (fetchPublicKeysCache s1 !! url);
    intros H; injection H as _ <-; exact Hprune.
Qed.

Lemma fetchPublicKeysURL_fence (E : environ) (url : string)
    (s s' : server) (r : list string * option error) :
  fetchPublicKeysURL E url s = Ok (r, s') ->
  shutdownCalled s' = shutdownCalled s.
Proof.
  unfold fetchPublicKeysURL.
  destruct (negb (HasPrefix url "https://")).
  { unfold ret. intros H. injection H as _ <-. reflexivity. }
  unfold bind at 1.
  destruct (fetchPublicKeysURLCached E url s) as [[[ce ok] s1]|] eqn:Hread;
    [|discriminate].
  apply fetchPublicKeysURLCached_fence in Hread.
  destruct ok.
  { unfold ret. intros H. injection H as _ <-. exact Hread. }
  destruct (NewRequest_err E url).
  { unfold ret. intros H. injection H as _ <-. exact Hread. }
  unfold_monad. unfold now. simpl.
  destruct (pubKeyClient_Do E _ _) as [err|resp].
  - intros H. injection H as _ <-. exact Hread.
  - destruct (interpretResponse E ce resp) as [[l tag] err].
    intros H. injection H as _ <-. exact Hread.
Qed.

Lemma removeSession_sublist (ss : sshSession) (l : list sshSession) :
  sublist (removeSession ss l) l.
Proof.
  induction l as [|x l IH]; simpl; [constructor|].
  destruct (Nat.eqb (ssPtr x) (ssPtr ss)).
  - now apply sublist_cons.
  - now apply sublist_skip.
Qed.

Lemma attach_refused (ss : sshSession) (c : conn) (s : server) :
  shutdownCalled s = true ->
  attachSessionToConnIfNotShutdown ss c s = Ok ((false, c), s).
Proof.
  intros H. unfold attachSessionToConnIfNotShutdown. unfold_monad.
  now rewrite H.
Qed.

(** One step of a process behind the fence: the fence stays, and no
    connection gains a session. *)
Lemma step_behind_fence (E : environ) (ev : event) (p p' : process) :
  shutdownCalled (srv p) = true ->
  step E ev p = Ok p' ->
  shutdownCalled (srv p') = true
  /\ forall cptr c', conns p' !! cptr = Some c' ->
       exists c, conns p !! cptr = Some c
                 /\ sublist (sessions c') (sessions c).
Proof.
  intros Hfence Hstep. destruct ev as [|cptr id hk|cptr add|ss|ss|url]; simpl in Hstep.
  - injection Hstep as <-. split; [reflexivity|]. simpl.
    intros cptr c' H. rewrite map_lookup_imap in H.
    destruct (conns p !! cptr) as [c|]; [|discriminate]. simpl in H.
    injection H as <-. exists c. split; [reflexivity|].
    destruct (bool_decide _); reflexivity.
  - unfold newConn in Hstep. rewrite Hfence in Hstep.
    injection Hstep as <-. split; [assumption|]. intros cptr' c' H.
    exists c'. split; [assumption | reflexivity].
  - injection Hstep as <-. split.
    + simpl. unfold trackActiveConn. destruct add; exact Hfence.
    + simpl. intros cptr' c' H. exists c'. split; [assumption | reflexivity].
  - unfold onConn in Hstep.
    destruct (conns p !! connPtr ss) as [c|] eqn:Hc; [|discriminate].
    unfold bind at 1 in Hstep. rewrite (attach_refused ss c _ Hfence) in Hstep.
    unfold ret in Hstep. injection Hstep as <-. split; [assumption|].
    simpl. intros cptr c' H.
    destruct (decide (connPtr ss = cptr)) as [<-|Hne].
    + rewrite lookup_insert_eq in H. injection H as <-.
      exists c. split; [assumption | reflexivity].
    + rewrite lookup_insert_ne in H by assumption.
      exists c'. split; [assumption | reflexivity].
  - unfold onConn in Hstep.
    destruct (conns p !! connPtr ss) as [c|] eqn:Hc; [|discriminate].
    unfold detachSession, bind, get, modify, ret, panic in Hstep.
    destruct (sessionWaitGroup (srv p) - 1 <? 0)%Z; [discriminate|].
    simpl in Hstep. injection Hstep as <-. split; [assumption|].
    simpl. intros cptr c' H.
    destruct (decide (connPtr ss = cptr)) as [<-|Hne].
    + rewrite lookup_insert_eq in H. injection H as <-.
      exists c. split; [assumption | apply removeSession_sublist].
    + rewrite lookup_insert_ne in H by assumption.
      exists c'. split; [assumption | reflexivity].
  - destruct (fetchPublicKeysURL E url (srv p)) as [[r s']|] eqn:Hfetch;
      [|discriminate].
    injection Hstep as <-. apply fetchPublicKeysURL_fence in Hfetch.
    split; [simpl; congruence|].
    simpl. intros cptr c' H. exists c'. split; [assumption | reflexivity].
Qed.

Lemma exec_behind_fence (E : environ) (evs : list event) (p : process) :
  shutdownCalled (srv p) = true ->
  shutdownCalled (srv (exec E evs p)) = true
  /\ forall cptr c', conns (exec E evs p) !! cptr = Some c' ->
       exists c, conns p !! cptr = Some c
                 /\ sublist (sessions c') (sessions c).
Proof.
  revert p. induction evs as [|ev evs IH]; intros p Hfence; simpl.
  - split; [assumption|]. intros cptr c' H. exists c'.
    split; [assumption | reflexivity].
  - destruct (step E ev p) as [p1|msg] eqn:Hstep.
    + destruct (step_behind_fence E ev p p1 Hfence Hstep) as [Hf1 Hs1].
      destruct (IH p1 Hf1) as [Hf Hs]. split; [assumption|].
      intros cptr c' H. destruct (Hs cptr c' H) as (c1 & Hc1 & Hsub1).
      destruct (Hs1 cptr c1 Hc1) as (c & Hc & Hsub).
      exists c. split; [assumption | etransitivity; eassumption].
    + split; [assumption|]. intros cptr c' H. exists c'.
      split; [assumption | reflexivity].
Qed.

Lemma Shutdown_sessions (p : process) (cptr : nat) (c' : conn) :
  conns (Shutdown p) !! cptr = Some c' ->
  exists c, conns p !! cptr = Some c /\ sessions c' = sessions c.
Proof.
  simpl. rewrite map_lookup_imap.
  destruct (conns p !! cptr) as [c|]; [|discriminate]. simpl.
  intros H. injection H as <-. exists c. split; [reflexivity|].
  destruct (bool_decide _); reflexivity.
Qed.

(** C8: a session made by [newSSHSession] is appended to the sessions of
    its connection exactly when the fence is not set at that moment; after
    [Shutdown], whatever happens next, the fence stays set and no
    connection gains a session; a session refused by the fence writes the
    shutting-down message and exits with status 1. *)
Theorem shutdown_fence (E : environ) :
  (forall ptr cptr subsystem stamp rnd c s,
     exists c' s',
       attachSessionToConnIfNotShutdown
         (newSSHSession ptr cptr subsystem stamp rnd) c s
       = Ok ((negb (shutdownCalled s), c'), s')
       /\ sessions c'
          = if shutdownCalled s then sessions c
            else (sessions c
                  ++ [newSSHSession ptr cptr subsystem stamp rnd])%list)
  /\ (forall p evs,
        shutdownCalled (srv (exec E evs (Shutdown p))) = true
        /\ forall cptr c',
             conns (exec E evs (Shutdown p)) !! cptr = Some c' ->
             exists c, conns p !! cptr = Some c
                       /\ sublist (sessions c') (sessions c))
  /\ (forall os ss c s,
        shutdownCalled s = true ->
        run os ss c s
        = Ok ((report ["Tailscale SSH is shutting down" ++ CRLF] 1, c), s)).
Proof.
  split; [|split].
  - intros ptr cptr subsystem stamp rnd c s.
    unfold attachSessionToConnIfNotShutdown, attachSession. unfold_monad.
    destruct (shutdownCalled s); simpl; eexists _, _; split; reflexivity.
  - intros p evs.
    destruct (exec_behind_fence E evs (Shutdown p) eq_refl) as [Hf Hs].
    split; [assumption|]. intros cptr c' H.
    destruct (Hs cptr c' H) as (c1 & Hc1 & Hsub).
    destruct (Shutdown_sessions p cptr c1 Hc1) as (c & Hc & Heq).
    exists c. split; [assumption|]. now rewrite <- Heq.
  - intros os ss c s H. unfold run. unfold bind at 1.
    rewrite (attach_refused ss c s H). reflexivity.
Qed.

Lemma shutdown_fence_witness :
  run quietOS shellSession aliceAccepted (srv (Shutdown oneConnProcess))
  = Ok ((report ["Tailscale SSH is shutting down" ++ CRLF] 1, aliceAccepted),
        srv (Shutdown oneConnProcess))
  /\ (forall c',
        conns (exec openWorld [EvAttach shellSession] (Shutdown oneConnProcess))
          !! 1%nat = Some c' ->
        exists c, conns oneConnProcess !! 1%nat = Some c
                  /\ sublist (sessions c') (sessions c)).
Proof.
  split.
  - apply (proj2 (proj2 (shutdown_fence openWorld))). reflexivity.
  - intros c'.
    apply (proj2 (proj1 (proj2 (shutdown_fence openWorld))
                    oneConnProcess [EvAttach shellSession])).
Defined.

(** ** The exit gate *)

Lemma race_settled (schedule : list racer) (p : sessionProc) :
  exitOnce p = true -> race schedule p = p.
Proof.
  revert p. induction schedule as [|r schedule IH]; intros p H; [reflexivity|].
  unfold race. simpl. fold (race schedule (raceStep r p)).
  assert (Hstep : raceStep r p = p).
  { destruct r; unfold raceStep, afterWait, killProcessOnContextDone,
      exitOnce_Do; now rewrite H. }
  rewrite Hstep. now apply IH.
Qed.

Lemma raceStep_sets_gate (r : racer) (p : sessionProc) :
  exitOnce (raceStep r p) = true.
Proof.
  destruct r; unfold raceStep, afterWait, killProcessOnContextDone,
    exitOnce_Do; destruct (exitOnce p) eqn:H; simpl; auto.
Qed.

(** C9: in a session whose gate is still open, whatever the order and
    number of arrivals of the two racers at the gate, [cmd.Process.Kill]
    is called at most once; it is called exactly when the watcher of the
    context arrives first. *)
Theorem kill_at_most_once (schedule : list racer) :
  (killCalls (race schedule freshSession) <= 1)%nat
  /\ (killCalls (race schedule freshSession) = 1%nat
      <-> exists msg rest, schedule = ContextDone msg :: rest).
Proof.
  destruct schedule as [|r rest].
  - simpl. split; [lia|]. split; [discriminate|].
    intros (msg & rest & H). discriminate.
  - unfold race. simpl. fold (race rest (raceStep r freshSession)).
    rewrite (race_settled rest _ (raceStep_sets_gate r freshSession)).
    destruct r as [|msg]; simpl.
    + split; [lia|]. split; [discriminate|].
      intros (msg & rest' & H). discriminate.
    + split; [lia|]. split; [eauto | reflexivity].
Qed.

(** * Further properties *)

(** ** Environment lists *)

Lemma append_cons (c : ascii) (a b : string) :
  String c a ++ b = String c (a ++ b).
Proof. reflexivity. Qed.

Lemma Cut_true_inv (s : string) (sep : ascii) (a b : string) :
  Cut s sep = (a, b, true) -> s = a ++ String sep b.
Proof.
  revert a. induction s as [|x s IH]; simpl; intros a H; [discriminate|].
  destruct (Ascii.eqb_spec x sep) as [->|Hne].
  - injection H as <- <-. reflexivity.
  - destruct (Cut s sep) as [[a' b'] found] eqn:Hcut.
    injection H as <- <- ->. rewrite append_cons. f_equal. now apply IH.
Qed.

Lemma HasPrefix_app (a r q : string) :
  HasPrefix (a ++ r) (a ++ q) = HasPrefix r q.
Proof.
  induction a as [|x a IH]; [reflexivity|].
  rewrite !append_cons. simpl. now rewrite Ascii.eqb_refl.
Qed.

Lemma HasPrefix_nil (s : string) : HasPrefix s "" = true.
Proof. destruct s; reflexivity. Qed.

(** An entry that is passed over: it has no [=], or its key is another. *)
Lemma envValFromList_skip (kv : string) (env : list string) (k : string) :
  HasPrefix kv (k ++ "=") = false ->
  envValFromList (kv :: env) k = envValFromList env k.
Proof.
  intros H. simpl. destruct (Cut kv "=") as [[thisKey v] ok] eqn:Hcut.
  destruct ok; [|reflexivity]. simpl.
  unfold envEq. destruct (String.eqb_spec thisKey k) as [->|]; [|reflexivity].
  apply Cut_true_inv in Hcut. subst kv.
  change (k ++ "=") with (k ++ String "=" "") in H.
  rewrite HasPrefix_app in H. simpl in H.
  rewrite HasPrefix_nil in H. discriminate.
Qed.

(** [envValFromList] returns the value of the first entry [k=v] of the
    list, whatever follows it; the value is everything after the first
    [=] and may itself hold [=] signs. *)
Theorem envValFromList_first (pre post : list string) (k v : string) :
  Contains k "=" = false ->
  Forall (fun kv => HasPrefix kv (k ++ "=") = false) pre ->
  envValFromList (pre ++ (k ++ "=" ++ v)%string :: post)%list k = v.
Proof.
  intros Hk Hpre. induction Hpre as [|kv pre Hkv _ IH].
  - simpl. change (k ++ "=" ++ v) with (k ++ String "=" v).
    rewrite Cut_found by assumption. simpl. unfold envEq.
    now rewrite String.eqb_refl.
  - change ((kv :: pre) ++ (k ++ "=" ++ v)%string :: post)%list
      with (kv :: (pre ++ (k ++ "=" ++ v)%string :: post))%list.
    rewrite envValFromList_skip by assumption. exact IH.
Qed.

Lemma envValFromList_first_witness :
  envValFromList ["SHELL=/bin/bash"; "TERMINAL"; "TERM=a=b"; "TERM=screen"]
    "TERM" = "a=b".
Proof.
  apply (envValFromList_first ["SHELL=/bin/bash"; "TERMINAL"] ["TERM=screen"]
           "TERM" "a=b"); [reflexivity|].
  repeat constructor.
Defined.

(** When no entry of the list starts with [k=], the result is empty. *)
Theorem envValFromList_missing (env : list string) (k : string) :
  Forall (fun kv => HasPrefix kv (k ++ "=") = false) env ->
  envValFromList env k = "".
Proof.
  intros H. induction H as [|kv env Hkv _ IH]; [reflexivity|].
  rewrite envValFromList_skip by assumption. exact IH.
Qed.

Lemma envValFromList_missing_witness :
  envValFromList ["SHELL=/bin/bash"; "TERMINAL"; "term=vt100"] "TERM" = "".
Proof.
  apply (envValFromList_missing ["SHELL=/bin/bash"; "TERMINAL"; "term=vt100"]
           "TERM").
  repeat constructor.
Defined.

(** ** Key entries and auth methods *)

(** An entry without any space matches no key. *)
Theorem pubKeyMatchesAuthorizedKey_no_space (key : PublicKey)
    (wantKey : string) :
  Contains wantKey " " = false ->
  pubKeyMatchesAuthorizedKey key wantKey = false.
Proof.
  intros H. unfold pubKeyMatchesAuthorizedKey.
  now rewrite Cut_not_found.
Qed.

Lemma pubKeyMatchesAuthorizedKey_no_space_witness :
  pubKeyMatchesAuthorizedKey abcKey "YWJj" = false.
Proof.
  apply (pubKeyMatchesAuthorizedKey_no_space abcKey "YWJj"). reflexivity.
Defined.

(** [nextAuthMethodCallback] offers one or two methods and the last one
    is always [tailscale]; [password] is offered exactly when any
    password is fine, [publickey] exactly when it is not and the last
    error is the sentinel itself (an error that wraps it does not count). *)
Theorem nextAuthMethodCallback_methods (c : conn) (prevErrors : list error) :
  last (nextAuthMethodCallback c prevErrors) = Some "tailscale"
  /\ (length (nextAuthMethodCallback c prevErrors) <= 2)%nat
  /\ (In "password" (nextAuthMethodCallback c prevErrors)
      <-> anyPasswordIsOkay c = true)
  /\ (In "publickey" (nextAuthMethodCallback c prevErrors)
      <-> anyPasswordIsOkay c = false
          /\ last prevErrors = Some errPubKeyRequired).
Proof.
  unfold nextAuthMethodCallback.
  destruct (anyPasswordIsOkay c); [|destruct (last prevErrors) as [[| | |]|]];
    simpl; intuition (discriminate || lia || auto).
Qed.

(** ** The identity of a connection *)

Lemma append_assoc (a b c : string) : (a ++ b) ++ c = a ++ (b ++ c).
Proof.
  induction a as [|x a IH]; [reflexivity|].
  rewrite !append_cons. now rewrite IH.
Qed.

Lemma rev_app_append (p x : string) :
  String.rev_app p x = String.rev_app p "" ++ x.
Proof.
  revert x. induction p as [|a p IH]; intros x; [reflexivity|].
  simpl. rewrite (IH (String a x)), (IH (String a "")).
  now rewrite append_assoc.
Qed.

Lemma rev_app_app (a b c : string) :
  String.rev_app (a ++ b) c = String.rev_app b (String.rev_app a c).
Proof.
  revert c. induction a as [|x a IH]; intros c; [reflexivity|].
  rewrite append_cons. simpl. apply IH.
Qed.

Lemma HasSuffix_app (u p : string) : HasSuffix (u ++ p) p = true.
Proof.
  unfold HasSuffix, String.rev. rewrite rev_app_app.
  rewrite (rev_app_append p (String.rev_app u "")).
  rewrite <- (string_app_empty (String.rev_app p "")) at 2.
  rewrite HasPrefix_app. apply HasPrefix_nil.
Qed.

Lemma length_append (a b : string) :
  String.length (a ++ b) = (String.length a + String.length b)%nat.
Proof.
  induction a as [|x a IH]; [reflexivity|].
  rewrite append_cons. simpl. now rewrite IH.
Qed.

Lemma substring_head (u p : string) :
  String.substring 0 (String.length u) (u ++ p) = u.
Proof.
  induction u as [|x u IH]; [destruct p; reflexivity|].
  rewrite append_cons. simpl. now rewrite IH.
Qed.

Lemma TrimSuffix_app (u p : string) : TrimSuffix (u ++ p) p = u.
Proof.
  unfold TrimSuffix. rewrite HasSuffix_app, length_append.
  replace (String.length u + String.length p - String.length p)%nat
    with (String.length u) by lia.
  apply substring_head.
Qed.

(** A connection whose local or remote address is not a Tailscale
    address, or whose remote address belongs to no known peer, is denied
    by [doPolicyAuth] with the plain denial error, before anything else
    happens: the connection and the server are left as they were (no
    clock read, no request, no identity stored), with or without a key. *)
Theorem doPolicyAuth_denies_foreign_endpoint (E : environ)
    (ctx : sshContext) (key : option PublicKey) (c : conn) (s : server) :
  info c = None ->
  IsTailscaleIP E (ap_addr (toIPPort (LocalAddr ctx))) = false
  \/ IsTailscaleIP E (ap_addr (toIPPort (RemoteAddr ctx))) = false
  \/ WhoIs E (toIPPort (RemoteAddr ctx)) = None ->
  doPolicyAuth E ctx key c s = Ok ((Some ErrDenied, c), s).
Proof.
  intros Hinfo H. unfold doPolicyAuth, setInfo. rewrite Hinfo.
  destruct (IsTailscaleIP E (ap_addr (toIPPort (LocalAddr ctx))));
    [|reflexivity]. simpl.
  destruct (IsTailscaleIP E (ap_addr (toIPPort (RemoteAddr ctx))));
    [|reflexivity]. simpl.
  destruct H as [H|[H|H]]; try discriminate. now rewrite H.
Qed.

Lemma doPolicyAuth_denies_foreign_endpoint_witness :
  doPolicyAuth openWorld (ctxFor "alice") (Some abcKey)
    (emptyConn "ssh-conn-2") (idleServer ∅)
  = Ok ((Some ErrDenied, emptyConn "ssh-conn-2"), idleServer ∅).
Proof.
  apply (doPolicyAuth_denies_foreign_endpoint openWorld (ctxFor "alice")
           (Some abcKey) (emptyConn "ssh-conn-2") (idleServer ∅)).
  - reflexivity.
  - right. right. reflexivity.
Defined.

(** Once [setInfo] has succeeded, the identity is frozen: a later call,
    whatever the user name and addresses it is given, returns nil and
    changes nothing.  The identity stored by the first call has Tailscale
    addresses on both ends, belongs to the peer [WhoIs] names, and its
    user is the requested name without the [+password] suffix. *)
Theorem setInfo_frozen (E : environ) (ctx ctx' : sshContext) (c c' : conn) :
  setInfo E ctx c = (None, c') ->
  setInfo E ctx' c' = (None, c')
  /\ exists ci,
       info c' = Some ci
       /\ (info c = None ->
           sshUser ci = TrimSuffix (ctx_User ctx) forcePasswordSuffix
           /\ (forall u, ctx_User ctx = u ++ "+password" -> sshUser ci = u)
           /\ src ci = toIPPort (RemoteAddr ctx)
           /\ dst ci = toIPPort (LocalAddr ctx)
           /\ IsTailscaleIP E (ap_addr (src ci)) = true
           /\ IsTailscaleIP E (ap_addr (dst ci)) = true
           /\ WhoIs E (src ci) = Some (node ci, uprof ci)
           /\ idH c' = SessionID ctx).
Proof.
  unfold setInfo at 1. intros H.
  destruct (info c) as [ci|] eqn:Hinfo.
  - injection H as <-. split; [unfold setInfo; now rewrite Hinfo|].
    exists ci. split; [assumption | discriminate].
  - destruct (IsTailscaleIP E (ap_addr (toIPPort (LocalAddr ctx)))) eqn:Hdst;
      [|discriminate]. simpl in H.
    destruct (IsTailscaleIP E (ap_addr (toIPPort (RemoteAddr ctx)))) eqn:Hsrc;
      [|discriminate]. simpl in H.
    destruct (WhoIs E (toIPPort (RemoteAddr ctx))) as [[n u]|] eqn:Hwho;
      [|discriminate].
    injection H as <-. split; [reflexivity|].
    eexists. split; [reflexivity|]. intros _. simpl.
    repeat split; auto.
    intros u0 ->. apply TrimSuffix_app.
Qed.

Lemma setInfo_frozen_witness :
  setInfo aliceEverywhere (ctxFor "mallory")
    (snd (setInfo aliceEverywhere (ctxFor "alice+password")
            (emptyConn "ssh-conn-1")))
  = (None, aliceConn).
Proof.
  apply (setInfo_frozen aliceEverywhere (ctxFor "alice+password")
           (ctxFor "mallory") (emptyConn "ssh-conn-1") aliceConn).
  vm_compute. reflexivity.
Defined.

(** ** What a successful [doPolicyAuth] leaves behind *)

Lemma setInfo_ok_keeps (E : environ) (ctx : sshContext) (c c0 : conn) :
  setInfo E ctx c = (None, c0) ->
  info c0 <> None /\ finalAction c0 = finalAction c
  /\ finalActionErr c0 = finalActionErr c
  /\ sessions c0 = sessions c
  /\ anyPasswordIsOkay c0 = anyPasswordIsOkay c.
Proof.
  unfold setInfo. intros Hset. destruct (info c) eqn:Hi.
  - injection Hset as <-. rewrite Hi. repeat split. discriminate.
  - destruct (negb _); [discriminate|]. destruct (negb _); [discriminate|].
    destruct (WhoIs E _) as [[n up]|]; [|discriminate].
    injection Hset as <-. repeat split. discriminate.
Qed.

Lemma doPolicyAuth_ok_inv (E : environ) (ctx : sshContext)
    (key : option PublicKey) (c c1 : conn) (s s1 : server) :
  doPolicyAuth E ctx key c s = Ok ((None, c1), s1) ->
  exists c0 a lu u gids,
    setInfo E ctx c = (None, c0)
    /\ evaluatePolicy E c0 key s = Ok (inr (a, lu), s1)
    /\ Accept a || nonEmpty (HoldAndDelegate a) = true
    /\ user_Lookup E lu = inr u
    /\ GroupIds E u = inr gids
    /\ c1 = set_localUser u gids
              (if Accept a then set_finalAction (Some a) (set_matched a key c0)
               else set_matched a key c0).
Proof.
  unfold doPolicyAuth. intros H.
  destruct (setInfo E ctx c) as [[e|] c0]; [discriminate|].
  unfold bind at 1 in H.
  destruct (evaluatePolicy E c0 key s) as [[[err|[a lu]] s0]|] eqn:Heval;
    [| |discriminate].
  - unfold bind in H.
    destruct (match key with
              | Some _ => ret false
              | None => havePubKeyPolicy E c0
              end s0) as [[[|] s2]|]; discriminate.
  - destruct (if nonEmpty (Message a) then SendAuthBanner ctx (Message a)
              else None); [discriminate|].
    destruct (Accept a || nonEmpty (HoldAndDelegate a)) eqn:Hgo.
    + destruct (user_Lookup E lu) as [e|u] eqn:Hu; [discriminate|].
      destruct (GroupIds E u) as [e|gids] eqn:Hg; [discriminate|].
      unfold ret in H. injection H as <- <-.
      exists c0, a, lu, u, gids. repeat split; auto.
    + destruct (Reject a); discriminate.
Qed.

(** When [doPolicyAuth] returns nil, the matched action accepts or
    delegates; it is stored as first and current action, the key that was
    presented is stored, the local user and its groups are those of the
    account database for the mapped name, and the identity is set.  The
    final action is the matched action when it accepts, and is left as it
    was when it delegates. *)
Theorem doPolicyAuth_success (E : environ) (ctx : sshContext)
    (key : option PublicKey) (c c1 : conn) (s s1 : server) :
  doPolicyAuth E ctx key c s = Ok ((None, c1), s1) ->
  exists a u,
    action0 c1 = Some a
    /\ currentAction c1 = Some a
    /\ (Accept a = true \/ HoldAndDelegate a <> "")
    /\ pubKey c1 = key
    /\ localUser c1 = Some u
    /\ GroupIds E u = inr (userGroupIDs c1)
    /\ info c1 <> None
    /\ (Accept a = true -> finalAction c1 = Some a)
    /\ (Accept a = false -> finalAction c1 = finalAction c)
    /\ finalActionErr c1 = finalActionErr c
    /\ sessions c1 = sessions c
    /\ anyPasswordIsOkay c1 = anyPasswordIsOkay c.
Proof.
  intros H.
  destruct (doPolicyAuth_ok_inv E ctx key c c1 s s1 H)
    as (c0 & a & lu & u & gids & Hset & _ & Hgo & _ & Hg & ->).
  destruct (setInfo_ok_keeps E ctx c c0 Hset) as (Hi & Hfa & Hfe & Hss & Hany).
  exists a, u. destruct (Accept a) eqn:Hacc; simpl in *;
    repeat split; auto; try discriminate.
  right. unfold nonEmpty in Hgo. apply negb_true_iff in Hgo.
  now apply String.eqb_neq.
Qed.

Lemma doPolicyAuth_success_witness :
  exists a u,
    action0 aliceAccepted = Some a
    /\ currentAction aliceAccepted = Some a
    /\ (Accept a = true \/ HoldAndDelegate a <> "")
    /\ pubKey aliceAccepted = None
    /\ localUser aliceAccepted = Some u.
Proof.
  destruct (doPolicyAuth_success openWorld (ctxFor "alice") None aliceConn
              aliceAccepted (idleServer ∅) (idleServer ∅))
    as (a & u & H0 & H1 & H2 & H3 & H4 & _).
  - vm_compute. reflexivity.
  - exists a, u. auto.
Defined.

(** ** Fetching the next action *)

Lemma fetchSSHAction_loop_retry (E : environ) (url : string)
    (r : noiseRound) (rounds : list noiseRound) (reqs : list string) :
  NewRequest_err E url = None ->
  retryable r = true ->
  fetchSSHAction_loop E url (r :: rounds) reqs
  = fetchSSHAction_loop E url rounds (reqs ++ [url])%list.
Proof.
  intros Hreq Hr. destruct r; try discriminate; simpl; now rewrite Hreq.
Qed.

Lemma fetchSSHAction_loop_retries (E : environ) (url : string)
    (fails rest : list noiseRound) (last : noiseRound) (reqs : list string) :
  NewRequest_err E url = None ->
  forallb retryable fails = true ->
  fetchSSHAction_loop E url (fails ++ last :: rest)%list reqs
  = fetchSSHAction_loop E url (last :: rest)
      (reqs ++ replicate (length fails) url)%list.
Proof.
  intros Hreq. revert reqs.
  induction fails as [|r fails IH]; intros reqs Hfails.
  - cbn [app length replicate]. now rewrite app_nil_r.
  - cbn [forallb] in Hfails. apply andb_true_iff in Hfails as [Hr Hfails].
    change ((r :: fails) ++ last :: rest)%list
      with (r :: (fails ++ last :: rest))%list.
    rewrite fetchSSHAction_loop_retry by assumption.
    rewrite IH by assumption. cbn [length replicate].
    now rewrite <- app_assoc.
Qed.

(** When the control plane fails any number of times (transport error,
    status other than 200, undecodable body) and then answers with an
    action, [fetchSSHAction] returns that action; it has sent one request
    per failure and one more, all to the same URL, and the answers that
    follow are left for later. *)
Theorem fetchSSHAction_retries (E : environ) (url : string)
    (fails rest : list noiseRound) (a : SSHAction) (s : server) :
  NewRequest_err E url = None ->
  forallb retryable fails = true ->
  noiseRounds s = (fails ++ NoiseAction a :: rest)%list ->
  fetchSSHAction E url s
  = Ok (inr a,
        set_noise rest
          (noiseRequests s ++ replicate (S (length fails)) url)%list s).
Proof.
  intros Hreq Hfails Hrounds. unfold fetchSSHAction. unfold_monad.
  rewrite Hrounds, (fetchSSHAction_loop_retries E url fails rest _ _ Hreq Hfails).
  assert (Hrep : forall n : nat,
            (replicate n url ++ [url])%list = replicate (S n) url).
  { induction n as [|n IH]; [reflexivity|].
    cbn [replicate app] in *. now rewrite IH. }
  cbn [fetchSSHAction_loop]. rewrite Hreq.
  now rewrite <- app_assoc, Hrep.
Qed.

Lemma fetchSSHAction_retries_witness :
  fetchSSHAction openWorld "https://ctrl/next"
    (serverWithRounds [NoiseStatus 500 "busy"; NoiseErr (errorString "reset");
                       NoiseBadJSON (errorString "eof");
                       NoiseAction acceptAction; NoiseAction rejectAction])
  = Ok (inr acceptAction,
        set_noise [NoiseAction rejectAction]
          (replicate 4 "https://ctrl/next")
          (serverWithRounds [NoiseStatus 500 "busy";
                             NoiseErr (errorString "reset");
                             NoiseBadJSON (errorString "eof");
                             NoiseAction acceptAction;
                             NoiseAction rejectAction])).
Proof.
  apply (fetchSSHAction_retries openWorld "https://ctrl/next"
           [NoiseStatus 500 "busy"; NoiseErr (errorString "reset");
            NoiseBadJSON (errorString "eof")]
           [NoiseAction rejectAction] acceptAction); reflexivity.
Defined.

(** When the control plane only fails until the context is done,
    [fetchSSHAction] gives up with the context's error (the deadline
    error when the rounds run out); no request is sent once the context
    is done. *)
Theorem fetchSSHAction_gives_up (E : environ) (url : string)
    (fails rest : list noiseRound) (err : error) (s : server) :
  NewRequest_err E url = None ->
  forallb retryable fails = true ->
  (noiseRounds s = fails ->
   fetchSSHAction E url s
   = Ok (inl DeadlineExceeded,
         set_noise [] (noiseRequests s ++ replicate (length fails) url)%list s))
  /\ (noiseRounds s = (fails ++ CtxDone err :: rest)%list ->
      fetchSSHAction E url s
      = Ok (inl err,
            set_noise rest
              (noiseRequests s ++ replicate (length fails) url)%list s)).
Proof.
  intros Hreq Hfails. split; intros Hrounds;
    unfold fetchSSHAction; unfold_monad; rewrite Hrounds.
  - assert (Hloop : forall reqs,
              fetchSSHAction_loop E url fails reqs
              = (inl DeadlineExceeded, [],
                 (reqs ++ replicate (length fails) url)%list)).
    { clear Hrounds. induction fails as [|r fails IH]; intros reqs.
      - cbn [fetchSSHAction_loop length replicate]. now rewrite app_nil_r.
      - cbn [forallb] in Hfails.
        apply andb_true_iff in Hfails as [Hr Hfails].
        rewrite fetchSSHAction_loop_retry by assumption.
        rewrite IH by assumption. cbn [length replicate].
        now rewrite <- app_assoc. }
    now rewrite Hloop.
  - rewrite (fetchSSHAction_loop_retries E url fails rest _ _ Hreq Hfails).
    reflexivity.
Qed.

Lemma fetchSSHAction_gives_up_witness :
  fetchSSHAction openWorld "https://ctrl/next"
    (serverWithRounds [NoiseStatus 500 "busy"; NoiseStatus 500 "busy"])
  = Ok (inl DeadlineExceeded,
        set_noise [] (replicate 2 "https://ctrl/next")
          (serverWithRounds [NoiseStatus 500 "busy"; NoiseStatus 500 "busy"])).
Proof.
  exact (proj1 (fetchSSHAction_gives_up openWorld "https://ctrl/next"
                  [NoiseStatus 500 "busy"; NoiseStatus 500 "busy"] []
                  ErrDenied
                  (serverWithRounds [NoiseStatus 500 "busy";
                                     NoiseStatus 500 "busy"])
                  eq_refl eq_refl) eq_refl).
Defined.

(** ** The walk along the action chain *)

Lemma expandDelegateURLLocked_state (E : environ) (c : conn)
    (actionURL url : string) (s s' : server) :
  expandDelegateURLLocked E c actionURL s = Ok (url, s') -> s' = s.
Proof.
  unfold expandDelegateURLLocked. unfold_monad.
  destruct (NetMap E) as [[[id|] pol]|]; try discriminate;
    destruct (info c) as [ci|]; try discriminate;
    destruct (node ci), (localUser c); try discriminate;
    intros H; injection H as _ <-; reflexivity.
Qed.

Lemma fetchSSHAction_loop_consumes (E : environ) (url : string)
    (rounds rounds' : list noiseRound) (reqs reqs' : list string)
    (a : SSHAction) :
  fetchSSHAction_loop E url rounds reqs = (inr a, rounds', reqs') ->
  (length rounds' < length rounds)%nat.
Proof.
  revert reqs. induction rounds as [|r rounds IH]; intros reqs H;
    [discriminate|].
  simpl in H. destruct r; try discriminate;
    destruct (NewRequest_err E url); try discriminate;
    try (apply IH in H; simpl; lia).
  injection H as _ <- _. simpl. lia.
Qed.

Lemma fetchSSHAction_consumes (E : environ) (url : string) (s s' : server)
    (a : SSHAction) :
  fetchSSHAction E url s = Ok (inr a, s') ->
  (length (noiseRounds s') < length (noiseRounds s))%nat.
Proof.
  unfold fetchSSHAction. unfold_monad.
  destruct (fetchSSHAction_loop E url (noiseRounds s) (noiseRequests s))
    as [[r rounds'] reqs'] eqn:Hloop.
  intros H. injection H as -> <-. simpl.
  eapply fetchSSHAction_loop_consumes. eassumption.
Qed.

(** One step of the chain from an action that delegates. *)
Lemma resolveNextAction_step (E : environ) (c c' : conn) (s s' : server)
    (action : SSHAction) (oa : option SSHAction) (oe : option error) :
  finalAction c = None ->
  finalActionErr c = None ->
  currentAction c = Some action ->
  Accept action || Reject action = false ->
  String.eqb (HoldAndDelegate action) "" = false ->
  resolveNextAction E c s = Ok ((oa, oe, c'), s') ->
  (exists e, oa = None /\ oe = Some e
             /\ c' = recordResolution None (Some e) c)
  \/ (exists next, oa = Some next /\ oe = None
                   /\ c' = recordResolution (Some next) None c
                   /\ (length (noiseRounds s') < length (noiseRounds s))%nat).
Proof.
  intros Hfa Hfe Hcur Hterm Hhold H. unfold resolveNextAction in H.
  rewrite Hfa, Hfe, Hcur, Hterm, Hhold in H. unfold bind in H.
  destruct (expandDelegateURLLocked E c _ s) as [[url s1]|] eqn:Hurl;
    [|discriminate].
  apply expandDelegateURLLocked_state in Hurl. subst s1.
  destruct (fetchSSHAction E url s) as [[[e|next] s2]|] eqn:Hfetch;
    [| |discriminate]; unfold ret in H; injection H as <- <- <- <-.
  - left. eexists. repeat split.
  - right. exists next. repeat split.
    eapply fetchSSHAction_consumes. eassumption.
Qed.

Lemma chainState_next (action next : SSHAction) (c : conn) :
  chainState action c ->
  Accept action = false -> Reject action = false ->
  chainState next (recordResolution (Some next) None c).
Proof.
  intros (Hcur & Hfe & Hacc & Hnone) Ha Hr.
  specialize (Hnone Ha Hr). unfold chainState, recordResolution.
  destruct (Accept next) eqn:Han; simpl.
  - repeat split; auto; discriminate.
  - destruct (Reject next) eqn:Hrn; simpl; repeat split; auto; discriminate.
Qed.

Lemma isAuthorized_loop_accepts (E : environ) (ctx : sshContext)
    (fuel : nat) :
  forall (action : SSHAction) (c c2 : conn) (s s2 : server),
    chainState action c ->
    isAuthorized_loop E fuel ctx action c s = Ok (Some (None, c2), s2) ->
    exists a, finalAction c2 = Some a /\ Accept a = true
              /\ currentAction c2 = Some a
              /\ localUser c2 = localUser c
              /\ pubKey c2 = pubKey c
              /\ info c2 = info c.
Proof.
  induction fuel as [|fuel IH]; intros action c c2 s s2 Hst H;
    [discriminate|].
  simpl in H. destruct (Accept action) eqn:Ha.
  - unfold ret in H. injection H as <- <-. exists action.
    destruct Hst as (Hcur & _ & Hacc & _). repeat split; auto.
  - destruct (Reject action) eqn:Hr; [discriminate|].
    destruct (String.eqb (HoldAndDelegate action) "") eqn:Hh; [discriminate|].
    simpl in H. unfold bind in H.
    destruct (resolveNextAction E c s) as [[[[oa oe] c'] s']|] eqn:Hres;
      [|discriminate].
    pose proof Hst as (Hcur & Hfe & _ & Hnone).
    destruct (resolveNextAction_step E c c' s s' action oa oe
                (Hnone Ha Hr) Hfe Hcur) as [(e & -> & -> & _)
                                          |(next & -> & -> & -> & _)];
      auto; [now rewrite Ha, Hr | discriminate|].
    destruct (if nonEmpty (Message next) then SendAuthBanner ctx (Message next)
              else None); [discriminate|].
    apply IH in H; [|now apply (chainState_next action)].
    destruct H as (a & H1 & H2 & H3 & H4 & H5 & H6). exists a.
    repeat split; auto.
    + rewrite H4. unfold recordResolution.
      destruct (Accept next || Reject next); reflexivity.
    + rewrite H5. unfold recordResolution.
      destruct (Accept next || Reject next); reflexivity.
    + rewrite H6. unfold recordResolution.
      destruct (Accept next || Reject next); reflexivity.
Qed.

Lemma doPolicyAuth_chainState (E : environ) (ctx : sshContext)
    (key : option PublicKey) (c c1 : conn) (s s1 : server) :
  finalAction c = None ->
  finalActionErr c = None ->
  doPolicyAuth E ctx key c s = Ok ((None, c1), s1) ->
  exists a, currentAction c1 = Some a /\ chainState a c1.
Proof.
  intros Hfa Hfe H.
  destruct (doPolicyAuth_ok_inv E ctx key c c1 s s1 H)
    as (c0 & a & lu & u & gids & Hset & _ & _ & _ & _ & ->).
  assert (Hc0 : finalAction c0 = None /\ finalActionErr c0 = None).
  { unfold setInfo in Hset. destruct (info c).
    - injection Hset as <-. auto.
    - destruct (negb _); [discriminate|]. destruct (negb _); [discriminate|].
      destruct (WhoIs E _) as [[n up]|]; [|discriminate].
      injection Hset as <-. auto. }
  destruct Hc0 as [Hfa0 Hfe0]. exists a. unfold chainState.
  destruct (Accept a) eqn:Hacc; simpl; repeat split; auto; discriminate.
Qed.

(** On a connection without a stored final action or error: when
    [doPolicyAuth] and then [isAuthorized] return nil, the connection
    holds a final action that accepts, the current action is that action,
    and the local user, key and identity are those [doPolicyAuth] stored.
    No connection is authorized on an action that does not accept. *)
Theorem authorized_means_accepted (E : environ) (fuel : nat)
    (ctx : sshContext) (key : option PublicKey) (c c1 c2 : conn)
    (s s1 s2 : server) :
  finalAction c = None ->
  finalActionErr c = None ->
  doPolicyAuth E ctx key c s = Ok ((None, c1), s1) ->
  isAuthorized E fuel ctx c1 s1 = Ok (Some (None, c2), s2) ->
  exists a u,
    finalAction c2 = Some a /\ Accept a = true
    /\ currentAction c2 = Some a
    /\ localUser c2 = Some u /\ pubKey c2 = key /\ info c2 <> None.
Proof.
  intros Hfa Hfe Hauth Hok.
  destruct (doPolicyAuth_chainState E ctx key c c1 s s1 Hfa Hfe Hauth)
    as (a0 & Hcur & Hst).
  destruct (doPolicyAuth_ok_inv E ctx key c c1 s s1 Hauth)
    as (c0 & a' & lu & u & gids & Hset & _ & _ & _ & _ & Hc1).
  destruct (setInfo_ok_keeps E ctx c c0 Hset) as (Hinfo0 & _).
  assert (Hkey : pubKey c1 = key) by (subst c1; now destruct (Accept a')).
  assert (Hlu : localUser c1 = Some u) by (subst c1; reflexivity).
  assert (Hinfo : info c1 <> None) by (subst c1; now destruct (Accept a')).
  unfold isAuthorized in Hok. rewrite Hcur in Hok.
  destruct (isAuthorized_loop_accepts E ctx fuel a0 c1 c2 s1 s2 Hst Hok)
    as (a & H1 & H2 & H3 & H4 & H5 & H6).
  exists a, u. repeat split; auto; congruence.
Qed.

Lemma authorized_means_accepted_witness :
  doPolicyAuth delegateWorld (ctxFor "alice") None aliceConn slowControl
  = Ok ((None, aliceHeld), slowControl)
  /\ isAuthorized delegateWorld 3 (ctxFor "alice") aliceHeld slowControl
     = Ok (Some (None, aliceResolved), slowControlDone)
  /\ exists a u,
       finalAction aliceResolved = Some a /\ Accept a = true
       /\ localUser aliceResolved = Some u.
Proof.
  assert (H1 : doPolicyAuth delegateWorld (ctxFor "alice") None aliceConn
                 slowControl = Ok ((None, aliceHeld), slowControl))
    by (vm_compute; reflexivity).
  assert (H2 : isAuthorized delegateWorld 3 (ctxFor "alice") aliceHeld
                 slowControl = Ok (Some (None, aliceResolved), slowControlDone))
    by (vm_compute; reflexivity).
  split; [exact H1|]. split; [exact H2|].
  destruct (authorized_means_accepted delegateWorld 3 (ctxFor "alice") None
              aliceConn aliceHeld aliceResolved slowControl slowControl
              slowControlDone eq_refl eq_refl H1 H2)
    as (a & u & Hfa & Hacc & _ & Hlu & _).
  exists a, u. auto.
Defined.

Lemma isAuthorized_loop_returns (E : environ) (ctx : sshContext)
    (fuel : nat) :
  forall (action : SSHAction) (c : conn) (s s' : server),
    chainState action c ->
    (length (noiseRounds s) < fuel)%nat ->
    isAuthorized_loop E fuel ctx action c s <> Ok (None, s').
Proof.
  induction fuel as [|fuel IH]; intros action c s s' Hst Hlen; [lia|].
  simpl. destruct (Accept action) eqn:Ha; [discriminate|].
  destruct (Reject action) eqn:Hr; [discriminate|].
  destruct (String.eqb (HoldAndDelegate action) "") eqn:Hh; [discriminate|].
  simpl. unfold bind.
  destruct (resolveNextAction E c s) as [[[[oa oe] c'] s1]|] eqn:Hres;
    [|discriminate].
  pose proof Hst as (Hcur & Hfe & _ & Hnone).
  destruct (resolveNextAction_step E c c' s s1 action oa oe
              (Hnone Ha Hr) Hfe Hcur) as [(e & -> & -> & _)
                                        |(next & -> & -> & -> & Hless)];
    try (unfold ret; discriminate); auto; [now rewrite Ha, Hr|].
  destruct (if nonEmpty (Message next) then SendAuthBanner ctx (Message next)
            else None); [unfold ret; discriminate|].
  apply IH; [now apply (chainState_next action) | lia].
Qed.

(** The walk along the action chain makes at most one iteration more than
    the control plane gives answers: after a successful [doPolicyAuth] on
    a connection without stored final action or error, [isAuthorized] run
    for more iterations than there are rounds to come always reaches one
    of its returns (or a panic), never the end of its iterations. *)
Theorem isAuthorized_reaches_return (E : environ) (fuel : nat)
    (ctx : sshContext) (key : option PublicKey) (c c1 : conn)
    (s s1 s2 : server) :
  finalAction c = None ->
  finalActionErr c = None ->
  doPolicyAuth E ctx key c s = Ok ((None, c1), s1) ->
  (length (noiseRounds s1) < fuel)%nat ->
  isAuthorized E fuel ctx c1 s1 <> Ok (None, s2).
Proof.
  intros Hfa Hfe Hauth Hlen.
  destruct (doPolicyAuth_chainState E ctx key c c1 s s1 Hfa Hfe Hauth)
    as (a0 & Hcur & Hst).
  unfold isAuthorized. rewrite Hcur.
  now apply isAuthorized_loop_returns.
Qed.

Lemma isAuthorized_reaches_return_witness :
  isAuthorized delegateWorld 3 (ctxFor "alice") aliceHeld slowControl
  <> Ok (None, slowControlDone).
Proof.
  apply (isAuthorized_reaches_return delegateWorld 3 (ctxFor "alice") None
           aliceConn aliceHeld slowControl slowControl slowControlDone).
  - reflexivity.
  - reflexivity.
  - vm_compute. reflexivity.
  - vm_compute. lia.
Defined.

(** A call of [resolveNextAction] that fails, on a connection without a
    stored final action or error, returns no action and stores its error;
    the current action stays, no final action is stored, and every later
    call returns the same error without touching connection or server. *)
Theorem resolveNextAction_error_sticks (E : environ) (c c' : conn)
    (s s' : server) (oa : option SSHAction) (e : error) :
  finalAction c = None ->
  finalActionErr c = None ->
  resolveNextAction E c s = Ok ((oa, Some e, c'), s') ->
  oa = None
  /\ finalActionErr c' = Some e
  /\ finalAction c' = None
  /\ currentAction c' = currentAction c
  /\ forall n s'',
       resolveRepeatedly E n c' s''
       = Ok ((replicate n (None, Some e), c'), s'').
Proof.
  intros Hfa Hfe H.
  assert (Hc : oa = None /\ c' = set_finalActionErr (Some e) c).
  { unfold resolveNextAction in H. rewrite Hfa, Hfe in H.
    destruct (currentAction c) as [action|]; [|discriminate].
    destruct (Accept action || Reject action); [discriminate|].
    destruct (String.eqb (HoldAndDelegate action) "").
    - unfold ret in H. injection H as <- <- <- _. auto.
    - unfold bind in H.
      destruct (expandDelegateURLLocked E c _ s) as [[url s1]|];
        [|discriminate].
      destruct (fetchSSHAction E url s1) as [[[err|next] s2]|];
        try discriminate.
      unfold ret in H. injection H as <- <- <- _. auto. }
  destruct Hc as [-> ->]. simpl. repeat split; auto.
  intros n s''.
  rewrite resolveRepeatedly_settled by (right; discriminate).
  simpl. now rewrite Hfa.
Qed.

Lemma resolveNextAction_error_sticks_witness :
  resolveRepeatedly delegateWorld 2
    (set_finalActionErr
       (Some (Wrap "fetching SSHAction from https://ctrl/next?u=alice: "
                DeadlineExceeded "")) aliceHeld)
    slowControl
  = Ok ((replicate 2
           (None,
            Some (Wrap "fetching SSHAction from https://ctrl/next?u=alice: "
                    DeadlineExceeded "")),
         set_finalActionErr
           (Some (Wrap "fetching SSHAction from https://ctrl/next?u=alice: "
                    DeadlineExceeded "")) aliceHeld),
        slowControl).
Proof.
  refine (proj2 (proj2 (proj2 (proj2
    (resolveNextAction_error_sticks delegateWorld aliceHeld _
       (serverWithRounds []) (serverWithRounds []) None _ eq_refl eq_refl _))))
    2 slowControl).
  vm_compute. reflexivity.
Defined.

(** ** The final action is terminal *)

Lemma setInfo_finalAction (E : environ) (ctx : sshContext) (c c' : conn)
    (r : option error) :
  setInfo E ctx c = (r, c') -> finalAction c' = finalAction c.
Proof.
  unfold setInfo. destruct (info c).
  - intros H. injection H as _ <-. reflexivity.
  - destruct (negb _); [intros H; injection H as _ <-; reflexivity|].
    destruct (negb _); [intros H; injection H as _ <-; reflexivity|].
    destruct (WhoIs E _) as [[n up]|];
      intros H; injection H as _ <-; reflexivity.
Qed.

Lemma doPolicyAuth_terminal (E : environ) (ctx : sshContext)
    (key : option PublicKey) (c c' : conn) (s s' : server)
    (r : option error) :
  finalIsTerminal c ->
  doPolicyAuth E ctx key c s = Ok ((r, c'), s') ->
  finalIsTerminal c'.
Proof.
  intros Hc H. unfold doPolicyAuth in H.
  destruct (setInfo E ctx c) as [oe c0] eqn:Hset.
  apply setInfo_finalAction in Hset.
  assert (Hc0 : finalIsTerminal c0).
  { unfold finalIsTerminal. now rewrite Hset. }
  clear Hset Hc. destruct oe.
  { unfold ret in H. injection H as _ <- _. exact Hc0. }
  unfold bind at 1 in H.
  destruct (evaluatePolicy E c0 key s) as [[[err|[a lu]] s0]|]; [| |discriminate].
  - unfold bind in H.
    destruct (match key with
              | Some _ => ret false
              | None => havePubKeyPolicy E c0
              end s0) as [[[|] s2]|]; [| |discriminate];
      unfold ret in H; injection H as _ <- _; exact Hc0.
  - assert (Hm : finalIsTerminal (set_matched a key c0)) by exact Hc0.
    destruct (if nonEmpty (Message a) then SendAuthBanner ctx (Message a)
              else None).
    { unfold ret in H. injection H as _ <- _. exact Hm. }
    assert (Hacc : forall b, Accept a || b = true \/ Reject a = true ->
                   Accept a = true \/ Reject a = true ->
                   finalIsTerminal (set_finalAction (Some a)
                                      (set_matched a key c0))).
    { intros b _ Hterm a' Ha'. simpl in Ha'. injection Ha' as <-.
      destruct Hterm as [-> | ->]; [reflexivity | apply orb_true_r]. }
    destruct (Accept a || nonEmpty (HoldAndDelegate a)) eqn:Hgo.
    + assert (Hfin : finalIsTerminal
                       (if Accept a
                        then set_finalAction (Some a) (set_matched a key c0)
                        else set_matched a key c0)).
      { destruct (Accept a) eqn:Ha; [|exact Hm].
        apply (Hacc true); auto. }
      destruct (user_Lookup E lu) as [e|u].
      { unfold ret in H. injection H as _ <- _. exact Hfin. }
      destruct (GroupIds E u) as [e|gids];
        unfold ret in H; injection H as _ <- _; exact Hfin.
    + destruct (Reject a) eqn:Hr; unfold ret in H; injection H as _ <- _.
      * apply (Hacc true); auto.
      * exact Hm.
Qed.

Lemma resolveNextAction_terminal (E : environ) (c c' : conn) (s s' : server)
    (oa : option SSHAction) (oe : option error) :
  finalIsTerminal c ->
  resolveNextAction E c s = Ok ((oa, oe, c'), s') ->
  finalIsTerminal c'.
Proof.
  intros Hc H. unfold resolveNextAction in H.
  assert (Hrec : forall a e, finalIsTerminal (recordResolution a e c)).
  { intros a e. unfold recordResolution.
    assert (Hinner : finalIsTerminal
              match a with
              | Some a0 =>
                  if Accept a0 || Reject a0
                  then set_finalAction (Some a0)
                         (set_currentAction (Some a0) c)
                  else set_currentAction (Some a0) c
              | None => c
              end).
    { destruct a as [a0|]; [|exact Hc].
      destruct (Accept a0 || Reject a0) eqn:Ht; [|exact Hc].
      intros a' Ha'. simpl in Ha'. now injection Ha' as <-. }
    destruct e; exact Hinner. }
  destruct (finalAction c) as [fa|] eqn:Hfa.
  { unfold ret in H. injection H as _ _ <- _. exact Hc. }
  destruct (finalActionErr c) as [fe|].
  { unfold ret in H. injection H as _ _ <- _. exact Hc. }
  destruct (currentAction c) as [action|]; [|discriminate].
  destruct (Accept action || Reject action).
  { unfold ret in H. injection H as _ _ <- _.
    exact (Hrec (Some action) None). }
  destruct (String.eqb (HoldAndDelegate action) "").
  { unfold ret in H. injection H as _ _ <- _. exact (Hrec None (Some _)). }
  unfold bind in H.
  destruct (expandDelegateURLLocked E c _ s) as [[url s1]|]; [|discriminate].
  destruct (fetchSSHAction E url s1) as [[[err|next] s2]|]; [| |discriminate];
    unfold ret in H; injection H as _ _ <- _.
  - exact (Hrec None (Some _)).
  - exact (Hrec (Some next) None).
Qed.

Lemma isAuthorized_loop_terminal (E : environ) (ctx : sshContext)
    (fuel : nat) :
  forall (action : SSHAction) (c c' : conn) (s s' : server)
         (r : option error),
    finalIsTerminal c ->
    isAuthorized_loop E fuel ctx action c s = Ok (Some (r, c'), s') ->
    finalIsTerminal c'.
Proof.
  induction fuel as [|fuel IH]; intros action c c' s s' r Hc H;
    [discriminate|].
  simpl in H. destruct (Accept action).
  { unfold ret in H. injection H as _ <- _. exact Hc. }
  destruct (Reject action || String.eqb (HoldAndDelegate action) "").
  { unfold ret in H. injection H as _ <- _. exact Hc. }
  unfold bind in H.
  destruct (resolveNextAction E c s) as [[[[oa oe] c1] s1]|] eqn:Hres;
    [|discriminate].
  apply resolveNextAction_terminal in Hres; [|exact Hc].
  destruct oe as [e|].
  { destruct oa; unfold ret in H; injection H as _ <- _; exact Hres. }
  destruct oa as [next|]; [|discriminate].
  destruct (if nonEmpty (Message next) then SendAuthBanner ctx (Message next)
            else None).
  { unfold ret in H. injection H as _ <- _. exact Hres. }
  eapply IH; eassumption.
Qed.

(** Whatever the two handshake callbacks return, a final action stored
    on the connection accepts or rejects: a connection that starts
    without a final action (or with a terminal one) never holds a final
    action that neither accepts nor rejects. *)
Theorem final_action_stays_terminal (E : environ) (fuel : nat)
    (ctx : sshContext) (key : PublicKey) (c c' : conn) (s s' : server)
    (r : option error) :
  finalIsTerminal c ->
  (NoClientAuthCallback E fuel ctx c s = Ok (Some (r, c'), s')
   \/ PublicKeyHandler E fuel ctx key c s = Ok (Some (r, c'), s')) ->
  finalIsTerminal c'.
Proof.
  intros Hc [H|H].
  - unfold NoClientAuthCallback in H.
    destruct (insecureSkipTailscaleAuth c).
    { unfold ret in H. injection H as _ <- _. exact Hc. }
    unfold bind at 1 in H.
    destruct (doPolicyAuth E ctx None c s) as [[[oe c1] s1]|] eqn:Hauth;
      [|discriminate].
    apply doPolicyAuth_terminal in Hauth; [|exact Hc].
    destruct oe.
    { unfold ret in H. injection H as _ <- _. exact Hauth. }
    unfold bind in H. unfold isAuthorized in H.
    destruct (currentAction c1) as [action|]; [|discriminate].
    destruct (isAuthorized_loop E fuel ctx action c1 s1)
      as [[[[oe c2]|] s2]|] eqn:Hloop; try discriminate.
    apply isAuthorized_loop_terminal in Hloop; [|exact Hauth].
    destruct oe.
    { unfold ret in H. injection H as _ <- _. exact Hloop. }
    destruct (HasSuffix (ctx_User ctx) forcePasswordSuffix);
      unfold ret in H; injection H as _ <- _; exact Hloop.
  - unfold PublicKeyHandler in H. unfold bind in H.
    destruct (doPolicyAuth E ctx (Some key) c s) as [[[oe c1] s1]|] eqn:Hauth;
      [|discriminate].
    apply doPolicyAuth_terminal in Hauth; [|exact Hc].
    destruct oe.
    { unfold ret in H. injection H as _ <- _. exact Hauth. }
    unfold isAuthorized in H.
    destruct (currentAction c1) as [action|]; [|discriminate].
    eapply isAuthorized_loop_terminal; eassumption.
Qed.

Lemma final_action_stays_terminal_witness :
  finalIsTerminal aliceResolved.
Proof.
  apply (final_action_stays_terminal delegateWorld 3 (ctxFor "alice") abcKey
           aliceConn aliceResolved slowControl slowControlDone None).
  - intros a H. discriminate.
  - left. vm_compute. reflexivity.
Defined.

(** ** Policy evaluation without a key *)

Lemma onlyClock_refl (s : server) : onlyClock s s.
Proof. exists (clockReads s). split; [lia|]. now destruct s. Qed.

Lemma onlyClock_trans (s1 s2 s3 : server) :
  onlyClock s1 s2 -> onlyClock s2 s3 -> onlyClock s1 s3.
Proof.
  intros (n & Hn & ->) (m & Hm & ->). exists m. simpl in Hm.
  split; [lia | reflexivity].
Qed.

Lemma ruleExpired_onlyClock (E : environ) (r : SSHRule) (s s' : server)
    (b : bool) :
  ruleExpired E r s = Ok (b, s') -> onlyClock s s'.
Proof.
  unfold ruleExpired. destruct (RuleExpires r); unfold_monad; unfold now;
    intros H; injection H as _ <-.
  - exists (S (clockReads s)). split; [lia | reflexivity].
  - apply onlyClock_refl.
Qed.

Lemma principalMatchesTailscaleIdentity_state (E : environ) (c : conn)
    (p : SSHPrincipal) (s s' : server) (b : bool) :
  principalMatchesTailscaleIdentity E c p s = Ok (b, s') -> s' = s.
Proof.
  unfold principalMatchesTailscaleIdentity. unfold_monad.
  destruct (Any p); [intros H; now injection H as _ <-|].
  destruct (info c) as [ci|].
  - destruct (nonEmpty (Node p) && _); [intros H; now injection H as _ <-|].
    destruct (nonEmpty (NodeIP p) && _); intros H; now injection H as _ <-.
  - destruct (nonEmpty (Node p) || nonEmpty (NodeIP p)
              || nonEmpty (UserLogin p)); [discriminate|].
    intros H; now injection H as _ <-.
Qed.

Lemma principalMatchesPubKey_nokey (E : environ) (c : conn)
    (p : SSHPrincipal) (s : server) :
  principalMatchesPubKey E c p None s
  = Ok ((match PubKeys p with [] => true | _ :: _ => false end, None), s).
Proof. unfold principalMatchesPubKey. destruct (PubKeys p); reflexivity. Qed.

Lemma anyPrincipalMatches_nokey_state (E : environ) (c : conn)
    (ps : list (option SSHPrincipal)) (s s' : server)
    (r : bool * option error) :
  anyPrincipalMatches E c ps None s = Ok (r, s') -> s' = s /\ snd r = None.
Proof.
  induction ps as [|[p|] ps IH]; simpl.
  - unfold ret. intros H. now injection H as <- <-.
  - unfold bind, principalMatches. unfold bind.
    destruct (principalMatchesTailscaleIdentity E c p s) as [[b s1]|] eqn:Hid;
      [|discriminate].
    apply principalMatchesTailscaleIdentity_state in Hid. subst s1.
    destruct b.
    + rewrite principalMatchesPubKey_nokey.
      destruct (PubKeys p); [|exact IH].
      unfold ret. intros H. now injection H as <- <-.
    + unfold ret. exact IH.
  - exact IH.
Qed.

Lemma matchRule_nokey_onlyClock (E : environ) (c : conn)
    (r : option SSHRule) (s s' : server) (m : error + SSHAction * string) :
  matchRule E c r None s = Ok (m, s') -> onlyClock s s'.
Proof.
  unfold matchRule.
  destruct (info c) as [ci|];
    [|unfold ret; intros H; injection H as _ <-; apply onlyClock_refl].
  destruct r as [r|];
    [|unfold ret; intros H; injection H as _ <-; apply onlyClock_refl].
  destruct (Action r) as [a|];
    [|unfold ret; intros H; injection H as _ <-; apply onlyClock_refl].
  unfold bind at 1.
  destruct (ruleExpired E r s) as [[expired s1]|] eqn:Hexp; [|discriminate].
  apply ruleExpired_onlyClock in Hexp.
  destruct expired; [unfold ret; intros H; injection H as _ <-; exact Hexp|].
  destruct (negb (Reject a) && String.eqb _ "");
    [unfold ret; intros H; injection H as _ <-; exact Hexp|].
  unfold bind.
  destruct (anyPrincipalMatches E c (Principals r) None s1)
    as [[[b e] s2]|] eqn:Hany; [|discriminate].
  apply anyPrincipalMatches_nokey_state in Hany as [-> _].
  destruct b, e; unfold ret; intros H; injection H as _ <-; exact Hexp.
Qed.

Lemma evalSSHPolicy_rules_nokey_onlyClock (E : environ) (c : conn)
    (rules : list (option SSHRule)) :
  forall (s s' : server) (m : option (SSHAction * string)),
    evalSSHPolicy_rules E c rules None s = Ok (m, s') -> onlyClock s s'.
Proof.
  induction rules as [|r rules IH]; intros s s' m; simpl.
  - unfold ret. intros H. injection H as _ <-. apply onlyClock_refl.
  - unfold bind.
    destruct (matchRule E c r None s) as [[[e|found] s1]|] eqn:Hm;
      [| |discriminate]; apply matchRule_nokey_onlyClock in Hm.
    + intros H. apply IH in H. eapply onlyClock_trans; eassumption.
    + unfold ret. intros H. injection H as _ <-. exact Hm.
Qed.

Lemma evaluatePolicy_nokey_onlyClock (E : environ) (c : conn)
    (s s' : server) (m : error + SSHAction * string) :
  evaluatePolicy E c None s = Ok (m, s') -> onlyClock s s'.
Proof.
  unfold evaluatePolicy, evalSSHPolicy.
  destruct (sshPolicy E) as [pol|];
    [|unfold ret; intros H; injection H as _ <-; apply onlyClock_refl].
  unfold bind.
  destruct (evalSSHPolicy_rules E c (Rules pol) None s) as [[found s1]|] eqn:He;
    [|discriminate].
  apply evalSSHPolicy_rules_nokey_onlyClock in He.
  destruct found; unfold ret; intros H; injection H as _ <-; exact He.
Qed.

Lemma anyPubKeyPrincipal_state (E : environ) (c : conn)
    (ps : list (option SSHPrincipal)) (s s' : server) (b : bool) :
  anyPubKeyPrincipal E c ps s = Ok (b, s') -> s' = s.
Proof.
  induction ps as [|[p|] ps IH]; simpl.
  - unfold ret. intros H. now injection H as _ <-.
  - destruct (PubKeys p); [exact IH|]. unfold bind.
    destruct (principalMatchesTailscaleIdentity E c p s) as [[ok s1]|] eqn:Hid;
      [|discriminate].
    apply principalMatchesTailscaleIdentity_state in Hid. subst s1.
    destruct ok; [|exact IH]. unfold ret. intros H. now injection H as _ <-.
  - discriminate.
Qed.

Lemma havePubKeyPolicy_rules_onlyClock (E : environ) (c : conn)
    (ci : sshConnInfo) (rules : list (option SSHRule)) :
  forall (s s' : server) (b : bool),
    havePubKeyPolicy_rules E c ci rules s = Ok (b, s') -> onlyClock s s'.
Proof.
  induction rules as [|[r|] rules IH]; intros s s' b; simpl.
  - unfold ret. intros H. injection H as _ <-. apply onlyClock_refl.
  - unfold bind at 1.
    destruct (ruleExpired E r s) as [[expired s1]|] eqn:Hexp; [|discriminate].
    apply ruleExpired_onlyClock in Hexp.
    assert (Hrest : havePubKeyPolicy_rules E c ci rules s1 = Ok (b, s') ->
                    onlyClock s s').
    { intros H. apply IH in H. eapply onlyClock_trans; eassumption. }
    destruct expired; [exact Hrest|].
    destruct (String.eqb _ ""); [exact Hrest|].
    unfold bind.
    destruct (anyPubKeyPrincipal E c (Principals r) s1) as [[found s2]|] eqn:Ha;
      [|discriminate].
    apply anyPubKeyPrincipal_state in Ha. subst s2.
    destruct found; [|exact Hrest].
    unfold ret. intros H. injection H as _ <-. exact Hexp.
  - discriminate.
Qed.

(** The policy check of the none-auth callback touches nothing but the
    clock: whatever [doPolicyAuth] returns without a key, no key list is
    fetched, the key cache is as it was, and no request goes to the
    control plane. *)
Theorem doPolicyAuth_nokey_only_reads_clock (E : environ) (ctx : sshContext)
    (c : conn) (s s' : server) (r : option error * conn) :
  doPolicyAuth E ctx None c s = Ok (r, s') ->
  pubKeyRequests s' = pubKeyRequests s
  /\ fetchPublicKeysCache s' = fetchPublicKeysCache s
  /\ noiseRequests s' = noiseRequests s
  /\ noiseRounds s' = noiseRounds s
  /\ shutdownCalled s' = shutdownCalled s
  /\ (clockReads s <= clockReads s')%nat.
Proof.
  intros H.
  assert (Hclock : onlyClock s s').
  { unfold doPolicyAuth in H.
    destruct (setInfo E ctx c) as [[e|] c0].
    { unfold ret in H. injection H as _ <-. apply onlyClock_refl. }
    unfold bind at 1 in H.
    destruct (evaluatePolicy E c0 None s) as [[[err|[a lu]] s0]|] eqn:Heval;
      [| |discriminate]; apply evaluatePolicy_nokey_onlyClock in Heval.
    - unfold bind in H. unfold havePubKeyPolicy in H.
      destruct (info c0) as [ci|]; [|discriminate].
      destruct (sshPolicy E) as [pol|].
      + destruct (havePubKeyPolicy_rules E c0 ci (Rules pol) s0)
          as [[need s1]|] eqn:Hhave; [|discriminate].
        apply havePubKeyPolicy_rules_onlyClock in Hhave.
        destruct need; unfold ret in H; injection H as _ <-;
          eapply onlyClock_trans; eassumption.
      + unfold ret in H. injection H as _ <-. exact Heval.
    - destruct (if nonEmpty (Message a) then SendAuthBanner ctx (Message a)
                else None).
      { unfold ret in H. injection H as _ <-. exact Heval. }
      destruct (Accept a || nonEmpty (HoldAndDelegate a)).
      + destruct (user_Lookup E lu) as [e|u].
        { unfold ret in H. injection H as _ <-. exact Heval. }
        destruct (GroupIds E u); unfold ret in H; injection H as _ <-;
          exact Heval.
      + destruct (Reject a); unfold ret in H; injection H as _ <-;
          exact Heval. }
  destruct Hclock as (n & Hn & ->). simpl. repeat split; auto.
Qed.

Lemma doPolicyAuth_nokey_only_reads_clock_witness :
  pubKeyRequests (set_clockReads 1 slowControl) = pubKeyRequests slowControl
  /\ fetchPublicKeysCache (set_clockReads 1 slowControl)
     = fetchPublicKeysCache slowControl
  /\ noiseRequests (set_clockReads 1 slowControl) = noiseRequests slowControl
  /\ noiseRounds (set_clockReads 1 slowControl) = noiseRounds slowControl
  /\ shutdownCalled (set_clockReads 1 slowControl)
     = shutdownCalled slowControl
  /\ (clockReads slowControl <= clockReads (set_clockReads 1 slowControl))%nat.
Proof.
  apply (doPolicyAuth_nokey_only_reads_clock expiringWorld (ctxFor "alice")
           aliceConn slowControl (set_clockReads 1 slowControl)
           (None, aliceAccepted)).
  vm_compute. reflexivity.
Defined.

Lemma anyPrincipalMatches_nokey (E : environ) (c : conn) (ci : sshConnInfo)
    (ps : list (option SSHPrincipal)) (s : server) :
  info c = Some ci ->
  anyPrincipalMatches E c ps None s
  = Ok ((existsb (keylessPrincipal E ci) ps, None), s).
Proof.
  intros Hci. induction ps as [|[p|] ps IH]; simpl; [reflexivity| |exact IH].
  unfold bind, principalMatches. unfold bind.
  rewrite (principalMatchesTailscaleIdentity_info E c ci p s Hci).
  destruct (identityMatches E ci p); simpl; [|exact IH].
  rewrite principalMatchesPubKey_nokey.
  destruct (PubKeys p); [reflexivity | exact IH].
Qed.

Lemma matchRule_nokey (E : environ) (c : conn) (ci : sshConnInfo) (t : Time)
    (r : option SSHRule) (s : server) :
  info c = Some ci ->
  (forall n, timeNow E n = t) ->
  exists s', matchRule E c r None s = Ok (ruleOutcome E ci t r, s').
Proof.
  intros Hci Hclock. unfold matchRule, ruleOutcome. rewrite Hci.
  destruct r as [r|]; [|unfold ret; eauto].
  destruct (Action r) as [a|]; [|unfold ret; eauto].
  destruct (ruleExpired_steady E t r s Hclock) as [s1 Hexp].
  unfold bind at 1. rewrite Hexp.
  destruct (expiredAt t r); [unfold ret; eauto|].
  destruct (negb (Reject a) && String.eqb _ ""); [unfold ret; eauto|].
  unfold bind. rewrite (anyPrincipalMatches_nokey E c ci _ s1 Hci).
  destruct (existsb (keylessPrincipal E ci) (Principals r)); unfold ret; eauto.
Qed.

Lemma evalSSHPolicy_rules_nokey (E : environ) (c : conn) (ci : sshConnInfo)
    (t : Time) (rules : list (option SSHRule)) :
  info c = Some ci ->
  (forall n, timeNow E n = t) ->
  forall s, exists s',
    evalSSHPolicy_rules E c rules None s = Ok (firstOutcome E ci t rules, s').
Proof.
  intros Hci Hclock. induction rules as [|r rules IH]; intros s; simpl.
  - unfold ret. eauto.
  - destruct (matchRule_nokey E c ci t r s Hci Hclock) as [s1 Hm].
    unfold bind. rewrite Hm.
    destruct (ruleOutcome E ci t r); [apply IH | unfold ret; eauto].
Qed.

Lemma firstOutcome_first (E : environ) (ci : sshConnInfo) (t : Time)
    (pre post : list (option SSHRule)) (r : option SSHRule)
    (found : SSHAction * string) :
  Forall (fun r' => exists e, ruleOutcome E ci t r' = inl e) pre ->
  ruleOutcome E ci t r = inr found ->
  firstOutcome E ci t (pre ++ r :: post)%list = Some found.
Proof.
  intros Hpre Hr. induction Hpre as [|r' pre [e He] _ IH]; simpl.
  - now rewrite Hr.
  - now rewrite He.
Qed.

Lemma firstOutcome_none (E : environ) (ci : sshConnInfo) (t : Time)
    (rules : list (option SSHRule)) :
  Forall (fun r' => exists e, ruleOutcome E ci t r' = inl e) rules ->
  firstOutcome E ci t rules = None.
Proof.
  intros H. induction H as [|r' rules [e He] _ IH]; simpl; [reflexivity|].
  now rewrite He.
Qed.

(** Without a key and read at one instant, the policy gives what its
    first matching rule gives, whatever the rules after it say: the rules
    before it are those without action, expired, not mapping the user
    (unless they reject) or without a keyless principal for the identity.
    When no rule matches, the evaluation fails. *)
Theorem evaluatePolicy_first_match (E : environ) (c : conn)
    (ci : sshConnInfo) (t : Time) (pol : SSHPolicy) (s : server) :
  info c = Some ci ->
  (forall n, timeNow E n = t) ->
  sshPolicy E = Some pol ->
  (forall pre r post found,
     Rules pol = (pre ++ r :: post)%list ->
     Forall (fun r' => exists e, ruleOutcome E ci t r' = inl e) pre ->
     ruleOutcome E ci t r = inr found ->
     exists s', evaluatePolicy E c None s = Ok (inr found, s'))
  /\ (Forall (fun r' => exists e, ruleOutcome E ci t r' = inl e) (Rules pol) ->
      exists e s', evaluatePolicy E c None s = Ok (inl e, s')).
Proof.
  intros Hci Hclock Hpol.
  destruct (evalSSHPolicy_rules_nokey E c ci t (Rules pol) Hci Hclock s)
    as [s' Heval].
  unfold evaluatePolicy, evalSSHPolicy. rewrite Hpol. unfold bind.
  rewrite Heval. split.
  - intros pre r post found Hrules Hpre Hr.
    rewrite Hrules, (firstOutcome_first E ci t pre post r found Hpre Hr).
    unfold ret. eauto.
  - intros Hnone. rewrite (firstOutcome_none E ci t _ Hnone).
    unfold ret. eauto.
Qed.

Lemma evaluatePolicy_first_match_witness :
  exists s',
    evaluatePolicy layeredWorld aliceConn None (idleServer ∅)
    = Ok (inr (acceptAction, "alice"), s').
Proof.
  refine (proj1 (evaluatePolicy_first_match layeredWorld aliceConn aliceInfo
                   noon layeredPolicy (idleServer ∅) eq_refl
                   (fun _ => eq_refl) eq_refl)
            (Rules keyRuleForAll) _ _ (acceptAction, "alice") eq_refl _ _).
  - repeat constructor. eexists. vm_compute. reflexivity.
  - vm_compute. reflexivity.
Defined.

Lemma evaluatePolicy_nokey (E : environ) (c : conn) (ci : sshConnInfo)
    (t : Time) (pol : SSHPolicy) (s : server) :
  info c = Some ci ->
  (forall n, timeNow E n = t) ->
  sshPolicy E = Some pol ->
  exists s',
    evaluatePolicy E c None s
    = Ok (match firstOutcome E ci t (Rules pol) with
          | Some found => inr found
          | None => inl (errorString
                           "tailssh: rejecting connection; no matching policy")
          end, s').
Proof.
  intros Hci Hclock Hpol.
  destruct (evalSSHPolicy_rules_nokey E c ci t (Rules pol) Hci Hclock s)
    as [s' Heval].
  unfold evaluatePolicy, evalSSHPolicy. rewrite Hpol. unfold bind.
  rewrite Heval. destruct (firstOutcome E ci t (Rules pol)); unfold ret; eauto.
Qed.

(** A rule that rejects needs no user mapping.  When the first rule of
    the policy has an action that rejects and neither accepts nor
    delegates, has not expired at the clock read made for it, and has a
    principal without keys that fits the identity, [doPolicyAuth]
    without a key stores the action as first and current action, for
    every requested user and whatever the account database holds.  If
    the action has a message and the banner cannot be sent, the banner's
    error is returned, wrapped; otherwise the answer is the plain denial
    and the action is the final action. *)
Theorem doPolicyAuth_leading_reject (E : environ) (ctx : sshContext)
    (c : conn) (ci : sshConnInfo) (pol : SSHPolicy)
    (r : SSHRule) (post : list (option SSHRule)) (a : SSHAction)
    (s : server) :
  info c = Some ci ->
  sshPolicy E = Some pol ->
  Rules pol = Some r :: post ->
  Action r = Some a ->
  Reject a = true -> Accept a = false -> HoldAndDelegate a = "" ->
  expiredAt (timeNow E (clockReads s)) r = false ->
  existsb (keylessPrincipal E ci) (Principals r) = true ->
  exists s',
    doPolicyAuth E ctx None c s
    = Ok (match (if nonEmpty (Message a)
                 then SendAuthBanner ctx (Message a) else None) with
          | Some err =>
              (Some (Wrap "SendBanner: " err ""), set_matched a None c)
          | None =>
              (Some ErrDenied,
               set_finalAction (Some a) (set_matched a None c))
          end, s').
Proof.
  intros Hci Hpol Hrules Ha Hrej Hacc Hhold Hexp Hp.
  destruct (ruleExpired_run E r s) as (s1 & Hrun & _).
  rewrite Hexp in Hrun.
  assert (Heval : evaluatePolicy E c None s = Ok (inr (a, ""), s1)).
  { unfold evaluatePolicy, evalSSHPolicy. rewrite Hpol, Hrules.
    cbn [evalSSHPolicy_rules]. unfold bind at 1. unfold bind at 1.
    unfold matchRule. rewrite Hci, Ha. unfold bind at 1. rewrite Hrun.
    rewrite Hrej. cbn [negb andb]. unfold bind at 1.
    rewrite (anyPrincipalMatches_nokey E c ci _ s1 Hci), Hp.
    reflexivity. }
  unfold doPolicyAuth, setInfo. rewrite Hci. unfold bind. rewrite Heval.
  rewrite Hacc, Hhold, Hrej. simpl.
  exists s1.
  destruct (if nonEmpty (Message a) then SendAuthBanner ctx (Message a)
            else None); reflexivity.
Qed.

Lemma doPolicyAuth_leading_reject_witness :
  (exists s',
     doPolicyAuth rejectWorld (ctxFor "nobody") None aliceConn (idleServer ∅)
     = Ok ((Some ErrDenied,
            set_finalAction (Some rejectAction)
              (set_matched rejectAction None aliceConn)), s'))
  /\ (exists s',
        doPolicyAuth rejectWorld (bannerBroken "nobody") None aliceConn
          (idleServer ∅)
        = Ok ((Some (Wrap "SendBanner: " (errorString "connection lost") ""),
               set_matched rejectAction None aliceConn), s')).
Proof.
  split.
  - refine (doPolicyAuth_leading_reject rejectWorld (ctxFor "nobody")
              aliceConn aliceInfo _ _ [] rejectAction (idleServer ∅) eq_refl
              eq_refl eq_refl eq_refl eq_refl eq_refl eq_refl eq_refl
              eq_refl).
  - refine (doPolicyAuth_leading_reject rejectWorld (bannerBroken "nobody")
              aliceConn aliceInfo _ _ [] rejectAction (idleServer ∅) eq_refl
              eq_refl eq_refl eq_refl eq_refl eq_refl eq_refl eq_refl
              eq_refl).
Defined.

(** ** Checking a connection again after a policy change *)

(** A connection that [doPolicyAuth] has just let through without a key
    is still valid when the policy and the clock read are the same,
    provided the account database answers a lookup with the account of
    that name: [isStillValid] reports true and [checkStillValid] closes
    no session. *)
Theorem still_valid_after_auth (E : environ) (ctx : sshContext) (t : Time)
    (c c1 : conn) (s s1 s2 : server) :
  (forall n, timeNow E n = t) ->
  (forall name u, user_Lookup E name = inr u -> Username u = name) ->
  doPolicyAuth E ctx None c s = Ok ((None, c1), s1) ->
  exists s3,
    isStillValid E c1 s2 = Ok (true, s3)
    /\ checkStillValid E c1 s2 = Ok ([], s3).
Proof.
  intros Hclock Hlookup Hauth.
  destruct (doPolicyAuth_ok_inv E ctx None c c1 s s1 Hauth)
    as (c0 & a & lu & u & gids & Hset & Heval & Hgo & Hu & _ & Hc1).
  destruct (setInfo_ok_keeps E ctx c c0 Hset) as (Hinfo0 & _).
  destruct (info c0) as [ci|] eqn:Hci; [clear Hinfo0 | congruence].
  assert (Hpol : exists pol, sshPolicy E = Some pol).
  { unfold evaluatePolicy in Heval. destruct (sshPolicy E); [eauto|].
    discriminate. }
  destruct Hpol as [pol Hpol].
  destruct (evaluatePolicy_nokey E c0 ci t pol s Hci Hclock Hpol) as [sa Ha].
  rewrite Ha in Heval. injection Heval as Hout _.
  assert (Hci1 : info c1 = Some ci).
  { subst c1. destruct (Accept a); exact Hci. }
  assert (Hkey1 : pubKey c1 = None).
  { subst c1. destruct (Accept a); reflexivity. }
  assert (Hlu1 : localUser c1 = Some u).
  { subst c1. reflexivity. }
  destruct (evaluatePolicy_nokey E c1 ci t pol s2 Hci1 Hclock Hpol)
    as [s3 Heval1].
  rewrite Hout in Heval1.
  assert (Hvalid : isStillValid E c1 s2 = Ok (true, s3)).
  { unfold isStillValid. rewrite Hkey1. unfold bind. rewrite Heval1.
    rewrite Hlu1. unfold nonEmpty in Hgo.
    destruct (Accept a); simpl in *.
    - unfold ret. now rewrite (Hlookup lu u Hu), String.eqb_refl.
    - rewrite negb_true_iff in Hgo. rewrite Hgo.
      unfold ret. now rewrite (Hlookup lu u Hu), String.eqb_refl. }
  exists s3. split; [exact Hvalid|].
  unfold checkStillValid. unfold bind. now rewrite Hvalid.
Qed.

Lemma still_valid_after_auth_witness :
  exists s3,
    isStillValid openWorld aliceAccepted slowControl = Ok (true, s3)
    /\ checkStillValid openWorld aliceAccepted slowControl = Ok ([], s3).
Proof.
  apply (still_valid_after_auth openWorld (ctxFor "alice") noon aliceConn
           aliceAccepted (idleServer ∅) (idleServer ∅) slowControl).
  - reflexivity.
  - intros name u H. injection H as <-. reflexivity.
  - vm_compute. reflexivity.
Defined.

(** A connection authorized without a key is revoked, with the policy
    read at one instant, when no rule matches it any more, when the first
    matching rule neither accepts nor delegates, or when that rule maps
    the requested user to another local user than the one in use: every
    session of the connection is closed with the message
    [Access revoked.] and a line end. *)
Theorem checkStillValid_revokes (E : environ) (c : conn) (ci : sshConnInfo)
    (t : Time) (pol : SSHPolicy) (s : server) :
  info c = Some ci ->
  pubKey c = None ->
  (forall n, timeNow E n = t) ->
  sshPolicy E = Some pol ->
  firstOutcome E ci t (Rules pol) = None
  \/ (exists a lu, firstOutcome E ci t (Rules pol) = Some (a, lu)
                   /\ Accept a = false /\ HoldAndDelegate a = "")
  \/ (exists a lu u, firstOutcome E ci t (Rules pol) = Some (a, lu)
                     /\ localUser c = Some u /\ Username u <> lu) ->
  exists s',
    checkStillValid E c s
    = Ok (map (fun ss => (ss, "Access revoked." ++ CRLF)) (sessions c), s').
Proof.
  intros Hci Hkey Hclock Hpol Hcase.
  destruct (evaluatePolicy_nokey E c ci t pol s Hci Hclock Hpol) as [s' Heval].
  exists s'. unfold checkStillValid, isStillValid. rewrite Hkey.
  unfold bind. rewrite Heval.
  destruct Hcase as [-> | [(a & lu & -> & Hacc & Hhold)
                          | (a & lu & u & -> & Hu & Hne)]].
  - reflexivity.
  - rewrite Hacc, Hhold. reflexivity.
  - rewrite Hu. destruct (negb (Accept a) && _); [reflexivity|].
    unfold ret. now rewrite string_eqb_false.
Qed.

Lemma checkStillValid_revokes_witness :
  exists s',
    checkStillValid rejectWorld aliceWithShell (idleServer ∅)
    = Ok ([(shellSession, "Access revoked." ++ CRLF)], s').
Proof.
  apply (checkStillValid_revokes rejectWorld aliceWithShell aliceInfo noon
           {| Rules := [Some {| RuleExpires := None;
                                Principals := [Some anyone];
                                SSHUsers := ∅;
                                Action := Some rejectAction |}] |}
           (idleServer ∅)); try reflexivity.
  right. left. exists rejectAction, "". repeat split.
Defined.

(** ** Fetching key lists *)

Lemma now_run (E : environ) (s : server) :
  now E s = Ok (timeNow E (clockReads s), set_clockReads (S (clockReads s)) s).
Proof. reflexivity. Qed.

(** A list that [fetchPublicKeysURLCached] reports as fresh is the entry
    the cache held for the URL, and at the clock read of the call it is
    younger than a minute, or than 15 seconds when it has no lines.  The
    call never adds or alters an entry, and sends nothing. *)
Theorem fetchPublicKeysURLCached_fresh (E : environ) (url : string)
    (s s1 : server) (ce : pubKeyCacheEntry) (ok : bool) :
  fetchPublicKeysURLCached E url s = Ok ((ce, ok), s1) ->
  (forall k e, fetchPublicKeysCache s1 !! k = Some e ->
               fetchPublicKeysCache s !! k = Some e)
  /\ pubKeyRequests s1 = pubKeyRequests s
  /\ (ok = true ->
      fetchPublicKeysCache s !! url = Some ce
      /\ exists n, (clockReads s <= n < clockReads s1)%nat
           /\ (Time_Sub (timeNow E n) (at_ ce)
               < match lines ce with
                 | [] => 15 * Second
                 | _ :: _ => 60 * Second
                 end)%Z).
Proof.
  unfold fetchPublicKeysURLCached. unfold bind at 1.
  destruct (pruneCache E s) as [[u s0]|] eqn:Hprune; [|discriminate].
  assert (Hs0 : (forall k e, fetchPublicKeysCache s0 !! k = Some e ->
                             fetchPublicKeysCache s !! k = Some e)
                /\ pubKeyRequests s0 = pubKeyRequests s
                /\ (clockReads s <= clockReads s0)%nat).
  { unfold pruneCache, bind, ret, get, modify, now in Hprune.
    destruct (50 <? size (fetchPublicKeysCache s))%nat;
      injection Hprune as _ <-; simpl.
    - split; [|split; [reflexivity | lia]].
      intros k e H. apply map_lookup_filter_Some in H. tauto.
    - split; [|split; [reflexivity | lia]]. auto. }
  destruct Hs0 as (Hsub & Hreq & Hclock). unfold_monad.
  destruct (fetchPublicKeysCache s0 !! url) as [e|] eqn:Hlook.
  - rewrite now_run. intros H. injection H as <- <- <-. simpl.
    split; [exact Hsub|]. split; [exact Hreq|]. intros Hfresh.
    split; [now apply Hsub|].
    exists (clockReads s0). split; [lia|].
    apply Z.ltb_lt in Hfresh.
    unfold pubKeyCacheEmptyDuration, pubKeyCacheDuration, Minute in Hfresh.
    destruct (lines e); exact Hfresh.
  - intros H. injection H as <- <- <-.
    split; [exact Hsub|]. split; [exact Hreq|]. discriminate.
Qed.

Lemma fetchPublicKeysURLCached_fresh_witness :
  fetchPublicKeysCache (idleServer oneEntryCache) !! keyURL 0 = Some oldEntry
  /\ exists n, (0 <= n < 1)%nat
       /\ (Time_Sub (30 * Second) (at_ oldEntry) < 60 * Second)%Z.
Proof.
  refine (proj2 (proj2 (fetchPublicKeysURLCached_fresh
                          (world None (fun _ => (30 * Second)%Z) refusing)
                          (keyURL 0) (idleServer oneEntryCache)
                          (set_clockReads 1 (idleServer oneEntryCache))
                          oldEntry true _)) eq_refl).
  vm_compute. reflexivity.
Defined.

Lemma fetchPublicKeysURL_hit (E : environ) (url : string) (s : server)
    (ce : pubKeyCacheEntry) :
  HasPrefix url "https://" = true ->
  (size (fetchPublicKeysCache s) <= 50)%nat ->
  fetchPublicKeysCache s !! url = Some ce ->
  (Time_Sub (timeNow E (clockReads s)) (at_ ce)
   <? match lines ce with
      | [] => pubKeyCacheEmptyDuration
      | _ => pubKeyCacheDuration
      end)%Z = true ->
  fetchPublicKeysURL E url s
  = Ok ((lines ce, None), set_clockReads (S (clockReads s)) s).
Proof.
  intros Hpre Hsize Hce Hfresh. unfold fetchPublicKeysURL.
  rewrite Hpre. cbn [negb]. unfold bind at 1.
  rewrite (fetchPublicKeysURLCached_small E url s ce Hsize Hce), Hfresh.
  reflexivity.
Qed.

(** A fresh entry is served from the cache: in a cache of at most 50
    entries, a list younger than its maximum age is returned without any
    request, and the cache is left as it was. *)
Theorem fetchPublicKeysURL_cache_hit (E : environ) (url : string)
    (s : server) (ce : pubKeyCacheEntry) :
  HasPrefix url "https://" = true ->
  (size (fetchPublicKeysCache s) <= 50)%nat ->
  fetchPublicKeysCache s !! url = Some ce ->
  (Time_Sub (timeNow E (clockReads s)) (at_ ce)
   < match lines ce with
     | [] => 15 * Second
     | _ :: _ => 60 * Second
     end)%Z ->
  exists s',
    fetchPublicKeysURL E url s = Ok ((lines ce, None), s')
    /\ pubKeyRequests s' = pubKeyRequests s
    /\ fetchPublicKeysCache s' = fetchPublicKeysCache s.
Proof.
  intros Hpre Hsize Hce Hfresh. eexists. split.
  - apply (fetchPublicKeysURL_hit E url s ce Hpre Hsize Hce).
    apply Z.ltb_lt.
    unfold pubKeyCacheEmptyDuration, pubKeyCacheDuration, Minute.
    destruct (lines ce); exact Hfresh.
  - split; reflexivity.
Qed.

Lemma fetchPublicKeysURL_cache_hit_witness :
  exists s',
    fetchPublicKeysURL (world None (fun _ => (30 * Second)%Z) refusing)
      (keyURL 0) (idleServer oneEntryCache)
    = Ok ((lines oldEntry, None), s')
    /\ pubKeyRequests s' = pubKeyRequests (idleServer oneEntryCache)
    /\ fetchPublicKeysCache s' = oneEntryCache.
Proof.
  apply (fetchPublicKeysURL_cache_hit
           (world None (fun _ => (30 * Second)%Z) refusing)
           (keyURL 0) (idleServer oneEntryCache) oldEntry).
  - reflexivity.
  - vm_compute. lia.
  - vm_compute. reflexivity.
  - vm_compute. reflexivity.
Defined.

Lemma fetchPublicKeysURLCached_small_miss (E : environ) (url : string)
    (s : server) :
  (size (fetchPublicKeysCache s) <= 50)%nat ->
  fetchPublicKeysCache s !! url = None ->
  fetchPublicKeysURLCached E url s = Ok ((zeroEntry, false), s).
Proof.
  intros Hsize Hnone. unfold fetchPublicKeysURLCached.
  unfold bind at 1. rewrite pruneCache_small by assumption.
  unfold_monad. now rewrite Hnone.
Qed.

Lemma Time_Sub_self (t : Time) : Time_Sub t t = 0%Z.
Proof. unfold Time_Sub. rewrite Z.sub_diag. reflexivity. Qed.

Lemma size_insert_le {A} (m : gmap string A) (k : string) (x : A) :
  (size (<[ k := x ]> m) <= S (size m))%nat.
Proof. rewrite map_size_insert. destruct (m !! k); simpl; lia. Qed.

(** After a fetch without error, read at one instant [t], the cache
    holds for the URL an entry with the lines returned that is fresh. *)
Lemma fetchPublicKeysURL_ok_entry (E : environ) (url : string) (t : Time)
    (s s1 : server) (L : list string) :
  (forall n, timeNow E n = t) ->
  (size (fetchPublicKeysCache s) < 50)%nat ->
  fetchPublicKeysURL E url s = Ok ((L, None), s1) ->
  HasPrefix url "https://" = true
  /\ (size (fetchPublicKeysCache s1) <= 50)%nat
  /\ pubKeyRequests s = firstn (length (pubKeyRequests s)) (pubKeyRequests s1)
  /\ exists e,
       fetchPublicKeysCache s1 !! url = Some e /\ lines e = L
       /\ (Time_Sub t (at_ e)
           <? match lines e with
              | [] => pubKeyCacheEmptyDuration
              | _ => pubKeyCacheDuration
              end)%Z = true.
Proof.
  intros Hclock Hsize H. unfold fetchPublicKeysURL in H.
  destruct (HasPrefix url "https://"); [|discriminate].
  split; [reflexivity|]. cbn [negb] in H. unfold bind at 1 in H.
  assert (Hstore : forall (s0 : server) l tag,
            fetchPublicKeysCache s0 = fetchPublicKeysCache s ->
            let e := {| lines := l; etag := tag; at_ := t |} in
            (size (<[ url := e ]> (fetchPublicKeysCache s0)) <= 50)%nat
            /\ exists e', <[ url := e ]> (fetchPublicKeysCache s0) !! url
                          = Some e'
                 /\ lines e' = l
                 /\ (Time_Sub t (at_ e')
                     <? match lines e' with
                        | [] => pubKeyCacheEmptyDuration
                        | _ => pubKeyCacheDuration
                        end)%Z = true).
  { intros s0 l tag Hsame e. split.
    - rewrite Hsame. pose proof (size_insert_le (fetchPublicKeysCache s) url e).
      lia.
    - exists e. rewrite lookup_insert_eq. repeat split. simpl.
      rewrite Time_Sub_self. destruct l; reflexivity. }
  destruct (fetchPublicKeysCache s !! url) as [ce|] eqn:Hce.
  - rewrite (fetchPublicKeysURLCached_small E url s ce) in H by (lia || auto).
    rewrite Hclock in H.
    destruct (Time_Sub t (at_ ce) <? _)%Z eqn:Hfresh.
    + unfold ret in H. injection H as <- <-. simpl.
      split; [lia|]. split; [now rewrite firstn_all|]. eauto.
    + destruct (NewRequest_err E url); [discriminate|].
      unfold bind, get, modify in H. simpl in H.
      destruct (pubKeyClient_Do E _ _) as [err|r]; [discriminate|].
      destruct (interpretResponse E ce r) as [[l tag] oe].
      unfold ret, now in H. simpl in H. injection H as <- -> <-. simpl.
      rewrite Hclock.
      destruct (Hstore s l tag eq_refl) as [H1 H2].
      split; [exact H1|]. split; [|exact H2].
      now rewrite firstn_app, Nat.sub_diag, firstn_all, app_nil_r.
  - rewrite (fetchPublicKeysURLCached_small_miss E url s) in H by (lia || auto).
    destruct (NewRequest_err E url); [discriminate|].
    unfold bind, get, modify in H. simpl in H.
    destruct (pubKeyClient_Do E _ _) as [err|r]; [discriminate|].
    destruct (interpretResponse E zeroEntry r) as [[l tag] oe].
    unfold ret, now in H. simpl in H. injection H as <- -> <-. simpl.
    rewrite Hclock.
    destruct (Hstore s l tag eq_refl) as [H1 H2].
    split; [exact H1|]. split; [|exact H2].
    now rewrite firstn_app, Nat.sub_diag, firstn_all, app_nil_r.
Qed.

(** Fetch, then fetch again: in a cache of fewer than 50 entries and
    read at one instant, a fetch that returned a list without error is
    followed by a fetch of the same URL that returns the same list from
    the cache, without another request and without touching the cache. *)
Theorem fetchPublicKeysURL_twice (E : environ) (url : string) (t : Time)
    (s s1 : server) (L : list string) :
  (forall n, timeNow E n = t) ->
  (size (fetchPublicKeysCache s) < 50)%nat ->
  fetchPublicKeysURL E url s = Ok ((L, None), s1) ->
  exists s2,
    fetchPublicKeysURL E url s1 = Ok ((L, None), s2)
    /\ pubKeyRequests s2 = pubKeyRequests s1
    /\ fetchPublicKeysCache s2 = fetchPublicKeysCache s1.
Proof.
  intros Hclock Hsize H.
  destruct (fetchPublicKeysURL_ok_entry E url t s s1 L Hclock Hsize H)
    as (Hpre & Hsize1 & _ & e & He & <- & Hfresh).
  eexists. split.
  - apply (fetchPublicKeysURL_hit E url s1 e Hpre Hsize1 He).
    now rewrite Hclock.
  - split; reflexivity.
Qed.

Lemma fetchPublicKeysURL_twice_witness :
  exists s2,
    fetchPublicKeysURL
      (world None (fun _ => noon) (answering 200 "ssh-test YWJj" "v2"))
      (keyURL 0)
      (set_clockReads 2
         (set_pubKeyRequests [{| req_url := keyURL 0; IfNoneMatch := Some "v1" |}]
            (set_cache {[ keyURL 0 := {| lines := ["ssh-test YWJj"];
                                         etag := "v2"; at_ := noon |} ]}
               (idleServer oneEntryCache))))
    = Ok ((["ssh-test YWJj"], None), s2)
    /\ pubKeyRequests s2
       = [{| req_url := keyURL 0; IfNoneMatch := Some "v1" |}].
Proof.
  destruct (fetchPublicKeysURL_twice
              (world None (fun _ => noon) (answering 200 "ssh-test YWJj" "v2"))
              (keyURL 0) noon (idleServer oneEntryCache)
              (set_clockReads 2
                 (set_pubKeyRequests
                    [{| req_url := keyURL 0; IfNoneMatch := Some "v1" |}]
                    (set_cache {[ keyURL 0 := {| lines := ["ssh-test YWJj"];
                                                 etag := "v2";
                                                 at_ := noon |} ]}
                       (idleServer oneEntryCache))))
              ["ssh-test YWJj"])
    as (s2 & H2 & Hreq & _).
  - reflexivity.
  - vm_compute. lia.
  - vm_compute. reflexivity.
  - exists s2. split; [exact H2 | exact Hreq].
Defined.

Lemma substring_length_le (n : nat) (s : string) :
  (String.length (String.substring 0 n s) <= n)%nat.
Proof.
  revert s. induction n as [|n IH]; intros s.
  - destruct s; simpl; lia.
  - destruct s as [|c s]; simpl; [lia|]. specialize (IH s). lia.
Qed.

(** Of the body of a 200 reply only the first 4096 bytes count: two
    replies that agree on them and on the etag give the same lines and
    etag, the bytes read are never more than 4096, and a body of 4096
    bytes or more is cut without a read error. *)
Theorem key_list_body_limit (E : environ) (ce : pubKeyCacheEntry)
    (r1 r2 : Response) :
  StatusCode r1 = 200%Z -> StatusCode r2 = 200%Z ->
  String.substring 0 4096 (Body r1) = String.substring 0 4096 (Body r2) ->
  Header_Etag r1 = Header_Etag r2 ->
  fst (interpretResponse E ce r1) = fst (interpretResponse E ce r2)
  /\ (String.length (fst (readLimited r1)) <= 4096)%nat
  /\ ((4096 <= String.length (Body r1))%nat -> snd (readLimited r1) = None).
Proof.
  intros H1 H2 Hbody Htag. unfold interpretResponse, readLimited.
  rewrite H1, H2, Hbody, Htag. simpl. split; [reflexivity|].
  split; [rewrite <- Hbody; apply substring_length_le|].
  intros Hlen. destruct (Nat.ltb_spec (String.length (Body r1)) 4096);
    [lia | reflexivity].
Qed.

Lemma key_list_body_limit_witness :
  fst (interpretResponse openWorld zeroEntry
         {| StatusCode := 200; Status := "200 OK"; Body := "ssh-test YWJj";
            BodyErr := None; Header_Etag := "v1" |})
  = fst (interpretResponse openWorld zeroEntry
           {| StatusCode := 200; Status := "200"; Body := "ssh-test YWJj";
              BodyErr := Some (errorString "reset"); Header_Etag := "v1" |}).
Proof.
  apply (key_list_body_limit openWorld zeroEntry
           {| StatusCode := 200; Status := "200 OK"; Body := "ssh-test YWJj";
              BodyErr := None; Header_Etag := "v1" |}
           {| StatusCode := 200; Status := "200"; Body := "ssh-test YWJj";
              BodyErr := Some (errorString "reset"); Header_Etag := "v1" |});
    reflexivity.
Defined.

(** ** Expanding the URL of a key list *)

Lemma firstMatch_other_char (pairs : list (string * string)) (c : ascii)
    (s : string) :
  Forall (fun '(old, _) => HasPrefix old "$" = true) pairs ->
  Ascii.eqb c "$" = false ->
  firstMatch pairs (String c s) = None.
Proof.
  intros Hpairs Hc. induction Hpairs as [|[old new] pairs Hold _ IH];
    [reflexivity|].
  simpl. destruct old as [|o old]; [discriminate|].
  simpl in Hold. apply andb_true_iff in Hold as [Ho _].
  apply Ascii.eqb_eq in Ho. subst o. simpl. rewrite Hc. exact IH.
Qed.

Lemma replaceFrom_keeps_prefix (pairs : list (string * string))
    (p s : string) :
  Forall (fun '(old, _) => HasPrefix old "$" = true) pairs ->
  Contains p "$" = false ->
  HasPrefix s p = true ->
  HasPrefix (replaceFrom pairs s 0) p = true.
Proof.
  intros Hpairs. revert s. induction p as [|b p IH]; intros s Hp Hs.
  - apply HasPrefix_nil.
  - destruct s as [|a s]; [discriminate|]. simpl in Hs, Hp.
    apply andb_true_iff in Hs as [Hab Hs].
    apply orb_false_iff in Hp as [Hb Hp].
    apply Ascii.eqb_eq in Hab. subst a.
    simpl. rewrite (firstMatch_other_char pairs b s Hpairs Hb).
    simpl. rewrite Ascii.eqb_refl. now apply IH.
Qed.

Lemma replaceFrom_no_dollar (pairs : list (string * string)) (s : string) :
  Forall (fun '(old, _) => HasPrefix old "$" = true) pairs ->
  Contains s "$" = false ->
  replaceFrom pairs s 0 = s.
Proof.
  intros Hpairs. induction s as [|c s IH]; intros Hs; [reflexivity|].
  simpl in Hs. apply orb_false_iff in Hs as [Hc Hs].
  simpl. rewrite (firstMatch_other_char pairs c s Hpairs Hc).
  now rewrite IH.
Qed.

Lemma replaceFrom_skip (pairs : list (string * string)) (x post : string) :
  replaceFrom pairs (x ++ post) (String.length x) = replaceFrom pairs post 0.
Proof.
  induction x as [|c x IH]; [reflexivity|].
  rewrite append_cons. simpl. exact IH.
Qed.

Lemma replaceFrom_match (pairs : list (string * string)) (c : ascii)
    (x new post : string) :
  firstMatch pairs (String c x ++ post) = Some (String c x, new) ->
  replaceFrom pairs (String c x ++ post) 0 = new ++ replaceFrom pairs post 0.
Proof.
  intros H. rewrite append_cons in *. cbn [replaceFrom]. rewrite H.
  cbn [String.length]. rewrite Nat.sub_succ, Nat.sub_0_r.
  now rewrite replaceFrom_skip.
Qed.

Lemma replaceFrom_app_no_dollar (pairs : list (string * string))
    (pre rest : string) :
  Forall (fun '(old, _) => HasPrefix old "$" = true) pairs ->
  Contains pre "$" = false ->
  replaceFrom pairs (pre ++ rest) 0 = pre ++ replaceFrom pairs rest 0.
Proof.
  intros Hpairs. induction pre as [|c pre IH]; intros Hpre; [reflexivity|].
  simpl in Hpre. apply orb_false_iff in Hpre as [Hc Hpre].
  rewrite !append_cons. simpl.
  rewrite (firstMatch_other_char pairs c _ Hpairs Hc).
  now rewrite IH.
Qed.

(** With the identity set, [expandPublicKeyURL] neither fails nor touches
    the server, and the login name cannot change the scheme: a URL that
    starts with [https://] still does after the expansion.  A URL without
    [$] is returned as it is, and in a URL whose only [$] starts the
    token of the local part, the token is replaced by the login name up
    to its first [@]. *)
Theorem expandPublicKeyURL_expands (c : conn)
    (ci : sshConnInfo) (url : string) (s : server) :
  info c = Some ci ->
  exists url',
    expandPublicKeyURL c url s = Ok (url', s)
    /\ (HasPrefix url "https://" = true -> HasPrefix url' "https://" = true)
    /\ (Contains url "$" = false -> url' = url)
    /\ (forall pre post lp domain,
          url = pre ++ "$LOGINNAME_LOCALPART" ++ post ->
          Contains pre "$" = false -> Contains post "$" = false ->
          LoginName (uprof ci) = lp ++ "@" ++ domain ->
          Contains lp "@" = false ->
          url' = pre ++ lp ++ post).
Proof.
  intros Hci. unfold expandPublicKeyURL. rewrite Hci.
  destruct (Contains url "$") eqn:Hdollar; simpl.
  - destruct (Cut (LoginName (uprof ci)) "@") as [[localPart after] found]
      eqn:Hcut.
    assert (Hpairs : Forall (fun '(old, _) => HasPrefix old "$" = true)
                       [("$LOGINNAME_EMAIL", LoginName (uprof ci));
                        ("$LOGINNAME_LOCALPART", localPart)])
      by (repeat constructor).
    eexists. split; [reflexivity|]. split; [|split; [discriminate|]].
    + intros Hpre. unfold Replace.
      now apply replaceFrom_keeps_prefix.
    + intros pre post lp domain -> Hpre Hpost Hlogin Hlp.
      rewrite Hlogin in Hcut.
      change (lp ++ "@" ++ domain) with (lp ++ String "@" domain) in Hcut.
      rewrite Cut_found in Hcut by assumption. injection Hcut as <- _ _.
      unfold Replace. rewrite replaceFrom_app_no_dollar by assumption.
      f_equal.
      set (pairs := [("$LOGINNAME_EMAIL", LoginName (uprof ci));
                     ("$LOGINNAME_LOCALPART", lp)]) in *.
      rewrite (replaceFrom_match pairs "$" "LOGINNAME_LOCALPART" lp post)
        by (destruct post; reflexivity).
      now rewrite (replaceFrom_no_dollar _ post Hpairs Hpost).
  - eexists. split; [reflexivity|]. split; [auto|]. split; [auto|].
    intros pre post lp domain -> Hpre Hpost _ _. exfalso.
    clear -Hdollar. induction pre as [|x pre IH].
    + discriminate.
    + rewrite append_cons in Hdollar. simpl in Hdollar.
      apply orb_false_iff in Hdollar as [_ H]. now apply IH.
Qed.

Lemma expandPublicKeyURL_expands_witness :
  expandPublicKeyURL aliceConn
    "https://github.com/$LOGINNAME_LOCALPART.keys" (idleServer ∅)
  = Ok ("https://github.com/alice.keys", idleServer ∅).
Proof.
  destruct (expandPublicKeyURL_expands aliceConn aliceInfo
              "https://github.com/$LOGINNAME_LOCALPART.keys" (idleServer ∅)
              eq_refl) as (url' & Hrun & _ & _ & Htoken).
  rewrite Hrun. f_equal. f_equal.
  apply (Htoken "https://github.com/" ".keys" "alice" "ex.com");
    reflexivity.
Defined.

(** ** Sessions *)

Lemma removeSession_fresh (ss : sshSession) (l : list sshSession) :
  Forall (fun x => ssPtr x <> ssPtr ss) l ->
  removeSession ss (l ++ [ss]) = l.
Proof.
  induction 1 as [|x l Hx _ IH]; simpl.
  - now rewrite Nat.eqb_refl.
  - apply Nat.eqb_neq in Hx. rewrite Hx. now rewrite IH.
Qed.

Lemma sessionWaitGroup_round_trip (s : server) :
  set_sessionWaitGroup (sessionWaitGroup s + 1 - 1)
    (set_sessionWaitGroup (sessionWaitGroup s + 1) s) = s.
Proof.
  destruct s; unfold set_sessionWaitGroup; simpl. f_equal. lia.
Qed.

(** When the child part of [run] ends with status 0. *)
Lemma runChild_status (os : sessionOS) (ss : sshSession) :
  exitStatus (runChild os ss) = 0%Z
  <-> (Subsystem ss = "sftp" \/ shouldRecord os = false
       \/ recordingErr os = None)
      /\ launchErr os = None
      /\ (waitResult os = WaitOk \/ waitResult os = WaitExitError 0).
Proof.
  unfold runChild.
  destruct (String.eqb_spec (Subsystem ss) "sftp") as [Hsub|Hsub];
    destruct (shouldRecord os), (recordingErr os) as [re|],
      (launchErr os) as [le|], (waitResult os) as [|code|we];
    simpl; split; try discriminate; try tauto;
    try (intros ->; tauto);
    try (intros (_ & _ & [H|H]); congruence);
    try (intros (_ & H & _); congruence);
    try (intros ([H|[H|H]] & _); congruence).
Qed.

(** What a returning [run] leaves behind, what it reports behind the
    fence, and when its status is 0. *)
Lemma run_round_trip (os : sessionOS) (ss : sshSession) (c c' : conn)
    (s s' : server) (rep : sessionReport) :
  Forall (fun x => ssPtr x <> ssPtr ss) (sessions c) ->
  run os ss c s = Ok ((rep, c'), s') ->
  s' = s /\ c' = c
  /\ (shutdownCalled s = true
      -> rep = report ["Tailscale SSH is shutting down" ++ CRLF] 1)
  /\ (exitStatus rep = 0%Z
      <-> shutdownCalled s = false
          /\ (Geteuid os = 0%Z
              \/ exists lu, localUser c = Some lu
                            /\ Uid lu = pretty (Geteuid os))
          /\ (Subsystem ss = "sftp" \/ shouldRecord os = false
              \/ recordingErr os = None)
          /\ launchErr os = None
          /\ (waitResult os = WaitOk \/ waitResult os = WaitExitError 0)).
Proof.
  intros Hfresh. unfold run, attachSessionToConnIfNotShutdown, attachSession,
    detachSession. unfold_monad.
  destruct (shutdownCalled s) eqn:Hfence; simpl.
  - intros H. injection H as <- <- <-.
    split; [reflexivity|]. split; [reflexivity|]. split; [reflexivity|].
    split; [discriminate | intros [H _]; discriminate].
  - destruct (String.eqb (sharedID ss) ""); simpl; [discriminate|].
    destruct (finalAction c) as [fa|]; simpl; [|discriminate].
    assert (Hend : set_sessions
                     (removeSession ss (sessions c ++ [ss]))
                     (set_sessions (sessions c ++ [ss]) c) = c).
    { rewrite (removeSession_fresh ss _ Hfresh). destruct c; reflexivity. }
    destruct (Geteuid os =? 0)%Z eqn:Heuid; simpl.
    + destruct (sessionWaitGroup s + 1 - 1 <? 0)%Z; [discriminate|].
      intros H. injection H as <- <- <-.
      rewrite sessionWaitGroup_round_trip. simpl in Hend.
      split; [reflexivity|]. split; [exact Hend|].
      split; [discriminate|]. rewrite runChild_status.
      apply Z.eqb_eq in Heuid. tauto.
    + destruct (localUser c) as [lu|] eqn:Hlu; simpl; [|discriminate].
      destruct (String.eqb_spec (Uid lu) (pretty (Geteuid os))) as [Huid|Huid];
        simpl.
      * destruct (sessionWaitGroup s + 1 - 1 <? 0)%Z; [discriminate|].
        intros H. injection H as <- <- <-.
        rewrite sessionWaitGroup_round_trip. simpl in Hend.
        split; [reflexivity|]. split; [exact Hend|].
        split; [discriminate|]. rewrite runChild_status.
        split; [|tauto]. intros H. split; [reflexivity|].
        split; [right; eauto | exact H].
      * destruct (sessionWaitGroup s + 1 - 1 <? 0)%Z; [discriminate|].
        intros H. injection H as <- <- <-.
        rewrite sessionWaitGroup_round_trip. simpl in Hend.
        split; [reflexivity|]. split; [exact Hend|].
        split; [discriminate|]. split; [discriminate|].
        apply Z.eqb_neq in Heuid.
        intros (_ & [H|(lu' & Hlu' & H)] & _).
        -- contradiction.
        -- injection Hlu' as <-. contradiction.
Qed.

(** A session that [run] has finished with is detached again: when the
    session is not yet among those of its connection, a returning [run]
    leaves server and connection as they were (the wait group is back at
    its count, the session list as before), whatever the child did.  The
    session ends with status 0 exactly when the fence was open, the
    process runs as root or with the uid of the local user, the
    recording, where one is made (not for sftp, and only when sessions
    are to be recorded), could be started, the launch succeeded, and the
    wait for the child returned no error or an exit error with code 0. *)
Theorem run_detaches (os : sessionOS) (ss : sshSession) (c c' : conn)
    (s s' : server) (rep : sessionReport) :
  Forall (fun x => ssPtr x <> ssPtr ss) (sessions c) ->
  run os ss c s = Ok ((rep, c'), s') ->
  s' = s /\ c' = c
  /\ (exitStatus rep = 0%Z
      <-> shutdownCalled s = false
          /\ (Geteuid os = 0%Z
              \/ exists lu, localUser c = Some lu
                            /\ Uid lu = pretty (Geteuid os))
          /\ (Subsystem ss = "sftp" \/ shouldRecord os = false
              \/ recordingErr os = None)
          /\ launchErr os = None
          /\ (waitResult os = WaitOk \/ waitResult os = WaitExitError 0)).
Proof.
  intros Hfresh Hrun.
  destruct (run_round_trip os ss c c' s s' rep Hfresh Hrun)
    as (Hs & Hc & _ & Hz).
  auto.
Qed.

Lemma run_detaches_witness :
  run brokenRecorder sftpSession aliceAccepted (idleServer ∅)
  = Ok ((report [] 0, aliceAccepted), idleServer ∅)
  /\ run brokenRecorder shellSession aliceAccepted (idleServer ∅)
     = Ok ((report ["can't start new recording" ++ CRLF] 1, aliceAccepted),
           idleServer ∅)
  /\ idleServer ∅ = idleServer ∅ /\ aliceAccepted = aliceAccepted.
Proof.
  assert (Hrun : run brokenRecorder sftpSession aliceAccepted (idleServer ∅)
                 = Ok ((report [] 0, aliceAccepted), idleServer ∅))
    by reflexivity.
  split; [exact Hrun|]. split; [reflexivity|].
  destruct (run_detaches brokenRecorder sftpSession aliceAccepted
              aliceAccepted (idleServer ∅) (idleServer ∅) (report [] 0)
              (List.Forall_nil _) Hrun) as (Hs & Hc & _).
  split; assumption.
Defined.

(** [handleSessionPostSSHAuth] starts a session for the subsystems
    [sftp] and none only.  Any other subsystem is answered on stderr with
    its quoted name and status 1 before anything else happens: no clock
    read, no session, and no use of the identity, so it cannot panic.  For
    the two supported ones a returning call has read the clock once for
    the session's name, needed identity and local user, wrote nothing to
    stderr, left the connection as it was, and behind the fence ended
    with the shutting-down message. *)
Theorem handleSessionPostSSHAuth_subsystems (E : environ)
    (format : Time -> string) (quote : string -> string) (os : sessionOS)
    (ptr cptr : nat) (subsystem rnd : string) (c : conn) (s : server) :
  Forall (fun x => ssPtr x <> ptr) (sessions c) ->
  (subsystem <> "sftp" -> subsystem <> "" ->
   handleSessionPostSSHAuth E format quote os ptr cptr subsystem rnd c s
   = Ok ((["Unsupported subsystem " ++ quote subsystem ++ CRLF],
          report [] 1, c), s))
  /\ (subsystem = "sftp" \/ subsystem = "" ->
      forall err rep c' s',
        handleSessionPostSSHAuth E format quote os ptr cptr subsystem rnd c s
        = Ok ((err, rep, c'), s') ->
        err = [] /\ c' = c
        /\ s' = set_clockReads (S (clockReads s)) s
        /\ info c <> None /\ localUser c <> None
        /\ (shutdownCalled s = true
            -> rep = report ["Tailscale SSH is shutting down" ++ CRLF] 1)).
Proof.
  intros Hfresh. unfold handleSessionPostSSHAuth. split.
  - intros H1 H2. apply String.eqb_neq in H1, H2. now rewrite H1, H2.
  - intros Hsub err rep c' s'.
    assert (Hsup : String.eqb subsystem "sftp" || String.eqb subsystem ""
                   = true).
    { destruct Hsub as [-> | ->]; reflexivity. }
    rewrite Hsup. unfold bind at 1. rewrite now_run.
    destruct (info c) as [ci|]; [|discriminate].
    destruct (localUser c) as [lu|]; [|discriminate].
    unfold bind at 1.
    destruct (run os _ c _) as [[[rep1 c1] s1]|msg] eqn:Hrun;
      [|discriminate].
    unfold ret. simpl. intros H. injection H as <- <- <- <-.
    destruct (run_round_trip os
                (newSSHSession ptr cptr subsystem
                   (format (timeNow E (clockReads s))) rnd)
                c c1 _ s1 rep1 Hfresh Hrun)
      as (-> & -> & Hfence & _).
    repeat split; try discriminate. exact Hfence.
Qed.

Lemma handleSessionPostSSHAuth_subsystems_witness :
  handleSessionPostSSHAuth openWorld (fun _ => "20221030T120000")
    (fun x => x) quietOS 10 1 "netconf" "0a0b0c0d0e" aliceAccepted
    (idleServer ∅)
  = Ok ((["Unsupported subsystem netconf" ++ CRLF], report [] 1,
         aliceAccepted), idleServer ∅)
  /\ handleSessionPostSSHAuth openWorld (fun _ => "20221030T120000")
       (fun x => x) quietOS 10 1 "sftp" "0a0b0c0d0e" aliceAccepted
       (idleServer ∅)
     = Ok (([], report [] 0, aliceAccepted),
           set_clockReads 1 (idleServer ∅)).
Proof.
  destruct (handleSessionPostSSHAuth_subsystems openWorld
              (fun _ => "20221030T120000") (fun x => x) quietOS 10 1
              "netconf" "0a0b0c0d0e" aliceAccepted (idleServer ∅)
              (List.Forall_nil _)) as [Hno _].
  split; [apply Hno; discriminate | reflexivity].
Defined.

(** ** Shutdown *)

(** One step behind the fence keeps every connection and never reopens
    a closed one. *)
Lemma step_keeps_closed (E : environ) (ev : event) (p p' : process)
    (k : nat) (c : conn) :
  shutdownCalled (srv p) = true ->
  step E ev p = Ok p' ->
  conns p !! k = Some c -> closed c = true ->
  exists c', conns p' !! k = Some c' /\ closed c' = true.
Proof.
  intros Hfence Hstep Hk Hclosed.
  destruct ev as [|cptr id hk|cptr add|ss|ss|url]; simpl in Hstep.
  - injection Hstep as <-. simpl. rewrite map_lookup_imap, Hk. simpl.
    eexists. split; [reflexivity|].
    destruct (bool_decide _); [reflexivity | assumption].
  - unfold newConn in Hstep. rewrite Hfence in Hstep.
    injection Hstep as <-. eauto.
  - injection Hstep as <-. simpl. eauto.
  - unfold onConn in Hstep.
    destruct (conns p !! connPtr ss) as [c0|] eqn:Hc0; [|discriminate].
    unfold bind in Hstep. rewrite (attach_refused ss c0 _ Hfence) in Hstep.
    unfold ret in Hstep. simpl in Hstep. injection Hstep as <-. simpl.
    destruct (decide (k = connPtr ss)) as [->|Hne].
    + rewrite lookup_insert_eq. rewrite Hc0 in Hk. injection Hk as ->. eauto.
    + rewrite lookup_insert_ne by congruence. eauto.
  - unfold onConn in Hstep.
    destruct (conns p !! connPtr ss) as [c0|] eqn:Hc0; [|discriminate].
    unfold detachSession, bind, get, modify, ret, panic in Hstep.
    destruct (sessionWaitGroup (srv p) - 1 <? 0)%Z; [discriminate|].
    simpl in Hstep. injection Hstep as <-. simpl.
    destruct (decide (k = connPtr ss)) as [->|Hne].
    + rewrite lookup_insert_eq. rewrite Hc0 in Hk. injection Hk as ->.
      eexists. split; [reflexivity|]. exact Hclosed.
    + rewrite lookup_insert_ne by congruence. eauto.
  - destruct (fetchPublicKeysURL E url (srv p)) as [[r s']|msg];
      [|discriminate].
    injection Hstep as <-. simpl. eauto.
Qed.

Lemma step_keeps_fence (E : environ) (ev : event) (p p' : process) :
  shutdownCalled (srv p) = true ->
  step E ev p = Ok p' ->
  shutdownCalled (srv p') = true.
Proof.
  intros Hfence Hstep.
  now destruct (step_behind_fence E ev p p' Hfence Hstep).
Qed.

Lemma exec_keeps_closed (E : environ) (evs : list event) (p : process)
    (k : nat) (c : conn) :
  shutdownCalled (srv p) = true ->
  conns p !! k = Some c -> closed c = true ->
  shutdownCalled (srv (exec E evs p)) = true
  /\ exists c', conns (exec E evs p) !! k = Some c' /\ closed c' = true.
Proof.
  revert p c. induction evs as [|ev evs IH]; intros p c Hfence Hk Hclosed;
    simpl.
  - eauto.
  - destruct (step E ev p) as [p1|msg] eqn:Hstep; [|eauto].
    destruct (step_keeps_closed E ev p p1 k c Hfence Hstep Hk Hclosed)
      as (c1 & Hk1 & Hclosed1).
    exact (IH p1 c1 (step_keeps_fence E ev p p1 Hfence Hstep) Hk1 Hclosed1).
Qed.

(** [Shutdown] closes every connection that is tracked as active and
    touches no other; whatever happens afterwards, such a connection is
    still there and still closed, and [newConn] refuses with the plain
    denial before it looks at the host keys. *)
Theorem Shutdown_closes_active (E : environ) (p : process)
    (evs : list event) (k : nat) (c : conn) :
  conns p !! k = Some c ->
  (k ∈ activeConns (srv p) ->
   exists c', conns (exec E evs (Shutdown p)) !! k = Some c'
              /\ closed c' = true)
  /\ (k ∉ activeConns (srv p) -> conns (Shutdown p) !! k = Some c)
  /\ (forall id hostKeys,
        newConn id hostKeys (srv (exec E evs (Shutdown p))) = inl ErrDenied).
Proof.
  intros Hk. split; [|split].
  - intros Hact.
    assert (Hk' : conns (Shutdown p) !! k = Some (set_closed true c)).
    { simpl. rewrite map_lookup_imap, Hk. simpl.
      now rewrite bool_decide_eq_true_2. }
    now destruct (exec_keeps_closed E evs (Shutdown p) k _ eq_refl Hk'
                    eq_refl).
  - intros Hact. simpl. rewrite map_lookup_imap, Hk. simpl.
    now rewrite bool_decide_eq_false_2.
  - intros id hostKeys. unfold newConn.
    destruct (exec_behind_fence E evs (Shutdown p) eq_refl) as [-> _].
    reflexivity.
Qed.

Lemma Shutdown_closes_active_witness :
  exists c',
    conns (exec openWorld [EvNewConn 2 "c2" None; EvAttach shellSession; EvTrack 1 false]
             (Shutdown oneConnProcess)) !! 1%nat = Some c'
    /\ closed c' = true.
Proof.
  apply (Shutdown_closes_active openWorld oneConnProcess
           [EvNewConn 2 "c2" None; EvAttach shellSession; EvTrack 1 false] 1%nat
           aliceAccepted).
  - reflexivity.
  - change (1%nat ∈ ({[ 1%nat ]} : gset nat)).
    apply elem_of_singleton_2. reflexivity.
Defined.

(** ** The exit gate: the message of a terminated session *)

(** In a session whose gate is open, the termination message goes to
    stderr at most once, framed by blank lines, and only when the watcher
    of the context reaches the gate first with a message that is not
    empty; whoever arrives later writes nothing. *)
Theorem termination_message_once (schedule : list racer) (p : sessionProc) :
  exitOnce p = false ->
  stderrText (race schedule p)
  = (stderrText p
     ++ match schedule with
        | ContextDone (Some m) :: _ =>
            if String.eqb m "" then []
            else [(CRLF ++ CRLF ++ m ++ CRLF ++ CRLF)%string]
        | _ => []
        end)%list.
Proof.
  intros Hopen. destruct schedule as [|r rest].
  - simpl. now rewrite app_nil_r.
  - unfold race. simpl. fold (race rest (raceStep r p)).
    rewrite (race_settled rest _ (raceStep_sets_gate r p)).
    destruct r as [|[m|]]; simpl;
      unfold afterWait, killProcessOnContextDone, exitOnce_Do;
      rewrite Hopen; simpl.
    + now rewrite app_nil_r.
    + destruct (String.eqb m ""); [now rewrite app_nil_r | reflexivity].
    + now rewrite app_nil_r.
Qed.

Lemma termination_message_once_witness :
  stderrText (race [ContextDone (Some "Access revoked."); ChildExited;
                    ContextDone (Some "again")] freshSession)
  = [(CRLF ++ CRLF ++ "Access revoked." ++ CRLF ++ CRLF)%string].
Proof.
  apply (termination_message_once
           [ContextDone (Some "Access revoked."); ChildExited;
            ContextDone (Some "again")] freshSession).
  reflexivity.
Defined.
